(** * A shallow embedding of the metadata-driven ETL runner

    The development follows the Python sources under [scripts/]:
    [create_ddl.py], [scd_type.py], [load_type.py], [raw_curated.py],
    [curated_processed.py], [source_raw.py], [validate_input.py],
    [audit.py] and [orchestration.py].  Python values, pandas frames and the
    relational store are
    modelled first; the functions of each source file follow in a module named
    after the file; the theorems come last. *)

From Stdlib Require Import ZArith Ascii String List Bool Lia.
From stdpp Require Import base option strings list gmap pretty.

Local Open Scope string_scope.
Local Open Scope list_scope.
Local Open Scope Z_scope.

(** ** Python values and built-ins *)

Module Py.

(** The values a SQLAlchemy row mapping holds. *)
Inductive pyval :=
  | PNone
  | PBool (b : bool)
  | PInt (z : Z)
  | PStr (s : string).

#[global] Instance pyval_eq_dec : EqDecision pyval.
Proof. solve_decision. Defined.

(** A Python call either returns or raises; [Raise] carries [str(exc)]. *)
Inductive outcome (A : Type) :=
  | Ok (a : A)
  | Raise (msg : string).
Arguments Ok {A} a.
Arguments Raise {A} msg.

Definition obind {A B} (x : outcome A) (k : A -> outcome B) : outcome B :=
  match x with
  | Ok a => k a
  | Raise e => Raise e
  end.

(** [bool(x)] *)
Definition truthy (v : pyval) : bool :=
  match v with
  | PNone => false
  | PBool b => b
  | PInt z => negb (z =? 0)
  | PStr s => negb (String.eqb s "")
  end.

(** [x or d] *)
Definition py_or (v d : pyval) : pyval := if truthy v then v else d.

(** [a == b]; [True == 1] and [False == 0] hold in Python. *)
Definition py_eq (a b : pyval) : bool :=
  match a, b with
  | PNone, PNone => true
  | PBool x, PBool y => Bool.eqb x y
  | PBool x, PInt z | PInt z, PBool x => z =? (if x then 1 else 0)
  | PInt x, PInt y => x =? y
  | PStr x, PStr y => String.eqb x y
  | _, _ => false
  end.

Definition is_digit (c : ascii) : bool :=
  let n := N_of_ascii c in ((48 <=? n) && (n <=? 57))%N.

Definition digit_val (c : ascii) : Z := Z.of_N (N_of_ascii c) - 48.

Definition is_space (c : ascii) : bool :=
  let n := N_of_ascii c in ((n =? 32) || ((9 <=? n) && (n <=? 13)))%N.

Definition upper_char (c : ascii) : ascii :=
  let n := N_of_ascii c in
  if ((97 <=? n) && (n <=? 122))%N then ascii_of_N (n - 32) else c.

Definition lower_char (c : ascii) : ascii :=
  let n := N_of_ascii c in
  if ((65 <=? n) && (n <=? 90))%N then ascii_of_N (n + 32) else c.

(** [s.upper()], [s.lower()] on ASCII text. *)
Fixpoint upper (s : string) : string :=
  match s with
  | EmptyString => EmptyString
  | String c r => String (upper_char c) (upper r)
  end.

Fixpoint lower (s : string) : string :=
  match s with
  | EmptyString => EmptyString
  | String c r => String (lower_char c) (lower r)
  end.

Fixpoint lstrip (s : string) : string :=
  match s with
  | String c r => if is_space c then lstrip r else s
  | EmptyString => EmptyString
  end.

Fixpoint rstrip (s : string) : string :=
  match s with
  | EmptyString => EmptyString
  | String c r =>
      match rstrip r with
      | EmptyString => if is_space c then EmptyString else String c EmptyString
      | r' => String c r'
      end
  end.

(** [s.strip()] *)
Definition strip (s : string) : string := rstrip (lstrip s).

(** [s.split(sep, 1)] for a one-character separator: [None] when [sep] does
    not occur, else the text before and after its first occurrence. *)
Fixpoint split_once (sep : ascii) (s : string) : option (string * string) :=
  match s with
  | EmptyString => None
  | String c r =>
      if Ascii.eqb c sep then Some (EmptyString, r)
      else match split_once sep r with
           | Some (a, b) => Some (String c a, b)
           | None => None
           end
  end.

(** [s.split(sep)] for a one-character separator. *)
Fixpoint split (sep : ascii) (s : string) : list string :=
  match s with
  | EmptyString => [EmptyString]
  | String c r =>
      if Ascii.eqb c sep then EmptyString :: split sep r
      else match split sep r with
           | w :: ws => String c w :: ws
           | [] => [String c EmptyString]
           end
  end.

(** [sub in s] *)
Fixpoint contains (sub s : string) : bool :=
  String.prefix sub s ||
  match s with
  | EmptyString => false
  | String _ r => contains sub r
  end.

(** [sep.join(parts)] *)
Fixpoint join (sep : string) (parts : list string) : string :=
  match parts with
  | [] => ""
  | [p] => p
  | p :: ps => p +:+ sep +:+ join sep ps
  end.

(** Digits of an integer literal: one underscore is allowed between two
    digits, as [int()] accepts it. *)
Fixpoint int_digits (acc : Z) (after_digit : bool) (s : string) : option Z :=
  match s with
  | EmptyString => if after_digit then Some acc else None
  | String c r =>
      if is_digit c then int_digits (10 * acc + digit_val c) true r
      else if Ascii.eqb c "_" && after_digit then int_digits acc false r
      else None
  end.

Definition int_literal (s : string) : option Z :=
  match strip s with
  | String "-" r => Z.opp <$> int_digits 0 false r
  | String "+" r => int_digits 0 false r
  | r => int_digits 0 false r
  end.

(** [str(x)] *)
Definition str (v : pyval) : string :=
  match v with
  | PNone => "None"
  | PBool true => "True"
  | PBool false => "False"
  | PInt z => pretty z
  | PStr s => s
  end.

(** [int(x)]: raises [TypeError] on [None] and [ValueError] on text that is
    not an integer literal. *)
Definition int (v : pyval) : outcome Z :=
  match v with
  | PNone =>
      Raise "int() argument must be a string, a bytes-like object or a real number, not 'NoneType'"
  | PBool b => Ok (if b then 1 else 0)
  | PInt z => Ok z
  | PStr s =>
      match int_literal s with
      | Some z => Ok z
      | None => Raise ("invalid literal for int() with base 10: '" +:+ s +:+ "'")
      end
  end.

(** [d.get(k)] and [d.get(k, default)] on a row mapping. *)
Definition get (d : gmap string pyval) (k : string) : pyval :=
  default PNone (d !! k).

Definition get_or (d : gmap string pyval) (k : string) (dflt : pyval) : pyval :=
  default dflt (d !! k).

(** [d[k]]: raises [KeyError] when the key is absent. *)
Definition item (d : gmap string pyval) (k : string) : outcome pyval :=
  match d !! k with
  | Some v => Ok v
  | None => Raise ("'" +:+ k +:+ "'")
  end.

(** [datetime(year, month, day, ...)]: the calendar date and the
    microseconds elapsed since midnight. *)
Record datetime := Datetime {
  dt_year : Z;
  dt_month : Z;
  dt_day : Z;
  dt_micros : Z
}.

#[global] Instance datetime_eq_dec : EqDecision datetime.
Proof. solve_decision. Defined.

Definition is_leap (y : Z) : bool :=
  ((y mod 4 =? 0) && negb (y mod 100 =? 0)) || (y mod 400 =? 0).

Definition days_in_month (y m : Z) : Z :=
  if m =? 2 then (if is_leap y then 29 else 28)
  else if (m =? 4) || (m =? 6) || (m =? 9) || (m =? 11) then 30
  else 31.

(** [datetime(y, m, d)] raises [ValueError] outside the calendar. *)
Definition mk_datetime (y m d : Z) : outcome datetime :=
  if negb ((1 <=? y) && (y <=? 9999)) then
    Raise ("year " +:+ pretty y +:+ " is out of range")
  else if negb ((1 <=? m) && (m <=? 12)) then
    Raise "month must be in 1..12"
  else if negb ((1 <=? d) && (d <=? days_in_month y m)) then
    Raise "day is out of range for month"
  else Ok (Datetime y m d 0).

(** [a < b] on datetimes. *)
Definition dt_ltb (a b : datetime) : bool :=
  (dt_year a <? dt_year b) ||
  ((dt_year a =? dt_year b) &&
   ((dt_month a <? dt_month b) ||
    ((dt_month a =? dt_month b) &&
     ((dt_day a <? dt_day b) ||
      ((dt_day a =? dt_day b) && (dt_micros a <? dt_micros b)))))).

End Py.

Export Py.

(** ** pandas frames *)

Module Frame.

(** A cell of a frame or of a stored row.  [CNull] stands for [None], [NaN]
    and SQL [NULL] alike; numeric cells are integers.  A value is the same
    cell in a frame, in a statement and in a table: the conversions between
    SQL Server types are not modelled. *)
Inductive cell :=
  | CNull
  | CInt (z : Z)
  | CStr (s : string)
  | CTime (t : datetime).

#[global] Instance cell_eq_dec : EqDecision cell.
Proof. solve_decision. Defined.

(** Column dtypes, as far as [select_dtypes(include=["number"])] tells them
    apart. *)
Inductive dtype := DObject | DNumber.

#[global] Instance dtype_eq_dec : EqDecision dtype.
Proof. solve_decision. Defined.

(** A frame: its column labels with their dtypes, and its rows in order, each
    aligned to the columns. *)
Record DataFrame := {
  columns : list (string * dtype);
  rows : list (list cell)
}.

Definition labels (df : DataFrame) : list string := (columns df).*1.

(** [len(df)] *)
Definition len (df : DataFrame) : Z := Z.of_nat (length (rows df)).

(** [df.empty]: no rows or no columns. *)
Definition empty (df : DataFrame) : bool :=
  match rows df, columns df with
  | [], _ | _, [] => true
  | _, _ => false
  end.

Definition with_rows (df : DataFrame) (rs : list (list cell)) : DataFrame :=
  {| columns := columns df; rows := rs |}.

(** Position of the first column labelled [c]. *)
Fixpoint col_pos (ls : list string) (c : string) : option nat :=
  match ls with
  | [] => None
  | l :: ls' => if String.eqb l c then Some 0%nat else S <$> col_pos ls' c
  end.

Definition is_null (v : cell) : bool :=
  match v with CNull => true | _ => false end.

(** [row[col]] for a row of a frame with labels [ls]. *)
Definition at_col (ls : list string) (r : list cell) (c : string) : cell :=
  match col_pos ls c with
  | Some i => default CNull (r !! i)
  | None => CNull
  end.

(** The values of a row under the labels [cs], e.g. its key. *)
Definition project (ls : list string) (cs : list string) (r : list cell)
  : list cell :=
  map (at_col ls r) cs.

(** pandas raises [KeyError] when a [subset] names a missing label. *)
Definition check_subset (ls cs : list string) : outcome unit :=
  match filter (fun c => c ∉ ls) cs with
  | [] => Ok tt
  | missing => Raise ("KeyError: " +:+ join ", " missing)
  end.

(** [df.dropna(subset=cs)]: a row goes when any of its [cs] cells is null. *)
Definition dropna (cs : list string) (df : DataFrame) : outcome DataFrame :=
  obind (check_subset (labels df) cs) (fun _ =>
  Ok (with_rows df
        (List.filter
           (fun r => forallb (fun c => negb (is_null (at_col (labels df) r c))) cs)
           (rows df)))).

(** Rows without a later row of the same key: [keep="last"]. *)
Fixpoint keep_last {K} `{EqDecision K} (key : list cell -> K)
    (rs : list (list cell)) : list (list cell) :=
  match rs with
  | [] => []
  | r :: rs' =>
      if existsb (fun r' => bool_decide (key r' = key r)) rs'
      then keep_last key rs'
      else r :: keep_last key rs'
  end.

(** [df.drop_duplicates(subset=cs, keep="last")] *)
Definition drop_duplicates_last (cs : list string) (df : DataFrame)
  : outcome DataFrame :=
  obind (check_subset (labels df) cs) (fun _ =>
  Ok (with_rows df (keep_last (project (labels df) cs) (rows df)))).

(** [df[df[c].isin(values)]]; a null is in no value set built with
    [dropna()]. *)
Definition filter_isin (c : string) (values : list cell) (df : DataFrame)
  : outcome DataFrame :=
  obind (check_subset (labels df) [c]) (fun _ =>
  Ok (with_rows df
        (List.filter
           (fun r => bool_decide (at_col (labels df) r c ∈ values))
           (rows df)))).

(** [df.select_dtypes(include=["number"]).columns] *)
Definition numeric_cols (df : DataFrame) : list string :=
  (List.filter (fun cd => bool_decide (cd.2 = DNumber)) (columns df)).*1.

(** [x < 0] on a cell; a comparison with [NaN] is false. *)
Definition negative (v : cell) : bool :=
  match v with
  | CInt z => z <? 0
  | _ => false
  end.

(** [df.rename(columns=m)] *)
Definition rename (m : gmap string string) (df : DataFrame) : DataFrame :=
  {| columns := map (fun cd => (default cd.1 (m !! cd.1), cd.2)) (columns df);
     rows := rows df |}.

Definition dtype_of (df : DataFrame) (c : string) : dtype :=
  match col_pos (labels df) c with
  | Some i => default DObject ((columns df).*2 !! i)
  | None => DObject
  end.

(** [df.reindex(columns=cs)]: the columns [cs] in that order, a missing one
    filled with nulls.  pandas refuses to reindex an axis that has duplicate
    labels, unless the axis already equals [cs]. *)
Definition reindex (cs : list string) (df : DataFrame) : outcome DataFrame :=
  if bool_decide (labels df = cs) then Ok df
  else if bool_decide (NoDup (labels df)) then
    Ok {| columns := map (fun c => (c, dtype_of df c)) cs;
          rows := map (project (labels df) cs) (rows df) |}
  else Raise "cannot reindex on an axis with duplicate labels".

(** [df[cs]]: column selection by label. *)
Definition select (cs : list string) (df : DataFrame) : outcome DataFrame :=
  obind (check_subset (labels df) cs) (fun _ =>
  Ok {| columns := map (fun c => (c, dtype_of df c)) cs;
        rows := map (project (labels df) cs) (rows df) |}).

End Frame.

Export Frame.

(** ** The relational store behind the SQLAlchemy engine *)

Module Db.

(** A stored row: column name to value; an absent column reads as [NULL]. *)
Abbreviation srow := (gmap string cell).

Definition cell_of (r : srow) (c : string) : cell := default CNull (r !! c).

(** A user table: its column definitions and foreign-key clauses as the
    [CREATE TABLE] statement listed them, and its rows. *)
Record table := {
  t_schema : string;
  t_name : string;
  t_defs : list string;
  t_fks : list string;
  t_rows : list srow
}.

(** The column a definition [[name] TYPE ...] declares. *)
Definition def_column (d : string) : string :=
  match split_once "[" d with
  | Some (_, r) =>
      match split_once "]" r with
      | Some (n, _) => n
      | None => ""
      end
  | None => ""
  end.

(** A column that must be given a non-null value: declared [NOT NULL] with no
    [DEFAULT] to fall back on. *)
Definition def_required (d : string) : bool :=
  contains "NOT NULL" d && negb (contains "DEFAULT" d).

Definition t_columns (t : table) : list string := map def_column (t_defs t).

(** Row of the JobAudit table. *)
Record audit_row := {
  a_job : string;
  a_stage : string;
  a_start : datetime;
  a_end : option datetime;
  a_rows : option Z;
  a_status : string;
  a_message : option string
}.

(** The database the engine is connected to, and the server clock
    ([datetime.now()], [GETDATE()]). *)
Record engine := {
  Config : list (gmap string pyval);
  Metadata : list (gmap string pyval);
  sys_tables : list table;
  IncrementalTracker : gmap (string * string) datetime;
  JobAudit : list audit_row;
  clock : datetime
}.

Definition set_tables (ts : list table) (e : engine) : engine :=
  {| Config := Config e; Metadata := Metadata e; sys_tables := ts;
     IncrementalTracker := IncrementalTracker e; JobAudit := JobAudit e;
     clock := clock e |}.

Definition set_tracker (tr : gmap (string * string) datetime) (e : engine)
  : engine :=
  {| Config := Config e; Metadata := Metadata e; sys_tables := sys_tables e;
     IncrementalTracker := tr; JobAudit := JobAudit e; clock := clock e |}.

Definition set_audit (a : list audit_row) (e : engine) : engine :=
  {| Config := Config e; Metadata := Metadata e; sys_tables := sys_tables e;
     IncrementalTracker := IncrementalTracker e; JobAudit := a;
     clock := clock e |}.

(** *** Calls against the engine: state and exceptions *)

Definition M (A : Type) : Type := engine -> outcome A * engine.

Definition ret {A} (a : A) : M A := fun e => (Ok a, e).

Definition bind {A B} (m : M A) (k : A -> M B) : M B :=
  fun e =>
    match m e with
    | (Ok a, e') => k a e'
    | (Raise x, e') => (Raise x, e')
    end.

Notation "'let*' x := m 'in' k" := (bind m (fun x => k))
  (at level 10, x pattern, m at level 100, k at level 200).
Notation "m ;;; k" := (bind m (fun _ => k))
  (at level 100, k at level 200, right associativity).

Definition lift {A} (o : outcome A) : M A := fun e => (o, e).
Definition raise {A} (msg : string) : M A := fun e => (Raise msg, e).
Definition gets {A} (f : engine -> A) : M A := fun e => (Ok (f e), e).
Definition modify (f : engine -> engine) : M unit := fun e => (Ok tt, f e).

(** [with engine.begin() as conn: ...]: commit on exit, roll back when the
    block raises. *)
Definition transaction {A} (m : M A) : M A :=
  fun e =>
    match m e with
    | (Ok a, e') => (Ok a, e')
    | (Raise x, _) => (Raise x, e)
    end.

(** [try: m except Exception as exc: h(str(exc))] *)
Definition try_except {A} (m : M A) (h : string -> M A) : M A :=
  fun e =>
    match m e with
    | (Ok a, e') => (Ok a, e')
    | (Raise x, e') => h x e'
    end.

(** *** Tables *)

Definition same_table (schema name : string) (t : table) : bool :=
  String.eqb (lower (t_schema t)) (lower schema) &&
  String.eqb (lower (t_name t)) (lower name).

Definition find_table (schema name : string) (ts : list table) : option table :=
  List.find (same_table schema name) ts.

(** Replace the first table the name resolves to. *)
Fixpoint put_table (schema name : string) (t' : table) (ts : list table)
  : list table :=
  match ts with
  | [] => []
  | t :: r =>
      if same_table schema name t then t' :: r
      else t :: put_table schema name t' r
  end.

Fixpoint drop_table (schema name : string) (ts : list table) : list table :=
  match ts with
  | [] => []
  | t :: r =>
      if same_table schema name t then r else t :: drop_table schema name r
  end.

Definition with_t_rows (t : table) (rs : list srow) : table :=
  {| t_schema := t_schema t; t_name := t_name t; t_defs := t_defs t;
     t_fks := t_fks t; t_rows := rs |}.

Definition invalid_object (schema name : string) : string :=
  "Invalid object name '" +:+ schema +:+ "." +:+ name +:+ "'.".

(** The table a statement names, or the server's error. *)
Definition the_table (schema name : string) : M table :=
  fun e =>
    match find_table schema name (sys_tables e) with
    | Some t => (Ok t, e)
    | None => (Raise (invalid_object schema name), e)
    end.

Definition write_rows (schema name : string) (t : table) (rs : list srow)
  : M unit :=
  modify (fun e =>
    set_tables (put_table schema name (with_t_rows t rs) (sys_tables e)) e).

(** What the store checks of a row written to [t]: every required column
    holds a value.  Keys, types and lengths are not modelled. *)
Definition row_ok (t : table) (r : srow) : bool :=
  forallb (fun d => negb (def_required d) || negb (is_null (cell_of r (def_column d))))
          (t_defs t).

Definition cols_ok (t : table) (cs : list string) : bool :=
  forallb (fun c => bool_decide (c ∈ t_columns t)) cs.

(** A row of a frame as the store receives it. *)
Definition to_srow (ls : list string) (r : list cell) : srow :=
  list_to_map (zip ls r).

(** [SELECT * FROM [schema].[name]] through [pd.read_sql]: a column comes out
    numeric when it holds a number and no text. *)
Definition infer_dtype (vs : list cell) : dtype :=
  if forallb (fun v => match v with CNull | CInt _ => true | _ => false end) vs
     && existsb (fun v => match v with CInt _ => true | _ => false end) vs
  then DNumber else DObject.

Definition read_sql (schema name : string) : M DataFrame :=
  let* t := the_table schema name in
  let cs := t_columns t in
  ret {| columns := map (fun c => (c, infer_dtype (map (fun r => cell_of r c) (t_rows t)))) cs;
         rows := map (fun r => map (cell_of r) cs) (t_rows t) |}.

(** [SELECT DISTINCT [col] FROM [schema].[name]] *)
Definition select_distinct (col schema name : string) : M (list cell) :=
  let* t := the_table schema name in
  if bool_decide (col ∈ t_columns t)
  then ret (remove_dups (map (fun r => cell_of r col) (t_rows t)))
  else raise ("Invalid column name '" +:+ col +:+ "'.").

(** [TRUNCATE TABLE [schema].[name]] *)
Definition truncate (schema name : string) : M unit :=
  let* t := the_table schema name in
  write_rows schema name t [].

(** [df.to_sql(name, engine, schema=schema, if_exists="append",
    index=False)]: one transaction for the whole frame.  pandas creates the
    table when it is absent. *)
Definition to_sql (df : DataFrame) (name schema : string) : M unit :=
  transaction (
    let* ts := gets sys_tables in
    let new := map (to_srow (labels df)) (rows df) in
    match find_table schema name ts with
    | None =>
        modify (set_tables
          (ts ++ [{| t_schema := schema; t_name := name;
                     t_defs := map (fun c => "[" +:+ c +:+ "] VARCHAR(max) NULL") (labels df);
                     t_fks := []; t_rows := new |}]))
    | Some t =>
        if negb (cols_ok t (labels df)) then raise "Invalid column name."
        else if negb (forallb (row_ok t) new) then
          raise "Cannot insert the value NULL into a column that does not allow nulls. INSERT fails."
        else write_rows schema name t (t_rows t ++ new)
    end).

(** *** [CREATE TABLE] as the server reads it *)

Fixpoint strip_prefix (p s : string) : option string :=
  match p, s with
  | EmptyString, _ => Some s
  | String a p', String b s' => if Ascii.eqb a b then strip_prefix p' s' else None
  | _, _ => None
  end.

Fixpoint drop_trailing_comma (s : string) : string :=
  match s with
  | EmptyString => EmptyString
  | String c EmptyString => if Ascii.eqb c "," then EmptyString else s
  | String c r => String c (drop_trailing_comma r)
  end.

(** Schema and table of a header line [CREATE TABLE [schema].[table] (]. *)
Definition parse_header (h : string) : option (string * string) :=
  r ← strip_prefix "CREATE TABLE [" h;
  '(schema, r) ← split_once "]" r;
  r ← strip_prefix ".[" r;
  '(name, r) ← split_once "]" r;
  if String.eqb r " (" then Some (schema, name) else None.

(** The statement text as [create_target_tables] lays it out: a header line,
    one column definition or [FOREIGN KEY] clause per line, a closing line. *)
Definition parse_create_table (sql : string)
  : option (string * string * list string * list string) :=
  match split (ascii_of_nat 10) sql with
  | h :: rest =>
      '(schema, name) ← parse_header h;
      match reverse rest with
      | close :: body =>
          if String.eqb close ");" then
            let items := map (fun l => drop_trailing_comma (lstrip l)) (reverse body) in
            let is_fk := fun l => String.prefix "FOREIGN KEY" l in
            Some (schema, name, List.filter (fun l => negb (is_fk l)) items,
                  List.filter is_fk items)
          else None
      | [] => None
      end
  | [] => None
  end.

(** [conn.execute(text(ddl_sql))]: the server refuses a statement it cannot
    parse, a table without columns, repeated column names and a name already
    taken. *)
Definition create_table (schema name : string) (defs fks : list string)
  : M unit :=
  let* ts := gets sys_tables in
  if bool_decide (defs = []) then raise "Incorrect syntax near ')'."
  else if negb (bool_decide (NoDup (map def_column defs))) then
    raise "Column names in each table must be unique."
  else if bool_decide (is_Some (find_table schema name ts)) then
    raise ("There is already an object named '" +:+ name +:+ "' in the database.")
  else
    modify (set_tables
      (ts ++ [{| t_schema := schema; t_name := name; t_defs := defs;
                 t_fks := fks; t_rows := [] |}])).

Definition execute_create_table (sql : string) : M unit :=
  match parse_create_table sql with
  | None => raise "Incorrect syntax."
  | Some (schema, name, defs, fks) => create_table schema name defs fks
  end.

(** [IF OBJECT_ID('schema.name', 'U') IS NOT NULL DROP TABLE [schema].[name]] *)
Definition drop_if_exists (schema name : string) : M unit :=
  modify (fun e => set_tables (drop_table schema name (sys_tables e)) e).

(** *** Joins and the statements built on them *)

(** [t.[c] = s.[c]]: never true of a [NULL]. *)
Definition sql_eq (a b : cell) : bool :=
  match a, b with
  | CNull, _ | _, CNull => false
  | _, _ => bool_decide (a = b)
  end.

(** The [ON] clause: equality on every key column. *)
Definition key_match (key_columns : list string) (t s : srow) : bool :=
  forallb (fun c => sql_eq (cell_of t c) (cell_of s c)) key_columns.

(** [[c for c in target_cols if c not in key_columns]] *)
Definition non_key (key_columns target_cols : list string) : list string :=
  List.filter (fun c => negb (bool_decide (c ∈ key_columns))) target_cols.

(** [WHEN MATCHED THEN UPDATE SET t.[c] = s.[c], ...] *)
Definition update_from (cols : list string) (s t : srow) : srow :=
  foldr (fun c acc => <[c := cell_of s c]> acc) t cols.

(** [INSERT ([c], ...) VALUES (s.[c], ...)] *)
Definition insert_from (cols : list string) (s : srow) : srow :=
  list_to_map (map (fun c => (c, cell_of s c)) cols).

(** What [MERGE ... WHEN MATCHED THEN UPDATE ... WHEN NOT MATCHED THEN INSERT]
    makes of the target rows [T] given the source rows [S], whose columns are
    [target_cols].  The join is taken against the target as the statement
    finds it; the server aborts the statement when two source rows match the
    same target row. *)
Definition merge_rows (key_columns target_cols : list string) (T S : list srow)
  : outcome (list srow) :=
  if existsb (fun t => 1 <? Z.of_nat (length (List.filter (key_match key_columns t) S))) T
  then Raise "The MERGE statement attempted to UPDATE or DELETE the same row more than once."
  else
    Ok (map (fun t =>
               match List.find (key_match key_columns t) S with
               | Some s => update_from (non_key key_columns target_cols) s t
               | None => t
               end) T
        ++ map (insert_from target_cols)
               (List.filter (fun s => negb (existsb (fun t => key_match key_columns t s) T)) S)).

(** The [MERGE] statement of [scd1_merge] and [incremental_load] against
    [[schema].[table]], with source rows [S].  An empty [ON] or [SET] list is a
    syntax error. *)
Definition execute_merge (schema table : string)
    (key_columns target_cols : list string) (S : list srow) : M unit :=
  if bool_decide (key_columns = []) || bool_decide (non_key key_columns target_cols = [])
  then raise "Incorrect syntax near the keyword 'WHEN'."
  else
    let* t := the_table schema table in
    if negb (cols_ok t (key_columns ++ target_cols))
       || negb (forallb (fun c => bool_decide (c ∈ target_cols)) key_columns)
    then raise "Invalid column name."
    else
      let* rs := lift (merge_rows key_columns target_cols (t_rows t) S) in
      if negb (forallb (fun r => bool_decide (r ∈ t_rows t) || row_ok t r) rs) then
        raise "Cannot insert the value NULL into a column that does not allow nulls."
      else write_rows schema table t rs.

(** [t.current = 1] *)
Definition is_current (current_col : string) (t : srow) : bool :=
  sql_eq (cell_of t current_col) (CInt 1).

(** One disjunct of [change_checks]: the values differ, or exactly one of
    them is [NULL]. *)
Definition changed_col (t s : srow) (c : string) : bool :=
  match cell_of t c, cell_of s c with
  | CNull, CNull => false
  | CNull, _ | _, CNull => true
  | a, b => negb (bool_decide (a = b))
  end.

Definition changed (cols : list string) (t s : srow) : bool :=
  existsb (changed_col t s) cols.

(** [UPDATE t SET t.current = 0, t.end = GETDATE() FROM ... t JOIN (VALUES
    ...) s ON keys WHERE t.current = 1 AND (change_checks)] *)
Definition close_rows (key_columns cols : list string)
    (end_col current_col : string) (now : datetime) (S T : list srow)
  : list srow :=
  map (fun t =>
         if is_current current_col t
            && existsb (fun s => key_match key_columns t s && changed cols t s) S
         then <[current_col := CInt 0]> (<[end_col := CTime now]> t)
         else t) T.

(** The row [s.*, GETDATE(), NULL, 1] *)
Definition new_version (target_cols : list string)
    (start_col end_col current_col : string) (now : datetime) (s : srow) : srow :=
  <[current_col := CInt 1]>
    (<[end_col := CNull]> (<[start_col := CTime now]> (insert_from target_cols s))).

(** [INSERT INTO ... SELECT s.*, GETDATE(), NULL, 1 FROM (VALUES ...) s LEFT
    JOIN ... t ON keys AND t.current = 1 WHERE t.[key0] IS NULL OR
    (change_checks)]: one joined row per current match of [s], or a single
    all-[NULL] one when [s] has none. *)
Definition open_rows (key_columns target_cols cols : list string)
    (start_col end_col current_col : string) (now : datetime) (S T : list srow)
  : list srow :=
  flat_map (fun s =>
    match List.filter (fun t => key_match key_columns t s && is_current current_col t) T with
    | [] => [new_version target_cols start_col end_col current_col now s]
    | matches =>
        map (fun _ => new_version target_cols start_col end_col current_col now s)
            (List.filter (fun t => changed cols t s) matches)
    end) S.

End Db.

Export Db.

(** ** audit.py *)

Module Audit.

(** [log_job_start]: a new JobAudit row, [Status] Running, [EndTime] null. *)
Definition log_job_start (job_name stage : string) : M unit :=
  transaction (
    let* now := gets clock in
    modify (fun e =>
      set_audit (JobAudit e ++
        [{| a_job := job_name; a_stage := stage; a_start := now;
            a_end := None; a_rows := None; a_status := "Running";
            a_message := None |}]) e)).

(** [log_job_end]: closes the open rows of this job and stage. *)
Definition log_job_end (job_name stage : string) (row_count : option Z)
    (status : string) (message : option string) : M unit :=
  transaction (
    let* now := gets clock in
    modify (fun e =>
      set_audit
        (map (fun a =>
                if String.eqb (a_job a) job_name && String.eqb (a_stage a) stage
                   && bool_decide (a_end a = None)
                then {| a_job := a_job a; a_stage := a_stage a;
                        a_start := a_start a; a_end := Some now;
                        a_rows := row_count; a_status := status;
                        a_message := message |}
                else a)
             (JobAudit e)) e)).

End Audit.

Export Audit.

(** ** validate_input.py *)

Module ValidateInput.

(** The columns of a Metadata row, as validated and inserted. *)
Definition REQUIRED_METADATA_COLS : list string :=
  ["JobName"; "SourceColumnName"; "TargetColumnName"; "TargetDataType";
   "Length"; "IsPK"; "IsFK"; "IsNullable"; "ReferenceTable"].

(** [_table_exists]: case-insensitive lookup in [sys.tables]. *)
Definition _table_exists (schema table : string) : M bool :=
  gets (fun e => bool_decide (is_Some (find_table schema table (sys_tables e)))).

Definition for_job (job_name : string) (r : gmap string pyval) : bool :=
  bool_decide (r !! "JobName" = Some (PStr job_name)).

(** [_fetch_config]: [SELECT * FROM Config WHERE JobName = :job] *)
Definition _fetch_config (job_name : string) : M (list (gmap string pyval)) :=
  gets (fun e => List.filter (for_job job_name) (Config e)).

(** [_fetch_metadata]: [SELECT * FROM Metadata WHERE JobName = :job] *)
Definition _fetch_metadata (job_name : string) : M (list (gmap string pyval)) :=
  gets (fun e => List.filter (for_job job_name) (Metadata e)).

End ValidateInput.

Export ValidateInput.

(** ** load_type.py: the incremental tracker *)

Module Tracker.

(** [_get_incremental_tracker]: [None] when the pair has no row. *)
Definition _get_incremental_tracker (job_name stage : string)
  : M (option datetime) :=
  gets (fun e => IncrementalTracker e !! (job_name, stage)).

(** [_update_incremental_tracker]: upsert by (JobName, Stage). *)
Definition _update_incremental_tracker (job_name : string)
    (new_value : datetime) (stage : string) : M unit :=
  transaction (
    modify (fun e =>
      set_tracker (<[(job_name, stage) := new_value]> (IncrementalTracker e)) e)).

End Tracker.

Export Tracker.

(** ** create_ddl.py *)

Module CreateDdl.

Definition VARLEN_TYPES : list string := ["NVARCHAR"; "VARCHAR"].

Definition ALLOWED_TYPES : list string :=
  VARLEN_TYPES ++
  ["INT"; "BIGINT"; "DECIMAL"; "NUMERIC"; "FLOAT"; "BIT"; "DATETIME"; "DATE"].

Definition mem (s : string) (l : list string) : bool := bool_decide (s ∈ l).

(** [_build_column_def] *)
Definition _build_column_def (meta_row : gmap string pyval) (schema : string)
    (scd_type : Z) : outcome string :=
  obind (item meta_row "TargetColumnName") (fun colv =>
  let col := str colv in
  obind (item meta_row "TargetDataType") (fun dtv =>
  let dtype := upper (str dtv) in
  obind (int (py_or (get meta_row "Length") (PInt 0))) (fun length =>
  if String.eqb (lower schema) "raw" then
    Ok ("[" +:+ col +:+ "] NVARCHAR(MAX) NULL")
  else if negb (mem dtype ALLOWED_TYPES) then
    Raise ("Unsupported data type: " +:+ dtype)
  else
    obind (if mem dtype VARLEN_TYPES then
             if length <=? 0 then
               Raise (dtype +:+ " requires positive Length for column '" +:+ col +:+ "'")
             else Ok ("[" +:+ col +:+ "] " +:+ dtype +:+ "(" +:+ pretty length +:+ ")")
           else Ok ("[" +:+ col +:+ "] " +:+ dtype)) (fun base =>
    obind (if mem dtype ["DECIMAL"; "NUMERIC"] then
             obind (int (py_or (get meta_row "Precision") (PInt 18))) (fun precision =>
             obind (int (py_or (get meta_row "Scale") (PInt 0))) (fun scale =>
             Ok ("[" +:+ col +:+ "] " +:+ dtype +:+ "(" +:+ pretty precision
                 +:+ "," +:+ pretty scale +:+ ")")))
           else Ok base) (fun base =>
    let pk_def := base +:+ " PRIMARY KEY NOT NULL" in
    let nullable_def :=
      obind (int (py_or (get meta_row "IsNullable") (PInt 1))) (fun n =>
      Ok (base +:+ " " +:+ (if n =? 1 then "NULL" else "NOT NULL"))) in
    obind (if String.eqb (lower schema) "curated" then
             obind (int (py_or (get meta_row "IsPK") (PInt 0))) (fun pk =>
             Ok (pk =? 1))
           else Ok false) (fun curated_pk =>
    if curated_pk then Ok pk_def
    else if String.eqb (lower schema) "processed" then nullable_def
    else
      obind (int (py_or (get meta_row "IsPK") (PInt 0))) (fun pk =>
      if pk =? 1 then Ok pk_def else nullable_def))))))).

(** The referenced schema and table of a [ReferenceTable] entry: parsed as
    [schema.table] when it has a dot, else schema [dbo]. *)
Definition fk_reference (ref : string) : string * string :=
  match split_once "." ref with
  | Some (ref_schema, ref_table) => (ref_schema, ref_table)
  | None => ("dbo", ref)
  end.

Definition fk_clause (col ref_schema ref_table : string) : string :=
  "FOREIGN KEY ([" +:+ col +:+ "]) REFERENCES [" +:+ ref_schema +:+ "].["
  +:+ ref_table +:+ "]([" +:+ col +:+ "])".

(** The loop of [_foreign_key_clauses]; [seen_fks] and [fk_clauses] are
    threaded through. *)
Fixpoint fk_loop (metadata_rows : list (gmap string pyval))
    (seen_fks : list (pyval * string * string)) (fk_clauses : list string)
  : M (list string) :=
  match metadata_rows with
  | [] => ret fk_clauses
  | r :: rest =>
      let* isfk := lift (int (py_or (get r "IsFK") (PInt 0))) in
      if (isfk =? 1) && truthy (get r "ReferenceTable") then
        let* col := lift (item r "TargetColumnName") in
        match get r "ReferenceTable" with
        | PStr ref =>
            let '(ref_schema, ref_table) := fk_reference ref in
            let key := (col, ref_schema, ref_table) in
            if bool_decide (key ∈ seen_fks) then fk_loop rest seen_fks fk_clauses
            else
              let* ex := _table_exists ref_schema ref_table in
              if negb ex then fk_loop rest (key :: seen_fks) fk_clauses
              else fk_loop rest (key :: seen_fks)
                     (fk_clauses ++ [fk_clause (str col) ref_schema ref_table])
        | _ => raise "argument of type 'int' is not iterable"
        end
      else fk_loop rest seen_fks fk_clauses
  end.

(** [_foreign_key_clauses] *)
Definition _foreign_key_clauses (metadata_rows : list (gmap string pyval))
  : M (list string) :=
  fk_loop metadata_rows [] [].

(** [_derive_table_name] *)
Definition _derive_table_name (job_name target_schema : string) : string :=
  let parts := split "_" job_name in
  let middle := match parts with
                | _ :: p :: _ => lower p
                | _ => lower job_name
                end in
  target_schema +:+ "_" +:+ middle.

(** [_validate_primary_keys]: the set of flagged column names is printed here
    in order of first occurrence. *)
Definition _validate_primary_keys (cols : list (gmap string pyval))
    (schema table job_name : string) : outcome unit :=
  if String.eqb (lower schema) "raw" then Ok tt
  else
    obind
      (foldr (fun c acc =>
                obind acc (fun names =>
                obind (int (py_or (get c "IsPK") (PInt 0))) (fun pk =>
                if pk =? 1 then
                  obind (item c "TargetColumnName") (fun n => Ok (n :: names))
                else Ok names)))
             (Ok []) cols)
      (fun flagged =>
       let pk_cols := remove_dups flagged in
       if (1 <? Z.of_nat (length pk_cols)) then
         Raise ("Job '" +:+ job_name +:+ "' for table " +:+ schema +:+ "." +:+ table
                +:+ " has multiple PK columns: {"
                +:+ join ", " (map (fun n => "'" +:+ str n +:+ "'") pk_cols)
                +:+ "}. Only one PRIMARY KEY is allowed.")
       else Ok tt).

(** The text of the statement: one definition or clause per line, the last
    one without its comma. *)
Definition ddl_sql (schema table_name : string) (col_defs fk_clauses : list string)
  : string :=
  let body := map (fun c => "    " +:+ c +:+ ",") (col_defs ++ fk_clauses)%list in
  let body :=
    match reverse body with
    | [] => []
    | last :: before =>
        (reverse before ++ [String.substring 0 (String.length last - 1) last])%list
    end in
  join (String (ascii_of_nat 10) "")
       (("CREATE TABLE [" +:+ schema +:+ "].[" +:+ table_name +:+ "] (") :: body ++ [");"])%list.

(** Result of [create_target_tables]: [{"status": ..., "errors": [...]}]. *)
Record ddl_result := { ddl_status : string; ddl_errors : list string }.

Definition JOIN_COLUMNS_CONFIG : list string :=
  ["TargetSchema"; "TargetTable"; "LoadType"; "SCDType"].
Definition JOIN_COLUMNS_METADATA : list string :=
  ["TargetColumnName"; "TargetDataType"; "Length"; "IsPK"; "IsFK";
   "IsNullable"; "ReferenceTable"].

(** A row of the [SELECT ... FROM Metadata m JOIN Config c] query: every
    selected column is a key of the mapping, [NULL] reads as [None]. *)
Definition join_row (c m : gmap string pyval) : gmap string pyval :=
  list_to_map
    (map (fun k => (k, get c k)) JOIN_COLUMNS_CONFIG ++
     map (fun k => (k, get m k)) JOIN_COLUMNS_METADATA)%list.

Definition joined_rows (job_name : string) (e : engine)
  : list (gmap string pyval) :=
  flat_map
    (fun m => map (fun c => join_row c m)
                  (List.filter (for_job job_name) (Config e)))
    (List.filter (for_job job_name) (Metadata e)).

(** [tables[(schema, table)].append(row)]: groups in order of first
    appearance. *)
Fixpoint add_to_group (k : pyval * pyval) (row : gmap string pyval)
    (groups : list (pyval * pyval * list (gmap string pyval)))
  : list (pyval * pyval * list (gmap string pyval)) :=
  match groups with
  | [] => [(k, [row])]
  | (k', rs) :: g =>
      if bool_decide (k' = k) then (k', rs ++ [row]) :: g
      else (k', rs) :: add_to_group k row g
  end.

Definition group_tables (rows : list (gmap string pyval))
  : list (pyval * pyval * list (gmap string pyval)) :=
  fold_left (fun g row => add_to_group (get row "TargetSchema", get row "TargetTable") row g)
            rows [].

(** The loop over the columns of one table: [col_defs], [seen_cols] and
    [ddl_errors] are threaded through.  A column whose definition cannot be
    built leaves its message in [ddl_errors] and the loop goes on. *)
Fixpoint column_loop (schema table : string) (scd_type : Z)
    (cols : list (gmap string pyval))
    (col_defs : list string) (seen_cols : list (pyval * pyval * pyval))
    (errs : list string) : list string * list string :=
  match cols with
  | [] => (col_defs, errs)
  | col :: rest =>
      let key := (get col "TargetColumnName", get col "TargetDataType", get col "Length") in
      if bool_decide (key ∈ seen_cols) then
        column_loop schema table scd_type rest col_defs seen_cols
          (errs ++ ["Duplicate column '" +:+ str (get col "TargetColumnName")
                    +:+ "' in " +:+ schema +:+ "." +:+ table])
      else
        match _build_column_def col schema scd_type with
        | Ok d =>
            column_loop schema table scd_type rest (col_defs ++ [d]) (key :: seen_cols) errs
        | Raise msg =>
            column_loop schema table scd_type rest col_defs (key :: seen_cols) (errs ++ [msg])
        end
  end.

Definition SCD2_ROWID : string := "[RowID] INT IDENTITY(1,1) PRIMARY KEY".
Definition SCD2_HISTORY : list string :=
  ["[StartTime] DATETIME NOT NULL DEFAULT (GETDATE())";
   "[EndTime] DATETIME NULL";
   "[IsCurrent] BIT NOT NULL DEFAULT (1)"].

(** One turn of the loop over [tables.items()]. *)
Definition table_step (job_name : string) (rows0 : gmap string pyval)
    (schema table : pyval) (cols : list (gmap string pyval))
    (errs : list string) : M (list string) :=
  let* scd_type := lift (int (get_or rows0 "SCDType" (PInt 1))) in
  let* schema :=
    match schema with
    | PStr s => ret s
    | _ => raise "object has no attribute 'lower'"
    end in
  let* table_name :=
    if mem (lower schema) ["raw"; "curated"; "processed"] then
      match split "_" job_name with
      | _ :: p :: _ => ret (lower schema +:+ "_" +:+ lower p)
      | _ => raise "list index out of range"
      end
    else ret (str table) in
  let* ex := _table_exists schema table_name in
  if ex then ret errs
  else
    match _validate_primary_keys cols schema (str table) job_name with
    | Raise msg => ret (errs ++ [msg])
    | Ok _ =>
        let '(col_defs, errs) :=
          column_loop schema (str table) scd_type cols [] [] errs in
        let col_defs :=
          if String.eqb (lower schema) "processed" && (scd_type =? 2)
          then (SCD2_ROWID :: col_defs ++ SCD2_HISTORY)%list
          else col_defs in
        let* fk_clauses := _foreign_key_clauses cols in
        try_except
          (transaction (execute_create_table (ddl_sql schema table_name col_defs fk_clauses)) ;;;
           ret errs)
          (fun msg => ret (errs ++ [msg]))
    end.

Fixpoint tables_loop (job_name : string) (rows0 : gmap string pyval)
    (groups : list (pyval * pyval * list (gmap string pyval)))
    (errs : list string) : M (list string) :=
  match groups with
  | [] => ret errs
  | (schema, table, cols) :: g =>
      let* errs := table_step job_name rows0 schema table cols errs in
      tables_loop job_name rows0 g errs
  end.

(** [create_target_tables].  [send_log] posts to a remote sink, swallows its
    own failures and leaves the engine alone; it has no counterpart here. *)
Definition create_target_tables (job_name : string) : M ddl_result :=
  try_except
    (log_job_start job_name "ddl" ;;;
     let* rows := gets (joined_rows job_name) in
     match rows with
     | [] =>
         let msg := "No metadata/config found for job '" +:+ job_name +:+ "'" in
         log_job_end job_name "ddl" (Some 0) "failed" (Some msg) ;;;
         ret {| ddl_status := "error"; ddl_errors := [msg] |}
     | rows0 :: _ =>
         let* errs := tables_loop job_name rows0 (group_tables rows) [] in
         match errs with
         | _ :: _ =>
             log_job_end job_name "ddl" (Some 0) "failed" (Some (join "; " errs)) ;;;
             ret {| ddl_status := "error"; ddl_errors := errs |}
         | [] =>
             log_job_end job_name "ddl" None "success" (Some "DDL completed") ;;;
             ret {| ddl_status := "success"; ddl_errors := [] |}
         end
     end)
    (fun exc =>
       log_job_end job_name "ddl" (Some 0) "failed" (Some exc) ;;;
       ret {| ddl_status := "error"; ddl_errors := [exc] |}).

End CreateDdl.

Export CreateDdl.

(** ** scd_type.py *)

Module ScdType.

(** The rows of the [VALUES] clause, one per frame row, with the columns
    [target_cols]; [row[col]] raises [KeyError] on a missing label. *)
Definition values_clause (df : DataFrame) (target_cols : list string)
  : outcome (list srow) :=
  obind (check_subset (labels df) target_cols) (fun _ =>
  Ok (map (fun r => list_to_map (map (fun c => (c, at_col (labels df) r c)) target_cols))
          (rows df))).

(** [scd1_merge].  The [VALUES] clause is built from the frame as it comes
    in; the frame is deduplicated on the key afterwards and not used again. *)
Definition scd1_merge (schema table : string) (df : DataFrame)
    (key_columns target_cols : list string) : M unit :=
  let* values := lift (values_clause df target_cols) in
  let* df := lift (drop_duplicates_last key_columns df) in
  transaction (
    if bool_decide (values = []) then raise "Incorrect syntax near ')'."
    else execute_merge schema table key_columns target_cols values).

(** [scd2_merge]: close the changed current rows, then insert the new
    versions, in one transaction. *)
Definition scd2_merge (schema table : string) (df : DataFrame)
    (key_columns target_cols : list string)
    (start_col end_col current_col : string) : M unit :=
  let* values := lift (values_clause df target_cols) in
  let cols := non_key key_columns target_cols in
  match key_columns with
  | [] => raise "list index out of range"
  | _ :: _ =>
      transaction (
        if bool_decide (values = []) || bool_decide (cols = [])
        then raise "Incorrect syntax near ')'."
        else
          let* now := gets clock in
          let* t := the_table schema table in
          if negb (cols_ok t (target_cols ++ [start_col; end_col; current_col]))
             || negb (forallb (fun c => bool_decide (c ∈ target_cols)) key_columns)
          then raise "Invalid column name."
          else
            let closed := close_rows key_columns cols end_col current_col now values (t_rows t) in
            let opened := open_rows key_columns target_cols cols start_col end_col
                                    current_col now values closed in
            if negb (forallb (row_ok t) opened) then
              raise "Cannot insert the value NULL into a column that does not allow nulls."
            else write_rows schema table t (closed ++ opened))
  end.

End ScdType.

Export ScdType.

(** ** load_type.py *)

Module LoadType.

(** A stage result: [{"status": ..., "rows": ..., "message": ...}]; [rows] is
    [None] when the key is absent. *)
Record load_result := {
  status : string;
  rows_written : option Z;
  message : string
}.

(** [full_load]: the truncate commits on its own; the append follows. *)
Definition full_load (df : DataFrame) (schema table : string) : M load_result :=
  try_except
    (transaction (truncate schema table) ;;;
     (if negb (empty df) then to_sql df table schema else ret tt) ;;;
     ret {| status := "success"; rows_written := Some (len df);
            message := "Full load completed: " +:+ pretty (len df) +:+ " rows" |})
    (fun exc => ret {| status := "error"; rows_written := None; message := exc |}).

(** [[m["TargetColumnName"] for m in metadata if ... in df.columns]] *)
Fixpoint columns_in (metadata : list (gmap string pyval)) (df : DataFrame)
  : outcome (list string) :=
  match metadata with
  | [] => Ok []
  | m :: rest =>
      obind (item m "TargetColumnName") (fun c =>
      obind (columns_in rest df) (fun cs =>
      Ok (if bool_decide (str c ∈ labels df) then str c :: cs else cs)))
  end.

(** The [try] block of [incremental_load]: staging table, bulk insert,
    [MERGE], tracker; each in a transaction of its own. *)
Definition incremental_load_body (job_name schema table : string)
    (metadata : list (gmap string pyval)) (df : DataFrame)
    (stage : string) (key_columns : list string) : M load_result :=
  let* target_cols := lift (columns_in metadata df) in
  let* df := lift (select target_cols df) in
  if empty df then
    ret {| status := "success"; rows_written := Some 0;
           message := "No rows to process." |}
  else
    let staging_table := table +:+ "_staging" in
    transaction (
      drop_if_exists schema staging_table ;;;
      create_table schema staging_table
        (map (fun c => "[" +:+ c +:+ "] NVARCHAR(MAX)") target_cols) []) ;;;
    (if negb (empty df) then to_sql df staging_table schema else ret tt) ;;;
    transaction (
      let* s := the_table schema staging_table in
      execute_merge schema table key_columns target_cols (t_rows s)) ;;;
    (let* now := gets clock in
     _update_incremental_tracker job_name now stage) ;;;
    ret {| status := "success"; rows_written := Some (len df);
           message := "Incremental MERGE completed: " +:+ pretty (len df)
                      +:+ " rows processed" |}.

(** [incremental_load] *)
Definition incremental_load (job_name schema table : string)
    (metadata : list (gmap string pyval)) (df : DataFrame)
    (stage : string) (key_columns : list string) : M load_result :=
  try_except
    (incremental_load_body job_name schema table metadata df stage key_columns)
    (fun exc => ret {| status := "error"; rows_written := None; message := exc |}).

End LoadType.

Export LoadType.

(** ** raw_curated.py *)

Module RawCurated.

(** [[m[key] for m in metadata if flag(m)]]; a label is the text of the
    metadata value. *)
Fixpoint column_list (key : string) (flag : gmap string pyval -> bool)
    (metadata : list (gmap string pyval)) : outcome (list string) :=
  match metadata with
  | [] => Ok []
  | m :: rest =>
      if flag m then
        obind (item m key) (fun c =>
        obind (column_list key flag rest) (fun cs => Ok (str c :: cs)))
      else column_list key flag rest
  end.

Definition names_where := column_list "TargetColumnName".

Definition is_pk (m : gmap string pyval) : bool := py_eq (get m "IsPK") (PInt 1).
Definition is_not_null (m : gmap string pyval) : bool :=
  py_eq (get m "IsNullable") (PInt 0).
Definition is_fk_rule (m : gmap string pyval) : bool :=
  py_eq (get m "IsFK") (PInt 1) &&
  negb (existsb (py_eq (get m "ReferenceTable")) [PNone; PStr "NULL"; PStr ""]).

(** The primary-key block of [enforce_pk_fk]. *)
Definition enforce_pk (pk_cols : list string) (df : DataFrame) : outcome DataFrame :=
  match pk_cols with
  | [] => Ok df
  | _ :: _ =>
      obind (dropna pk_cols df) (fun df =>
      drop_duplicates_last pk_cols df)
  end.

(** The NOT NULL loop. *)
Fixpoint enforce_not_null (not_null_cols : list string) (df : DataFrame)
  : outcome DataFrame :=
  match not_null_cols with
  | [] => Ok df
  | col :: rest =>
      if bool_decide (col ∈ labels df) then
        obind (dropna [col] df) (fun df => enforce_not_null rest df)
      else enforce_not_null rest df
  end.

(** The referenced schema and table of a foreign-key rule: the schema is the
    rule's [ReferenceSchema], [curated] when the mapping has no such key. *)
Definition fk_lookup (rule : gmap string pyval) : string * string :=
  (str (get_or rule "ReferenceSchema" (PStr "curated")),
   str (get rule "ReferenceTable")).

(** The foreign-key loop: a rule whose lookup or filter raises is skipped. *)
Fixpoint enforce_fk (fk_rules : list (gmap string pyval)) (df : DataFrame)
  : M DataFrame :=
  match fk_rules with
  | [] => ret df
  | rule :: rest =>
      let* colv := lift (item rule "TargetColumnName") in
      let col := str colv in
      let '(ref_schema, ref_table) := fk_lookup rule in
      let* df :=
        try_except
          (let* ref := select_distinct col ref_schema ref_table in
           let valid_values := List.filter (fun v => negb (is_null v)) ref in
           lift (filter_isin col valid_values df))
          (fun _ => ret df) in
      enforce_fk rest df
  end.

(** [enforce_pk_fk]; the audit entries it prints are left out. *)
Definition enforce_pk_fk (df : DataFrame) (metadata : list (gmap string pyval))
  : M DataFrame :=
  let* pk_cols := lift (names_where is_pk metadata) in
  let* df := lift (enforce_pk pk_cols df) in
  let* not_null_cols := lift (names_where is_not_null metadata) in
  let* df := lift (enforce_not_null not_null_cols df) in
  enforce_fk (List.filter is_fk_rule metadata) df.

(** [enforce_no_negative] *)
Definition enforce_no_negative (df : DataFrame) : DataFrame :=
  match numeric_cols df with
  | [] => df
  | cols =>
      with_rows df
        (List.filter
           (fun r => negb (existsb (fun c => negative (at_col (labels df) r c)) cols))
           (rows df))
  end.

(** The constraint rules as [load_raw_to_curated] runs them on the frame it
    has cast: [enforce_no_negative], then [enforce_pk_fk]. *)
Definition enforce_constraints (df : DataFrame)
    (metadata : list (gmap string pyval)) : M DataFrame :=
  let df := enforce_no_negative df in
  enforce_pk_fk df metadata.

(** [{m["SourceColumnName"]: m["TargetColumnName"] for m in metadata}]: a
    later row wins. *)
Fixpoint rename_map (metadata : list (gmap string pyval))
    (acc : gmap string string) : outcome (gmap string string) :=
  match metadata with
  | [] => Ok acc
  | m :: rest =>
      obind (item m "SourceColumnName") (fun s =>
      obind (item m "TargetColumnName") (fun t =>
      rename_map rest (<[str s := str t]> acc)))
  end.

Section LoadRawToCurated.

(** [cast_dataframe_types(clean_dataframe(df), metadata)]: string cleaning and
    the numeric and date parsers of pandas are taken as given. *)
Variable clean_cast : DataFrame -> list (gmap string pyval) -> outcome DataFrame.

Definition raw_to_curated_body (job_name : string) : M load_result :=
  let* config_rows := _fetch_config job_name in
  match config_rows with
  | [] => ret {| status := "error"; rows_written := None;
                 message := "No Config for " +:+ job_name |}
  | config :: _ =>
      let* metadata := _fetch_metadata job_name in
      match metadata with
      | [] => ret {| status := "error"; rows_written := None;
                     message := "No Metadata for " +:+ job_name |}
      | _ :: _ =>
          let* source_schema := lift (item config "SourceSchema") in
          let* source_table := lift (item config "SourceTable") in
          let* target_schema := lift (item config "TargetSchema") in
          let* target_table := lift (item config "TargetTable") in
          let* lt := lift (item config "LoadType") in
          let load_type := lower (str lt) in
          let target_schema := str target_schema in
          let target_table := str target_table in
          let* ex := _table_exists target_schema target_table in
          (if negb ex then (create_target_tables job_name ;;; ret tt) else ret tt) ;;;
          let* df := read_sql (str source_schema) (str source_table) in
          let* rn := lift (rename_map metadata ∅) in
          let df := rename rn df in
          let* target_cols := lift (names_where (fun _ => true) metadata) in
          let* df := lift (reindex target_cols df) in
          let* df := lift (clean_cast df metadata) in
          let* df := enforce_constraints df metadata in
          if empty df then
            let msg := "No rows to load into curated table." in
            log_job_end job_name "raw_to_curated" (Some 0) "success" (Some msg) ;;;
            ret {| status := "success"; rows_written := Some 0; message := msg |}
          else
            let finish (result : load_result) : M load_result :=
              log_job_end job_name "raw_to_curated"
                (Some (default 0 (rows_written result))) (status result)
                (Some (message result)) ;;;
              ret result in
            if String.eqb load_type "full" then
              let* df := lift (select target_cols df) in
              let* result := full_load df target_schema target_table in
              finish result
            else if String.eqb load_type "incremental" then
              let* key_cols := lift (names_where is_pk metadata) in
              let* df := lift (select target_cols df) in
              let* result :=
                incremental_load job_name target_schema target_table metadata df
                                 "raw_curated" key_cols in
              (let* now := gets clock in
               _update_incremental_tracker job_name now "raw_curated") ;;;
              finish result
            else
              ret {| status := "error"; rows_written := None;
                     message := "Unsupported LoadType: " +:+ load_type |}
      end
  end.

(** [load_raw_to_curated] *)
Definition load_raw_to_curated (job_name : string) : M load_result :=
  log_job_start job_name "raw_to_curated" ;;;
  try_except (raw_to_curated_body job_name)
    (fun exc =>
       log_job_end job_name "raw_to_curated" (Some 0) "failed" (Some exc) ;;;
       ret {| status := "error"; rows_written := None; message := exc |}).

End LoadRawToCurated.

End RawCurated.

Export RawCurated.

(** ** curated_processed.py *)

Module CuratedProcessed.

Definition success (n : Z) (msg : string) : load_result :=
  {| status := "success"; rows_written := Some n; message := msg |}.

(** The [incremental] branch: the merge is chosen by [scd_type]; the tracker
    is written whichever merge ran. *)
Definition incremental_branch (job_name target_schema target_table : string)
    (metadata : list (gmap string pyval)) (df : DataFrame)
    (target_cols : list string) (scd_type : Z) : M load_result :=
  let* key_cols := lift (names_where is_pk metadata) in
  let* result :=
    if scd_type =? 1 then
      scd1_merge target_schema target_table df key_cols target_cols ;;;
      ret (success (len df) "Incremental SCD1 merge completed")
    else if scd_type =? 2 then
      scd2_merge target_schema target_table df key_cols target_cols
                 "StartTime" "EndTime" "IsCurrent" ;;;
      ret (success (len df) "Incremental SCD2 merge completed")
    else
      incremental_load job_name target_schema target_table metadata df
                       "curated_processed" key_cols in
  (let* now := gets clock in
   _update_incremental_tracker job_name now "curated_processed") ;;;
  ret result.

Definition curated_to_processed_body (job_name : string) : M load_result :=
  let* config_rows := _fetch_config job_name in
  match config_rows with
  | [] => ret {| status := "error"; rows_written := None;
                 message := "No Config for " +:+ job_name |}
  | config :: _ =>
      let* metadata := _fetch_metadata job_name in
      match metadata with
      | [] => ret {| status := "error"; rows_written := None;
                     message := "No Metadata for " +:+ job_name |}
      | _ :: _ =>
          let* source_schema := lift (item config "SourceSchema") in
          let* source_table := lift (item config "SourceTable") in
          let* tsv := lift (item config "TargetSchema") in
          let target_schema := strip (str tsv) in
          let* ttv := lift (item config "TargetTable") in
          let target_table := strip (str ttv) in
          let* lt := lift (item config "LoadType") in
          let load_type := lower (str lt) in
          let* scd_type := lift (int (get_or config "SCDType" (PInt 1))) in
          let* ex := _table_exists target_schema target_table in
          (if negb ex then (create_target_tables job_name ;;; ret tt) else ret tt) ;;;
          let* df := read_sql (str source_schema) (str source_table) in
          let* rn := lift (rename_map metadata ∅) in
          let df := rename rn df in
          let* target_cols := lift (names_where (fun _ => true) metadata) in
          let* df := lift (reindex target_cols df) in
          if empty df then
            let msg := "No rows to load into processed table." in
            log_job_end job_name "curated_to_processed" (Some 0) "success" (Some msg) ;;;
            ret (success 0 msg)
          else
            let finish (result : load_result) : M load_result :=
              log_job_end job_name "curated_to_processed"
                (Some (default 0 (rows_written result))) (status result)
                (Some (message result)) ;;;
              ret result in
            if String.eqb load_type "full" then
              let* result := full_load df target_schema target_table in
              finish result
            else if String.eqb load_type "incremental" then
              let* result :=
                incremental_branch job_name target_schema target_table metadata df
                                   target_cols scd_type in
              finish result
            else
              ret {| status := "error"; rows_written := None;
                     message := "Unsupported LoadType: " +:+ load_type |}
      end
  end.

(** [load_curated_to_processed] *)
Definition load_curated_to_processed (job_name : string) : M load_result :=
  log_job_start job_name "curated_to_processed" ;;;
  try_except (curated_to_processed_body job_name)
    (fun exc =>
       log_job_end job_name "curated_to_processed" (Some 0) "failed" (Some exc) ;;;
       ret {| status := "error"; rows_written := Some 0; message := exc |}).

End CuratedProcessed.

Export CuratedProcessed.

(** ** source_raw.py *)

Module SourceRaw.

(** [os.path.basename] *)
Fixpoint after_last_slash (s : string) : option string :=
  match s with
  | EmptyString => None
  | String c r =>
      match after_last_slash r with
      | Some b => Some b
      | None => if Ascii.eqb c "/" then Some r else None
      end
  end.

Definition basename (path : string) : string :=
  default path (after_last_slash path).

Definition two_digits (a b : ascii) : Z := 10 * digit_val a + digit_val b.

(** [DATE_PATTERN.match]: four digits, [_], two digits, [_], two digits at
    the head of the text.  File names are ASCII text here, and a digit is one
    of [0] to [9]. *)
Definition date_here (s : string) : option (Z * Z * Z) :=
  match s with
  | String y1 (String y2 (String y3 (String y4 (String u1
      (String m1 (String m2 (String u2 (String d1 (String d2 _))))))))) =>
      if forallb is_digit [y1; y2; y3; y4; m1; m2; d1; d2]
         && Ascii.eqb u1 "_" && Ascii.eqb u2 "_"
      then Some (100 * two_digits y1 y2 + two_digits y3 y4,
                 two_digits m1 m2, two_digits d1 d2)
      else None
  | _ => None
  end.

(** [DATE_PATTERN.search]: the leftmost match, as integers. *)
Fixpoint DATE_PATTERN_search (s : string) : option (Z * Z * Z) :=
  match date_here s with
  | Some g => Some g
  | None =>
      match s with
      | EmptyString => None
      | String _ r => DATE_PATTERN_search r
      end
  end.

(** The loop that fills [new_files]. *)
Fixpoint new_files_loop (files : list string) (last_load_time : datetime)
    (new_files : list (string * datetime)) : outcome (list (string * datetime)) :=
  match files with
  | [] => Ok new_files
  | f :: rest =>
      match DATE_PATTERN_search (basename f) with
      | Some (year, month, day) =>
          obind (mk_datetime year month day) (fun file_date =>
          if dt_ltb last_load_time file_date
          then new_files_loop rest last_load_time (new_files ++ [(f, file_date)])
          else new_files_loop rest last_load_time new_files)
      | None => new_files_loop rest last_load_time new_files
      end
  end.

(** [new_files.sort(key=lambda x: x[1])]: stable. *)
Fixpoint insert_by_date (x : string * datetime) (l : list (string * datetime))
  : list (string * datetime) :=
  match l with
  | [] => [x]
  | y :: r => if dt_ltb y.2 x.2 then y :: insert_by_date x r else x :: l
  end.

Definition sort_by_date (l : list (string * datetime)) : list (string * datetime) :=
  foldr insert_by_date [] l.

Definition max_date (d0 : datetime) (l : list (string * datetime)) : datetime :=
  fold_left (fun m x => if dt_ltb m x.2 then x.2 else m) l d0.

(** [str(x)] of a cell, as [df.astype(str)] writes it. *)
Definition cell_str (v : cell) : cell :=
  match v with
  | CNull => CStr "nan"
  | CInt z => CStr (pretty z)
  | CStr s => CStr s
  | CTime t => CStr (pretty (dt_year t) +:+ "-" +:+ pretty (dt_month t) +:+ "-"
                     +:+ pretty (dt_day t))
  end.

(** [_insert_raw]: one [executemany], committed or rolled back. *)
Definition _insert_raw (df : DataFrame) (schema table : string) : M unit :=
  if empty df then raise "No data to insert into raw table."
  else
    try_except
      (transaction (
         let* t := the_table schema table in
         let new := map (fun r => to_srow (labels df) (map cell_str r)) (rows df) in
         if negb (cols_ok t (labels df)) then raise "Invalid column name."
         else if negb (forallb (row_ok t) new) then
           raise "Cannot insert the value NULL into a column that does not allow nulls."
         else write_rows schema table t (t_rows t ++ new)))
      (fun e => raise ("Insert failed: " +:+ e)).

Section LoadSourceToRaw.

(** The file system and the CSV and JSON readers: [os.path.isdir],
    [glob.glob] on a directory and a pattern, and [_read_source_files]. *)
Variable isdir : string -> bool.
Variable glob : string -> string -> list string.
Variable _read_source_files : list string -> string -> outcome DataFrame.

Definition process_files (metadata : list (gmap string pyval))
    (source_type : string) (file_list : list string) : outcome DataFrame :=
  obind (_read_source_files file_list source_type) (fun df =>
  obind (column_list "SourceColumnName" (fun _ => true) metadata) (fun source_cols =>
  match List.filter (fun c => negb (bool_decide (c ∈ labels df))) source_cols with
  | _ :: _ as missing =>
      Raise ("Missing columns in source file: {" +:+ join ", " missing +:+ "}")
  | [] =>
      obind (select source_cols df) (fun df =>
      obind (rename_map metadata ∅) (fun rn =>
      let df := rename rn df in
      obind (names_where (fun _ => true) metadata) (fun target_cols =>
      select target_cols df)))
  end)).

(** The [incremental] branch of [load_source_to_raw]. *)
Definition incremental_branch (job_name target_schema target_table : string)
    (metadata : list (gmap string pyval)) (source_type : string)
    (files : list string) : M load_result :=
  let* tracked := _get_incremental_tracker job_name "source_raw" in
  let last_load_time := default (Datetime 1900 1 1 0) tracked in
  let* new_files := lift (new_files_loop files last_load_time []) in
  match new_files with
  | [] => ret {| status := "success"; rows_written := Some 0;
                 message := "No new files to process" |}
  | first :: _ =>
      let new_files := sort_by_date new_files in
      let file_paths := new_files.*1 in
      let* df := lift (process_files metadata source_type file_paths) in
      _insert_raw df target_schema target_table ;;;
      _update_incremental_tracker job_name (max_date first.2 new_files) "source_raw" ;;;
      ret {| status := "success"; rows_written := Some (len df);
             message := "Incremental load completed: " +:+ pretty (len df) +:+ " rows" |}
  end.

Definition source_to_raw_body (job_name : string) (config : gmap string pyval)
    (metadata : list (gmap string pyval)) : M load_result :=
  let* target_schema := lift (item config "TargetSchema") in
  let* target_table := lift (item config "TargetTable") in
  let* lt := lift (item config "LoadType") in
  let load_type := lower (str lt) in
  let* sp := lift (item config "SourcePath") in
  let source_path := str sp in
  let* st := lift (item config "SourceType") in
  let source_type := lower (str st) in
  let files :=
    if isdir source_path then
      glob source_path (if String.eqb source_type "csv" then "*.csv" else "*.json")
    else [source_path] in
  match files with
  | [] => raise ("No " +:+ upper source_type +:+ " files found in " +:+ source_path)
  | _ :: _ =>
      let* result :=
        if String.eqb load_type "full" then
          transaction (truncate (str target_schema) (str target_table)) ;;;
          let* df := lift (process_files metadata source_type files) in
          _insert_raw df (str target_schema) (str target_table) ;;;
          ret {| status := "success"; rows_written := Some (len df);
                 message := "Full load completed: " +:+ pretty (len df) +:+ " rows" |}
        else if String.eqb load_type "incremental" then
          incremental_branch job_name (str target_schema) (str target_table)
                             metadata source_type files
        else
          ret {| status := "error"; rows_written := None;
                 message := "Unsupported LoadType: " +:+ load_type |} in
      log_job_end job_name "source_to_raw" (Some (default 0 (rows_written result)))
                  (status result) (Some (message result)) ;;;
      ret result
  end.

(** [load_source_to_raw] *)
Definition load_source_to_raw (job_name : string) : M load_result :=
  log_job_start job_name "source_to_raw" ;;;
  try_except
    (let* config_rows := _fetch_config job_name in
     match config_rows with
     | [] =>
         let msg := "No Config found for job '" +:+ job_name +:+ "'" in
         log_job_end job_name "source_to_raw" (Some 0) "failed" (Some msg) ;;;
         ret {| status := "error"; rows_written := None; message := msg |}
     | config :: _ =>
         let* metadata := _fetch_metadata job_name in
         match metadata with
         | [] =>
             let msg := "No Metadata found for job '" +:+ job_name +:+ "'" in
             log_job_end job_name "source_to_raw" (Some 0) "failed" (Some msg) ;;;
             ret {| status := "error"; rows_written := None; message := msg |}
         | _ :: _ => source_to_raw_body job_name config metadata
         end
     end)
    (fun exc =>
       log_job_end job_name "source_to_raw" (Some 0) "failed" (Some exc) ;;;
       ret {| status := "error"; rows_written := None; message := exc |}).

End LoadSourceToRaw.

End SourceRaw.

Export SourceRaw.

(** ** orchestration.py *)

Module Orchestration.

(** [{"step": ..., "message": ..., "status": ...}] *)
Record event := {
  step : string;
  ev_message : string;
  ev_status : string
}.

(** A run of the generator [run_job]: the events it yields, each with the
    database as it stands while the generator is suspended on that [yield],
    and the database when the generator has returned.  A caller only
    iterates - it sends nothing in - so all it decides is where to stop. *)
Definition run : Type := list (event * engine) * engine.

(** [return] *)
Definition finished : engine -> run := fun e => ([], e).

(** [yield ev], then the rest. *)
Definition yield_ (ev : event) (rest : engine -> run) : engine -> run :=
  fun e => let '(evs, e') := rest e in ((ev, e) :: evs, e').

(** A call against the engine, then the rest.  The audit calls of the
    model always return, so what follows them does not look at the result. *)
Definition call {A} (m : M A) (rest : outcome A -> engine -> run)
  : engine -> run :=
  fun e => let '(o, e') := m e in rest o e'.

Section RunJob.

(** The file system, the readers and the casts the stage handlers take, the
    text of [f"{errors}"] for a list of messages, and what the database
    driver makes of such a list bound to [:msg]: a value, or an exception. *)
Variable isdir : string -> bool.
Variable glob : string -> string -> list string.
Variable _read_source_files : list string -> string -> outcome DataFrame.
Variable clean_cast : DataFrame -> list (gmap string pyval) -> outcome DataFrame.
Variable format_errors : list string -> string.
Variable bind_errors : list string -> outcome (option string).

Definition event_of (step message status : string) : event :=
  {| step := step; ev_message := message; ev_status := status |}.

(** An error event, the [log_job_end] after it, [return]. *)
Definition fail (job_name stage shown logged : string) : engine -> run :=
  yield_ (event_of stage shown "error")
    (call (log_job_end job_name stage (Some 0) "failed" (Some logged))
          (fun _ => finished)).

(** The end of a job that went through. *)
Definition finalize (job_name : string) : engine -> run :=
  call (log_job_end job_name "finalize" None "success"
          (Some "Job completed successfully"))
    (fun _ =>
       yield_ (event_of "finalize"
                 ("Job '" +:+ job_name +:+ "' completed successfully.") "done")
              finished).

(** [if not source_schema or not source_table: raise ValueError(...)] *)
Definition source_given (row : gmap string pyval) (job_name : string)
  : outcome unit :=
  if negb (truthy (get row "SourceSchema")) || negb (truthy (get row "SourceTable"))
  then Raise ("Missing SourceSchema/SourceTable for job " +:+ job_name)
  else Ok tt.

(** One branch on [TargetSchema]: the stage handler inside its [try]. *)
Definition layer (job_name stage : string) (guard : outcome unit)
    (handler : M load_result) : engine -> run :=
  match guard with
  | Raise exc => fail job_name stage ("Exception: " +:+ exc) exc
  | Ok _ =>
      call handler (fun o =>
        match o with
        | Raise exc => fail job_name stage ("Exception: " +:+ exc) exc
        | Ok result =>
            if String.eqb (status result) "error" then
              fail job_name stage (message result) (message result)
            else
              yield_ (event_of stage (message result) "done")
                (call (log_job_end job_name stage
                         (Some (default 0 (rows_written result))) "success"
                         (Some (message result)))
                      (fun _ => finalize job_name))
        end)
  end.

(** The branch on [TargetSchema]. *)
Definition branch (job_name : string) (row : gmap string pyval) : engine -> run :=
  let target_schema := get row "TargetSchema" in
  if py_eq target_schema (PStr "raw") then
    layer job_name "source_to_raw" (Ok tt)
      (load_source_to_raw isdir glob _read_source_files job_name)
  else if py_eq target_schema (PStr "curated") then
    layer job_name "raw_to_curated" (source_given row job_name)
      (load_raw_to_curated clean_cast job_name)
  else if py_eq target_schema (PStr "processed") then
    layer job_name "curated_to_processed" (source_given row job_name)
      (load_curated_to_processed job_name)
  else
    fail job_name "init"
      ("Unknown target schema '" +:+ str target_schema +:+ "' for job " +:+ job_name)
      "Unknown target schema".

(** The [try] around [create_target_tables], then the branch. *)
Definition ddl (job_name : string) (row : gmap string pyval) : engine -> run :=
  call (create_target_tables job_name) (fun o =>
    match o with
    | Raise exc => fail job_name "ddl" ("DDL creation exception: " +:+ exc) exc
    | Ok ddl_result =>
        if String.eqb (ddl_status ddl_result) "error" then
          yield_ (event_of "ddl"
                    ("DDL creation failed: " +:+ format_errors (ddl_errors ddl_result))
                    "error")
            match bind_errors (ddl_errors ddl_result) with
            | Ok msg =>
                call (log_job_end job_name "ddl" (Some 0) "failed" msg)
                     (fun _ => finished)
            | Raise exc =>
                fail job_name "ddl" ("DDL creation exception: " +:+ exc) exc
            end
        else
          yield_ (event_of "ddl" "Target tables created/verified." "done")
            (call (log_job_end job_name "ddl" None "success" (Some "DDL completed"))
                  (fun _ => branch job_name row))
    end).

(** [run_job]; the row is the first one of
    [SELECT ... FROM Config WHERE JobName = :job]. *)
Definition run_job (job_name : string) : engine -> run :=
  call (log_job_start job_name "init") (fun _ =>
  yield_ (event_of "init" ("Starting job '" +:+ job_name +:+ "'") "running")
    (fun e =>
       match List.filter (for_job job_name) (Config e) with
       | [] =>
           fail job_name "init" ("No config found for job " +:+ job_name)
                "No config found" e
       | row :: _ => ddl job_name row e
       end)).

End RunJob.

(** The loop of [main.py], and of the UI: [for event in run_job(...)] with a
    [return] at the first event whose status is [error].  Leaving the loop
    abandons the generator where it is suspended: what follows that [yield]
    is never run. *)
Fixpoint until_error (events : list (event * engine)) (last : engine) : engine :=
  match events with
  | [] => last
  | (ev, e) :: rest =>
      if String.eqb (ev_status ev) "error" then e else until_error rest last
  end.

Definition main_loop (r : run) : engine := until_error r.1 r.2.

End Orchestration.

Export Orchestration.

(** * Sample databases and batches *)

Module Samples.

Definition t0 : datetime := Datetime 2024 1 1 0.

Definition row_of (kvs : list (string * pyval)) : gmap string pyval :=
  list_to_map kvs.

(** A curated job whose second column has a type outside the table. *)
Definition cfg_curated : gmap string pyval :=
  row_of [("JobName", PStr "JOB_EMP_CURATED"); ("SourceSchema", PStr "raw");
          ("SourceTable", PStr "raw_emp"); ("TargetSchema", PStr "curated");
          ("TargetTable", PStr "emp"); ("LoadType", PStr "full");
          ("SCDType", PInt 1)].

Definition meta (job src tgt ty : string) (len pk fk nullable : Z)
    (ref : pyval) : gmap string pyval :=
  row_of [("JobName", PStr job); ("SourceColumnName", PStr src);
          ("TargetColumnName", PStr tgt); ("TargetDataType", PStr ty);
          ("Length", PInt len); ("IsPK", PInt pk); ("IsFK", PInt fk);
          ("IsNullable", PInt nullable); ("ReferenceTable", ref)].

Definition db_unsupported : engine :=
  {| Config := [cfg_curated];
     Metadata := [meta "JOB_EMP_CURATED" "EmpId" "EmpId" "INT" 0 1 0 0 PNone;
                  meta "JOB_EMP_CURATED" "Notes" "Notes" "TEXT" 0 0 0 1 PNone];
     sys_tables := []; IncrementalTracker := ∅; JobAudit := []; clock := t0 |}.

(** A processed table that takes no nulls, and a batch with one. *)
Definition strict_emp (rs : list srow) : table :=
  {| t_schema := "processed"; t_name := "emp";
     t_defs := ["[EmpId] INT NOT NULL"; "[Name] NVARCHAR(50) NOT NULL"];
     t_fks := []; t_rows := rs |}.

Definition batch_null_name : DataFrame :=
  {| columns := [("EmpId", DNumber); ("Name", DObject)];
     rows := [[CInt 2; CNull]] |}.

(** A processed table without history columns, and one with them. *)
Definition emp_cols : list string := ["EmpId"; "Name"].

Definition processed_emp (rs : list srow) : table :=
  {| t_schema := "processed"; t_name := "emp";
     t_defs := ["[EmpId] INT NULL"; "[Name] NVARCHAR(50) NULL"];
     t_fks := []; t_rows := rs |}.

Definition processed_emp_history (rs : list srow) : table :=
  {| t_schema := "processed"; t_name := "emp";
     t_defs := (SCD2_ROWID :: ["[EmpId] INT NULL"; "[Name] NVARCHAR(50) NULL"])
               ++ SCD2_HISTORY;
     t_fks := []; t_rows := rs |}.

Definition db_of (ts : list table) : engine :=
  {| Config := []; Metadata := []; sys_tables := ts;
     IncrementalTracker := ∅; JobAudit := []; clock := t0 |}.

(** Two versions of employee 1 in one batch. *)
Definition batch_two_versions : DataFrame :=
  {| columns := [("EmpId", DNumber); ("Name", DObject)];
     rows := [[CInt 1; CStr "a"]; [CInt 1; CStr "b"]] |}.

Definition emp_row (id : Z) (name : string) : srow :=
  to_srow emp_cols [CInt id; CStr name].

(** An incremental processed job whose SCDType is null. *)
Definition cfg_processed (load_type : string) (scd : pyval) : gmap string pyval :=
  row_of [("JobName", PStr "JOB_EMP_PROCESSED"); ("SourceSchema", PStr "curated");
          ("SourceTable", PStr "emp"); ("TargetSchema", PStr "processed");
          ("TargetTable", PStr "emp"); ("LoadType", PStr load_type);
          ("SCDType", scd)].

Definition curated_emp (rs : list srow) : table :=
  {| t_schema := "curated"; t_name := "emp";
     t_defs := ["[EmpId] INT PRIMARY KEY NOT NULL"; "[Name] NVARCHAR(50) NULL"];
     t_fks := []; t_rows := rs |}.

Definition db_processed (load_type : string) (scd : pyval) : engine :=
  {| Config := [cfg_processed load_type scd];
     Metadata := [meta "JOB_EMP_PROCESSED" "EmpId" "EmpId" "INT" 0 1 0 0 PNone;
                  meta "JOB_EMP_PROCESSED" "Name" "Name" "NVARCHAR" 50 0 0 1 PNone];
     sys_tables := [curated_emp [emp_row 1 "z"]; processed_emp []];
     IncrementalTracker := ∅; JobAudit := []; clock := t0 |}.

(** The employee job of the curated layer, its batch with two versions of
    employee 1, and a batch of amounts where the later version is negative. *)
Definition emp_metadata : list (gmap string pyval) :=
  [meta "JOB_EMP_CURATED" "EmpId" "EmpId" "INT" 0 1 0 0 PNone;
   meta "JOB_EMP_CURATED" "Name" "Name" "NVARCHAR" 50 0 0 1 PNone].

Definition amount_metadata : list (gmap string pyval) :=
  [meta "JOB_PAY_CURATED" "EmpId" "EmpId" "INT" 0 1 0 0 PNone;
   meta "JOB_PAY_CURATED" "Amount" "Amount" "INT" 0 0 0 1 PNone].

Definition batch_amounts : DataFrame :=
  {| columns := [("EmpId", DNumber); ("Amount", DNumber)];
     rows := [[CInt 1; CInt 5]; [CInt 1; CInt (-3)]] |}.

End Samples.

(** * Properties of the code *)

(** ** Schema synthesis *)

Module CreateDdlFacts.
Import Samples.

(** A type outside [ALLOWED_TYPES] stops the synthesis of that column, for
    any layer but raw; the message names the type only. *)
Lemma build_column_def_unsupported row schema scd colv dtv n :
  row !! "TargetColumnName" = Some colv ->
  row !! "TargetDataType" = Some dtv ->
  int (py_or (get row "Length") (PInt 0)) = Ok n ->
  String.eqb (lower schema) "raw" = false ->
  mem (upper (str dtv)) ALLOWED_TYPES = false ->
  _build_column_def row schema scd
  = Raise ("Unsupported data type: " +:+ upper (str dtv)).
Proof.
  intros Hc Hd Hn Hraw Hty. unfold _build_column_def, item.
  rewrite Hc, Hd. cbn [obind]. rewrite Hn. cbn [obind].
  rewrite Hraw, Hty. reflexivity.
Qed.

(** C1: on a curated job with the columns [EmpId INT] and [Notes TEXT],
    [create_target_tables] reports the job failed with the message
    "Unsupported data type: TEXT" (the column is not named), and yet creates
    [curated.curated_emp] with the [EmpId] column alone. *)
Theorem create_target_tables_unsupported_type_partial_table :
  let r := create_target_tables "JOB_EMP_CURATED" db_unsupported in
  r.1 = Ok {| ddl_status := "error";
              ddl_errors := ["Unsupported data type: TEXT"] |}
  /\ sys_tables r.2
     = [{| t_schema := "curated"; t_name := "curated_emp";
           t_defs := ["[EmpId] INT PRIMARY KEY NOT NULL"];
           t_fks := []; t_rows := [] |}]
  /\ (a_status <$> JobAudit r.2) = ["failed"].
Proof. vm_compute. repeat split. Qed.

End CreateDdlFacts.

(** ** The SCD engine *)

Module ScdFacts.
Import Samples.

(** C2: the [MERGE] of [scd1_merge] receives the batch as it came in.  Two
    versions of a key that the target does not hold are both inserted; when
    the target holds the key, the statement is refused and nothing is
    merged. *)
Theorem scd1_merge_batch_not_deduplicated :
  let new_key := scd1_merge "processed" "emp" batch_two_versions ["EmpId"] emp_cols
                   (db_of [processed_emp []]) in
  let old_key := scd1_merge "processed" "emp" batch_two_versions ["EmpId"] emp_cols
                   (db_of [processed_emp [emp_row 1 "z"]]) in
  new_key.1 = Ok tt
  /\ sys_tables new_key.2 = [processed_emp [emp_row 1 "a"; emp_row 1 "b"]]
  /\ old_key.1 = Raise "The MERGE statement attempted to UPDATE or DELETE the same row more than once."
  /\ sys_tables old_key.2 = [processed_emp [emp_row 1 "z"]].
Proof. vm_compute. repeat split. Qed.

(** The stored rows of [key] that are flagged current. *)
Definition current_rows (key_columns : list string) (current_col : string)
    (key : list cell) (T : list srow) : list srow :=
  List.filter
    (fun t => is_current current_col t
              && bool_decide (map (cell_of t) key_columns = key)) T.

(** Every key has at most one current row. *)
Definition single_current (key_columns : list string) (current_col : string)
    (T : list srow) : Prop :=
  forall key, (length (current_rows key_columns current_col key T) <= 1)%nat.

(** C5: [scd2_merge] does not deduplicate its batch.  From an empty history
    table, where no key has a current row, one merge of a batch with two
    versions of employee 1 leaves two rows of that key flagged current. *)
Theorem scd2_merge_two_current_rows :
  let e := db_of [processed_emp_history []] in
  let r := scd2_merge "processed" "emp" batch_two_versions ["EmpId"] emp_cols
             "StartTime" "EndTime" "IsCurrent" e in
  single_current ["EmpId"] "IsCurrent" []
  /\ r.1 = Ok tt
  /\ exists T,
       sys_tables r.2 = [processed_emp_history T]
       /\ length (current_rows ["EmpId"] "IsCurrent" [CInt 1] T) = 2%nat
       /\ ~ single_current ["EmpId"] "IsCurrent" T.
Proof.
  split; [intros key; cbn; lia|]. split; [reflexivity|].
  eexists. split; [vm_compute; reflexivity|].
  split; [reflexivity|].
  intros H. specialize (H [CInt 1]). vm_compute in H. lia.
Qed.

End ScdFacts.

(** ** Source files of an incremental source-to-raw load *)

Module SourceRawFacts.

Lemma new_files_loop_skip l1 f l2 wm acc :
  DATE_PATTERN_search (basename f) = None ->
  new_files_loop (l1 ++ f :: l2) wm acc = new_files_loop (l1 ++ l2) wm acc.
Proof.
  intros Hf. revert acc.
  induction l1 as [|g l1 IH]; intros acc; cbn [app new_files_loop].
  - rewrite Hf. reflexivity.
  - destruct (DATE_PATTERN_search (basename g)) as [[[y m] d]|]; [|apply IH].
    destruct (mk_datetime y m d) as [dt|msg]; cbn [obind]; [|reflexivity].
    destruct (dt_ltb wm dt); apply IH.
Qed.

(** What the loop adds to [new_files]: files of the list with a date in
    their name, later than the watermark. *)
Definition dated_after (wm : datetime) (f : string) (dt : datetime) : Prop :=
  exists y m d,
    DATE_PATTERN_search (basename f) = Some (y, m, d)
    /\ mk_datetime y m d = Ok dt
    /\ dt_ltb wm dt = true.

Lemma new_files_loop_sound files wm acc nf :
  new_files_loop files wm acc = Ok nf ->
  forall f dt, (f, dt) ∈ nf ->
    (f, dt) ∈ acc \/ (f ∈ files /\ dated_after wm f dt).
Proof.
  revert acc. induction files as [|g files IH]; intros acc H f dt Hin.
  - cbn in H. injection H as Hnf. subst nf. left. exact Hin.
  - cbn [new_files_loop] in H.
    destruct (DATE_PATTERN_search (basename g)) as [[[y m] d]|] eqn:Hs.
    + destruct (mk_datetime y m d) as [gd|msg] eqn:Hd; cbn [obind] in H;
        [|discriminate].
      destruct (dt_ltb wm gd) eqn:Hlt.
      * destruct (IH _ H f dt Hin) as [Hacc|[Hf Hda]].
        -- apply elem_of_app in Hacc as [Hacc|Hnew]; [left; exact Hacc|].
           apply list_elem_of_singleton in Hnew. injection Hnew as Hf Hdt.
           subst f dt.
           right. split; [left|]. exists y, m, d. auto.
        -- right. split; [right; exact Hf|exact Hda].
      * destruct (IH _ H f dt Hin) as [Hacc|[Hf Hda]]; [left; exact Hacc|].
        right. split; [right; exact Hf|exact Hda].
    + destruct (IH _ H f dt Hin) as [Hacc|[Hf Hda]]; [left; exact Hacc|].
      right. split; [right; exact Hf|exact Hda].
Qed.

Lemma elem_of_insert_by_date x p l :
  p ∈ insert_by_date x l <-> p = x \/ p ∈ l.
Proof.
  induction l as [|y l IH]; cbn [insert_by_date].
  - rewrite list_elem_of_singleton. split; [auto|].
    intros [Hp|Hp]; [exact Hp|]. apply elem_of_nil in Hp. contradiction.
  - destruct (dt_ltb y.2 x.2).
    + rewrite !elem_of_cons, IH. tauto.
    + rewrite !elem_of_cons. tauto.
Qed.

Lemma elem_of_sort_by_date p l : p ∈ sort_by_date l <-> p ∈ l.
Proof.
  unfold sort_by_date. induction l as [|x l IH]; cbn [foldr].
  - reflexivity.
  - rewrite elem_of_insert_by_date, IH, elem_of_cons. tauto.
Qed.

(** C9: a file whose basename holds no [YYYY_MM_DD] date changes nothing in
    the incremental branch of [load_source_to_raw], whatever the tracker
    holds and however the files are read: the branch returns the same result
    and leaves the same database as without the file.  The paths handed to
    the reader never include it, and each of them carries a date later than
    the watermark. *)
Theorem undated_file_never_loaded
    (reader : list string -> string -> outcome DataFrame)
    (job_name target_schema target_table source_type : string)
    (metadata : list (gmap string pyval))
    (l1 l2 : list string) (f : string) (e : engine) :
  DATE_PATTERN_search (basename f) = None ->
  SourceRaw.incremental_branch reader job_name target_schema target_table
      metadata source_type (l1 ++ f :: l2) e
  = SourceRaw.incremental_branch reader job_name target_schema target_table
      metadata source_type (l1 ++ l2) e
  /\ let watermark :=
       default (Datetime 1900 1 1 0) (IncrementalTracker e !! (job_name, "source_raw")) in
     forall new_files,
       new_files_loop (l1 ++ f :: l2) watermark [] = Ok new_files ->
       (f ∉ (sort_by_date new_files).*1)
       /\ (forall p, p ∈ (sort_by_date new_files).*1 ->
             p ∈ l1 ++ l2 /\ exists dt, dated_after watermark p dt).
Proof.
  intros Hf. split.
  - unfold SourceRaw.incremental_branch, bind, _get_incremental_tracker, gets, lift.
    rewrite (new_files_loop_skip _ _ _ _ _ Hf). reflexivity.
  - intros wm nf Hnf.
    assert (Hall : forall p, p ∈ (sort_by_date nf).*1 ->
              p ∈ l1 ++ f :: l2 /\ exists dt, dated_after wm p dt).
    { intros p Hp. apply list_elem_of_fmap in Hp as [[p' dt] [-> Hp]].
      apply (proj1 (elem_of_sort_by_date _ _)) in Hp.
      destruct (new_files_loop_sound _ _ _ _ Hnf _ _ Hp) as [Hnil|[Hin Hda]].
      - apply elem_of_nil in Hnil. contradiction.
      - split; [exact Hin|]. exists dt. exact Hda. }
    split.
    + intros Hin. destruct (Hall _ Hin) as [_ [dt (y & m & d & Hs & _)]].
      rewrite Hf in Hs. discriminate.
    + intros p Hp. destruct (Hall _ Hp) as [Hin [dt Hda]].
      split; [|exists dt; exact Hda].
      apply elem_of_app in Hin as [Hin|Hin]; [apply elem_of_app; left; exact Hin|].
      apply elem_of_cons in Hin as [->|Hin]; [|apply elem_of_app; right; exact Hin].
      destruct Hda as (y & m & d & Hs & _). rewrite Hf in Hs. discriminate.
Qed.

(** A directory with a dated file, an undated one and an old one. *)
Lemma undated_file_never_loaded_witness :
  DATE_PATTERN_search (basename "/data/emp.csv") = None
  /\ SourceRaw.incremental_branch (fun _ _ => Ok Samples.batch_two_versions)
       "JOB_EMP_RAW" "raw" "emp" [] "csv"
       (["/data/emp_2024_01_05.csv"] ++ "/data/emp.csv" :: ["/data/emp_1899_12_31.csv"])
       (Samples.db_of [])
     = SourceRaw.incremental_branch (fun _ _ => Ok Samples.batch_two_versions)
       "JOB_EMP_RAW" "raw" "emp" [] "csv"
       (["/data/emp_2024_01_05.csv"] ++ ["/data/emp_1899_12_31.csv"])
       (Samples.db_of []).
Proof.
  split; [reflexivity|].
  apply (undated_file_never_loaded (fun _ _ => Ok Samples.batch_two_versions)
           "JOB_EMP_RAW" "raw" "emp" "csv" []
           ["/data/emp_2024_01_05.csv"] ["/data/emp_1899_12_31.csv"]
           "/data/emp.csv" (Samples.db_of [])).
  reflexivity.
Defined.

End SourceRawFacts.

(** ** Foreign keys: synthesis against enforcement *)

Module FkFacts.

(** A row of the Metadata table has the columns of the metadata model and no
    other. *)
Definition metadata_row (r : gmap string pyval) : Prop :=
  forall k, is_Some (r !! k) -> k ∈ REQUIRED_METADATA_COLS.

Lemma metadata_row_no_reference_schema r :
  metadata_row r -> r !! "ReferenceSchema" = None.
Proof.
  intros Hr. destruct (r !! "ReferenceSchema") as [v|] eqn:Hk; [|reflexivity].
  exfalso. assert (Hin : "ReferenceSchema" ∈ REQUIRED_METADATA_COLS).
  { apply Hr. rewrite Hk. eauto. }
  revert Hin.
  apply (proj1 (bool_decide_eq_false ("ReferenceSchema" ∈ REQUIRED_METADATA_COLS))).
  reflexivity.
Qed.

(** C10: for a metadata row flagged as a foreign key on both paths whose
    [ReferenceTable] has no dot, [_foreign_key_clauses] looks the table up in
    schema [dbo] and references [dbo] in its clause, while [enforce_pk_fk]
    reads the valid values from schema [curated] - the default of a
    [ReferenceSchema] key that no Metadata row has.  The two references
    differ. *)
Theorem fk_reference_dbo_against_curated
    (r : gmap string pyval) (colv : pyval) (ref : string)
    (df : DataFrame) (e : engine) :
  metadata_row r ->
  int (py_or (get r "IsFK") (PInt 0)) = Ok 1 ->
  is_fk_rule r = true ->
  r !! "TargetColumnName" = Some colv ->
  r !! "ReferenceTable" = Some (PStr ref) ->
  split_once "." ref = None ->
  _foreign_key_clauses [r] e
  = (Ok (if bool_decide (is_Some (find_table "dbo" ref (sys_tables e)))
         then [fk_clause (str colv) "dbo" ref] else []), e)
  /\ fk_reference ref = ("dbo", ref)
  /\ fk_lookup r = ("curated", ref)
  /\ enforce_fk [r] df
     = (let* df' :=
          try_except
            (let* values := select_distinct (str colv) "curated" ref in
             lift (filter_isin (str colv)
                     (List.filter (fun v => negb (is_null v)) values) df))
            (fun _ => ret df) in
        ret df')
  /\ fk_reference ref <> fk_lookup r.
Proof.
  intros Hrow Hfk Hrule Hcol Href Hdot.
  pose proof (metadata_row_no_reference_schema r Hrow) as Hnone.
  assert (Hlookup : fk_lookup r = ("curated", ref)).
  { unfold fk_lookup, get_or, get. rewrite Hnone, Href. reflexivity. }
  assert (Hddl : fk_reference ref = ("dbo", ref)).
  { unfold fk_reference. rewrite Hdot. reflexivity. }
  assert (Htruthy : truthy (get r "ReferenceTable") = true).
  { unfold is_fk_rule in Hrule. apply andb_true_iff in Hrule as [_ Hrule].
    unfold get in *. rewrite Href in *. cbn in Hrule |- *.
    destruct (String.eqb ref "") eqn:E; [|reflexivity].
    rewrite orb_true_r in Hrule. discriminate. }
  repeat split.
  - unfold _foreign_key_clauses. cbn [fk_loop]. unfold bind at 1, lift at 1.
    rewrite Hfk. cbn [Z.eqb Pos.eqb andb]. rewrite Htruthy.
    unfold bind at 1, lift at 1, item. rewrite Hcol.
    unfold get at 1. rewrite Href.
    change (default PNone (Some (PStr ref))) with (PStr ref).
    cbv beta iota. rewrite Hddl.
    rewrite bool_decide_eq_false_2 by apply not_elem_of_nil.
    cbn. unfold _table_exists, bind, gets, ret.
    destruct (bool_decide (is_Some (find_table "dbo" ref (sys_tables e))));
      reflexivity.
  - exact Hddl.
  - exact Hlookup.
  - cbn [enforce_fk]. rewrite Hlookup. unfold item. rewrite Hcol. reflexivity.
  - rewrite Hddl, Hlookup. discriminate.
Qed.

(** The [DeptId] column of an employee job, referencing [dept]. *)
Lemma fk_reference_dbo_against_curated_witness :
  let r := Samples.meta "JOB_EMP_CURATED" "DeptId" "DeptId" "INT" 0 0 1 1 (PStr "dept") in
  _foreign_key_clauses [r] (Samples.db_of [])
  = (Ok (if bool_decide (is_Some (find_table "dbo" "dept" (sys_tables (Samples.db_of []))))
         then [fk_clause "DeptId" "dbo" "dept"] else []), Samples.db_of [])
  /\ fk_lookup r = ("curated", "dept").
Proof.
  intros r.
  destruct (fk_reference_dbo_against_curated r (PStr "DeptId") "dept"
              Samples.batch_two_versions (Samples.db_of []))
    as (H1 & _ & H3 & _).
  - intros k [v Hk]. unfold r, Samples.meta, Samples.row_of in Hk.
    apply elem_of_list_to_map_2 in Hk.
    unfold REQUIRED_METADATA_COLS.
    repeat (apply elem_of_cons in Hk as [Hk|Hk];
            [injection Hk as -> _; set_solver|]).
    apply elem_of_nil in Hk. contradiction.
  - reflexivity.
  - reflexivity.
  - reflexivity.
  - reflexivity.
  - reflexivity.
  - split; [exact H1|exact H3].
Defined.

End FkFacts.

(** ** Calls against the engine: inversion *)

Module MFacts.

Lemma bind_Ok {A B} (m : M A) (k : A -> M B) e b e' :
  bind m k e = (Ok b, e') ->
  exists a e1, m e = (Ok a, e1) /\ k a e1 = (Ok b, e').
Proof.
  unfold bind. destruct (m e) as [[a|msg] e1]; intros H; [eauto|discriminate].
Qed.

Lemma lift_Ok {A} (o : outcome A) e a e' :
  lift o e = (Ok a, e') -> o = Ok a /\ e' = e.
Proof. unfold lift. intros H. injection H as H1 H2. auto. Qed.

Lemma ret_Ok {A} (x : A) e a e' : ret x e = (Ok a, e') -> a = x /\ e' = e.
Proof. unfold ret. intros H. injection H as H1 H2. auto. Qed.

Lemma obind_Ok {A B} (o : outcome A) (k : A -> outcome B) b :
  obind o k = Ok b -> exists a, o = Ok a /\ k a = Ok b.
Proof. destruct o as [a|msg]; cbn; intros H; [eauto|discriminate]. Qed.

(** Reads leave the database alone. *)
Lemma the_table_state schema name e : (the_table schema name e).2 = e.
Proof. unfold the_table. destruct (find_table _ _ _); reflexivity. Qed.

Lemma select_distinct_state col schema name e :
  (select_distinct col schema name e).2 = e.
Proof.
  unfold select_distinct, bind, the_table.
  destruct (find_table _ _ _); [|reflexivity].
  destruct (bool_decide _); reflexivity.
Qed.

End MFacts.

(** ** Frames: keeping the last row of each key *)

Module FrameFacts.

Lemma filter_sublist {A} (p : A -> bool) (l : list A) :
  List.filter p l `sublist_of` l.
Proof.
  induction l as [|a l IH]; cbn; [constructor|].
  destruct (p a); [apply sublist_skip|apply sublist_cons]; exact IH.
Qed.

Lemma sublist_elem {A} (l k : list A) x : l `sublist_of` k -> x ∈ l -> x ∈ k.
Proof.
  induction 1 as [|y l k _ IH|y l k _ IH]; intros Hx.
  - exact Hx.
  - apply elem_of_cons in Hx as [->|Hx]; [left|right; auto].
  - right. auto.
Qed.

Lemma elem_of_filter_bool {A} (p : A -> bool) (l : list A) x :
  x ∈ List.filter p l <-> x ∈ l /\ p x = true.
Proof. rewrite !list_elem_of_In. apply filter_In. Qed.

(** A decomposition of a filtered list comes from one of the list. *)
Lemma filter_split {A} (p : A -> bool) (l f1 f2 : list A) x :
  List.filter p l = f1 ++ x :: f2 ->
  exists l1 l2, l = l1 ++ x :: l2 /\ List.filter p l2 = f2 /\ p x = true.
Proof.
  revert f1. induction l as [|a l IH]; intros f1 H; cbn in H.
  - destruct f1; discriminate.
  - destruct (p a) eqn:Hp.
    + destruct f1 as [|b f1]; cbn in H.
      * injection H as -> H. exists [], l. auto.
      * injection H as -> H. destruct (IH _ H) as (l1 & l2 & -> & H2 & H3).
        exists (b :: l1), l2. auto.
    + destruct (IH _ H) as (l1 & l2 & -> & H2 & H3).
      exists (a :: l1), l2. auto.
Qed.

Section KeepLast.
Context {K : Type} `{EqDecision K} (key : list cell -> K).

Lemma later_key r l :
  existsb (fun r' => bool_decide (key r' = key r)) l = true <-> key r ∈ key <$> l.
Proof.
  rewrite existsb_exists, list_elem_of_fmap. split.
  - intros (x & Hx & Hk). apply bool_decide_eq_true in Hk.
    exists x. split; [congruence|]. apply list_elem_of_In. exact Hx.
  - intros (x & Hk & Hx). exists x. split; [apply list_elem_of_In; exact Hx|].
    apply bool_decide_eq_true. congruence.
Qed.

Lemma keep_last_sublist l : keep_last key l `sublist_of` l.
Proof.
  induction l as [|a l IH]; cbn; [constructor|].
  destruct (existsb _ l); [apply sublist_cons|apply sublist_skip]; exact IH.
Qed.

(** No key is lost. *)
Lemma keep_last_keys l k : k ∈ key <$> keep_last key l <-> k ∈ key <$> l.
Proof.
  induction l as [|a l IH]; cbn [keep_last]; [reflexivity|].
  destruct (existsb _ l) eqn:E.
  - rewrite IH, fmap_cons, elem_of_cons. split; [auto|].
    intros [->|H]; [|exact H]. apply later_key. exact E.
  - rewrite !fmap_cons, !elem_of_cons, IH. reflexivity.
Qed.

(** No key is kept twice. *)
Lemma keep_last_NoDup l : NoDup (key <$> keep_last key l).
Proof.
  induction l as [|a l IH]; cbn [keep_last]; [constructor|].
  destruct (existsb _ l) eqn:E; [exact IH|].
  rewrite fmap_cons. apply NoDup_cons. split; [|exact IH].
  rewrite keep_last_keys. intros H. apply later_key in H. congruence.
Qed.

(** A kept row is the last one of its key. *)
Lemma keep_last_last r l :
  r ∈ keep_last key l ->
  exists l1 l2, l = l1 ++ r :: l2 /\ key r ∉ key <$> l2.
Proof.
  induction l as [|a l IH]; cbn [keep_last]; intros H.
  - apply elem_of_nil in H. contradiction.
  - destruct (existsb _ l) eqn:E.
    + destruct (IH H) as (l1 & l2 & -> & Hl). exists (a :: l1), l2. auto.
    + apply elem_of_cons in H as [->|H].
      * exists [], l. split; [reflexivity|].
        intros Hin. apply later_key in Hin. congruence.
      * destruct (IH H) as (l1 & l2 & -> & Hl). exists (a :: l1), l2. auto.
Qed.

End KeepLast.

(** The value of every key column is present. *)
Definition has_key (ls cs : list string) (r : list cell) : bool :=
  forallb (fun c => negb (is_null (at_col ls r c))) cs.

Lemma has_key_project ls cs r r' :
  has_key ls cs r = true -> has_key ls cs r' = false ->
  project ls cs r' <> project ls cs r.
Proof.
  unfold has_key, project. induction cs as [|c cs IH]; cbn; [discriminate|].
  intros H1 H2 Heq. injection Heq as Hc Hcs.
  apply andb_true_iff in H1 as [H1 H1'].
  apply andb_false_iff in H2 as [H2|H2]; [|exact (IH H1' H2 Hcs)].
  rewrite Hc in H2. congruence.
Qed.

Lemma dropna_rows cs df df' :
  dropna cs df = Ok df' ->
  columns df' = columns df
  /\ rows df' = List.filter (has_key (labels df) cs) (rows df).
Proof.
  unfold dropna. destruct (check_subset _ _); cbn; [|discriminate].
  intros H. injection H as <-. auto.
Qed.

Lemma drop_duplicates_last_rows cs df df' :
  drop_duplicates_last cs df = Ok df' ->
  columns df' = columns df
  /\ rows df' = keep_last (project (labels df) cs) (rows df).
Proof.
  unfold drop_duplicates_last. destruct (check_subset _ _); cbn; [|discriminate].
  intros H. injection H as <-. auto.
Qed.

Lemma filter_isin_rows c vs df df' :
  filter_isin c vs df = Ok df' ->
  columns df' = columns df /\ rows df' `sublist_of` rows df.
Proof.
  unfold filter_isin. destruct (check_subset _ _); cbn; [|discriminate].
  intros H. injection H as <-. split; [reflexivity|apply filter_sublist].
Qed.

End FrameFacts.

(** ** The constraint enforcer *)

Module EnforcerFacts.
Import MFacts FrameFacts.

(** What the primary-key block leaves of a frame. *)
Lemma enforce_pk_rows pk_cols df kept :
  pk_cols <> [] ->
  enforce_pk pk_cols df = Ok kept ->
  columns kept = columns df
  /\ rows kept = keep_last (project (labels df) pk_cols)
                   (List.filter (has_key (labels df) pk_cols) (rows df)).
Proof.
  intros Hne H. unfold enforce_pk in H.
  destruct pk_cols as [|c cs]; [congruence|].
  apply obind_Ok in H as (df1 & H1 & H2).
  apply dropna_rows in H1 as [Hc1 Hr1].
  apply drop_duplicates_last_rows in H2 as [Hc2 Hr2].
  split; [congruence|].
  rewrite Hr2, Hr1. unfold labels. rewrite Hc1. reflexivity.
Qed.

Lemma enforce_not_null_rows cols df df' :
  enforce_not_null cols df = Ok df' ->
  columns df' = columns df /\ rows df' `sublist_of` rows df.
Proof.
  revert df. induction cols as [|c cols IH]; intros df H; cbn in H.
  - injection H as <-. auto.
  - destruct (bool_decide (c ∈ labels df)); [|exact (IH _ H)].
    apply obind_Ok in H as (df1 & H1 & H2).
    apply dropna_rows in H1 as [Hc1 Hr1].
    destruct (IH _ H2) as [Hc2 Hr2]. split; [congruence|].
    etransitivity; [exact Hr2|]. rewrite Hr1. apply filter_sublist.
Qed.

Lemma enforce_fk_rows rules df e out e' :
  enforce_fk rules df e = (Ok out, e') ->
  e' = e /\ columns out = columns df /\ rows out `sublist_of` rows df.
Proof.
  revert df e. induction rules as [|rule rules IH]; intros df e H.
  - apply ret_Ok in H as [-> ->]. auto.
  - cbn [enforce_fk] in H.
    apply bind_Ok in H as (colv & e1 & H1 & H).
    apply lift_Ok in H1 as [_ ->].
    destruct (fk_lookup rule) as [ref_schema ref_table].
    apply bind_Ok in H as (df1 & e1 & H1 & H).
    destruct (IH _ _ H) as (-> & Hc & Hr).
    assert (Hstep : e1 = e /\ columns df1 = columns df
                    /\ rows df1 `sublist_of` rows df).
    { unfold try_except, bind in H1.
      pose proof (select_distinct_state (str colv) ref_schema ref_table e) as Hs.
      destruct (select_distinct (str colv) ref_schema ref_table e) as [[vs|msg] e2];
        cbn in Hs; subst e2.
      - unfold lift in H1.
        destruct (filter_isin _ _ df) as [df2|msg] eqn:Hf.
        + injection H1 as -> ->. apply filter_isin_rows in Hf as [? ?]. auto.
        + apply ret_Ok in H1 as [-> ->]. auto.
      - apply ret_Ok in H1 as [-> ->]. auto. }
    destruct Hstep as (-> & Hc1 & Hr1).
    split; [reflexivity|]. split; [congruence|]. etransitivity; eassumption.
Qed.

(** The rows of [rs] have a key, no two of them the same one, and each is the
    last row of its key in the frame [df]. *)
Definition last_per_key (df : DataFrame) (pk_cols : list string)
    (rs : list (list cell)) : Prop :=
  (forall r, r ∈ rs -> has_key (labels df) pk_cols r = true)
  /\ NoDup (project (labels df) pk_cols <$> rs)
  /\ (forall r, r ∈ rs ->
        exists before after,
          rows df = before ++ r :: after
          /\ forall r', r' ∈ after ->
               project (labels df) pk_cols r' <> project (labels df) pk_cols r).

Lemma last_per_key_sublist df pk_cols rs rs' :
  rs' `sublist_of` rs -> last_per_key df pk_cols rs -> last_per_key df pk_cols rs'.
Proof.
  intros Hsub (Hk & Hnd & Hlast). repeat split.
  - intros r Hr. apply Hk. eapply sublist_elem; eassumption.
  - eapply sublist_NoDup; [exact Hnd|]. apply fmap_sublist. exact Hsub.
  - intros r Hr. apply Hlast. eapply sublist_elem; eassumption.
Qed.

Lemma enforce_pk_last_per_key pk_cols df kept :
  pk_cols <> [] ->
  enforce_pk pk_cols df = Ok kept ->
  last_per_key df pk_cols (rows kept)
  /\ (forall r, r ∈ rows df -> has_key (labels df) pk_cols r = true ->
        project (labels df) pk_cols r ∈ project (labels df) pk_cols <$> rows kept).
Proof.
  intros Hne H. destruct (enforce_pk_rows _ _ _ Hne H) as [_ Hr].
  rewrite Hr. split; [repeat split|].
  - intros r Hin. eapply sublist_elem in Hin; [|apply keep_last_sublist].
    apply elem_of_filter_bool in Hin. tauto.
  - apply keep_last_NoDup.
  - intros r Hin. pose proof Hin as Hin'.
    apply keep_last_last in Hin as (f1 & f2 & Hf & Hlast).
    apply filter_split in Hf as (l1 & l2 & Hl & Hf2 & Hkey).
    exists l1, l2. split; [exact Hl|]. intros r' Hr'.
    destruct (has_key (labels df) pk_cols r') eqn:Hk'.
    + intros Heq. apply Hlast. rewrite <- Heq, <- Hf2.
      apply list_elem_of_fmap. exists r'. split; [reflexivity|].
      apply elem_of_filter_bool. auto.
    + apply has_key_project; assumption.
  - intros r Hin Hk. apply keep_last_keys. apply list_elem_of_fmap.
    exists r. split; [reflexivity|]. apply elem_of_filter_bool. auto.
Qed.



(** *** The enforcer returns *)

Lemma check_subset_Ok ls cs :
  (forall c, c ∈ cs -> c ∈ ls) -> check_subset ls cs = Ok tt.
Proof.
  intros H. unfold check_subset.
  replace (filter (fun c => c ∉ ls) cs) with (@nil string); [reflexivity|].
  symmetry. induction cs as [|c cs IH]; [reflexivity|].
  rewrite filter_cons. destruct (decide (c ∉ ls)) as [Hn|_].
  - exfalso. apply Hn, H. left.
  - apply IH. intros c' Hc'. apply H. right. exact Hc'.
Qed.

Lemma column_list_total key flag md :
  (forall m, m ∈ md -> is_Some (m !! key)) ->
  exists cs, column_list key flag md = Ok cs.
Proof.
  induction md as [|m md IH]; intros H; cbn [column_list]; [eauto|].
  destruct IH as [cs Hcs]; [intros m' Hm'; apply H; right; exact Hm'|].
  rewrite Hcs. destruct (flag m); [|eauto].
  destruct (H m) as [v Hv]; [left|]. unfold item. rewrite Hv. cbn. eauto.
Qed.

Lemma enforce_not_null_total cols df :
  exists out, enforce_not_null cols df = Ok out.
Proof.
  revert df. induction cols as [|c cols IH]; intros df; cbn [enforce_not_null];
    [eauto|].
  destruct (bool_decide (c ∈ labels df)) eqn:E; [|apply IH].
  apply bool_decide_eq_true in E. unfold dropna.
  rewrite check_subset_Ok; [cbn [obind]; apply IH|].
  intros c' Hc'. apply list_elem_of_singleton in Hc'. subst c'. exact E.
Qed.

Lemma enforce_fk_total rules df e :
  (forall m, m ∈ rules -> is_Some (m !! "TargetColumnName")) ->
  exists out, enforce_fk rules df e = (Ok out, e).
Proof.
  revert df. induction rules as [|rule rules IH]; intros df H; cbn [enforce_fk].
  - eexists. reflexivity.
  - destruct (H rule) as [colv Hcol]; [left|].
    unfold bind at 1, lift at 1, item. rewrite Hcol.
    destruct (fk_lookup rule) as [ref_schema ref_table].
    assert (Hstep : exists df1,
              try_except
                (let* ref := select_distinct (str colv) ref_schema ref_table in
                 let valid_values := List.filter (fun v => negb (is_null v)) ref in
                 lift (filter_isin (str colv) valid_values df))
                (fun _ => ret df) e = (Ok df1, e)).
    { unfold try_except, bind.
      pose proof (select_distinct_state (str colv) ref_schema ref_table e) as Hs.
      destruct (select_distinct _ _ _ e) as [[vs|msg] e2]; cbn in Hs; subst e2.
      - unfold lift. destruct (filter_isin _ _ df); eexists; reflexivity.
      - eexists; reflexivity. }
    destruct Hstep as [df1 Hdf1]. cbv zeta in Hdf1. unfold bind at 1.
    rewrite Hdf1.
    apply IH. intros m Hm. apply H. right. exact Hm.
Qed.

(** X25: On metadata whose rows name their column and whose key columns are
    columns of the frame - a frame with no repeated label - [enforce_pk_fk]
    returns a frame and leaves the database alone: a NOT NULL column the
    frame lacks is passed over, and a foreign-key rule whose lookup fails is
    skipped. *)
Lemma enforce_pk_fk_returns df metadata pk_cols e :
  (forall m, m ∈ metadata -> is_Some (m !! "TargetColumnName")) ->
  names_where is_pk metadata = Ok pk_cols ->
  (forall c, c ∈ pk_cols -> c ∈ labels df) ->
  NoDup (labels df) ->
  exists out, enforce_pk_fk df metadata e = (Ok out, e).
Proof.
  intros Hmd Hpk Hcols _. unfold enforce_pk_fk, bind at 1, lift. rewrite Hpk.
  assert (Hkept : exists kept, enforce_pk pk_cols df = Ok kept).
  { unfold enforce_pk. destruct pk_cols as [|c cs]; [eauto|].
    unfold dropna. rewrite (check_subset_Ok _ _ Hcols). cbn [obind].
    unfold drop_duplicates_last.
    change (labels (with_rows df ?rs)) with (labels df).
    rewrite (check_subset_Ok _ _ Hcols). cbn [obind]. eauto. }
  destruct Hkept as [kept Hkept]. unfold bind at 1. rewrite Hkept.
  destruct (column_list_total "TargetColumnName" is_not_null metadata Hmd)
    as [nn Hnn].
  unfold bind at 1, lift, names_where. rewrite Hnn.
  destruct (enforce_not_null_total nn kept) as [df2 Hdf2].
  unfold bind at 1. rewrite Hdf2.
  apply enforce_fk_total. intros m Hm. apply Hmd.
  apply elem_of_filter_bool in Hm. tauto.
Qed.





End EnforcerFacts.

(** ** The order of the constraint rules *)

Module RuleOrderFacts.
Import MFacts FrameFacts EnforcerFacts Samples.

(** The order the specification words: primary key, not-null and foreign key
    first ([enforce_pk_fk] runs them in that order), the no-negative filter
    last. *)
Definition spec_order_constraints (df : DataFrame)
    (metadata : list (gmap string pyval)) : M DataFrame :=
  let* df := enforce_pk_fk df metadata in
  ret (enforce_no_negative df).

(** C3, as stated, fails: on the batch [(1, 5); (1, -3)] keyed on its first
    column the code keeps [(1, 5)] - the negative row goes first, then the
    key is deduplicated - while the stated order would keep nothing. *)
Lemma enforce_constraints_not_in_spec_order :
  (enforce_constraints batch_amounts amount_metadata (db_of [])).1
    = Ok (with_rows batch_amounts [[CInt 1; CInt 5]])
  /\ (spec_order_constraints batch_amounts amount_metadata (db_of [])).1
    = Ok (with_rows batch_amounts [])
  /\ enforce_constraints batch_amounts amount_metadata (db_of [])
     <> spec_order_constraints batch_amounts amount_metadata (db_of []).
Proof.
  split; [reflexivity|]. split; [reflexivity|].
  intros H. apply (f_equal fst) in H. vm_compute in H. discriminate.
Qed.

Lemma enforce_no_negative_rows df :
  columns (enforce_no_negative df) = columns df
  /\ rows (enforce_no_negative df) `sublist_of` rows df
  /\ forall r c, r ∈ rows (enforce_no_negative df) -> c ∈ numeric_cols df ->
       negative (at_col (labels df) r c) = false.
Proof.
  unfold enforce_no_negative. destruct (numeric_cols df) as [|c0 cs] eqn:Hn.
  - repeat split; [reflexivity|]. intros r c _ Hc. apply elem_of_nil in Hc.
    contradiction.
  - cbn [columns rows with_rows]. repeat split; [apply filter_sublist|].
    intros r c Hr Hc. apply elem_of_filter_bool in Hr as [_ Hr].
    apply negb_true_iff in Hr.
    destruct (negative (at_col (labels df) r c)) eqn:E; [|reflexivity].
    assert (Hex : existsb (fun c => negative (at_col (labels df) r c)) (c0 :: cs) = true).
    { apply existsb_exists. exists c. split; [apply list_elem_of_In; exact Hc|exact E]. }
    congruence.
Qed.

(** C3, amended: [load_raw_to_curated] runs the no-negative filter first and
    [enforce_pk_fk] on what it leaves, so the rules apply in the order
    no-negative, primary key, not-null, foreign key.  No row of the output
    holds a negative number in a numeric column, and the row kept for a key
    is the last one among the rows without a negative number. *)
Theorem enforce_constraints_no_negative_first
    (df out : DataFrame) (metadata : list (gmap string pyval)) (e e' : engine) :
  enforce_constraints df metadata e = (Ok out, e') ->
  exists pk_cols kept not_null_cols filtered,
    names_where is_pk metadata = Ok pk_cols
    /\ enforce_pk pk_cols (enforce_no_negative df) = Ok kept
    /\ names_where is_not_null metadata = Ok not_null_cols
    /\ enforce_not_null not_null_cols kept = Ok filtered
    /\ enforce_fk (List.filter is_fk_rule metadata) filtered e = (Ok out, e')
    /\ rows out `sublist_of` rows kept
    /\ (pk_cols <> [] ->
        last_per_key (enforce_no_negative df) pk_cols (rows out))
    /\ (forall r c, r ∈ rows out -> c ∈ numeric_cols df ->
          negative (at_col (labels df) r c) = false).
Proof.
  intros H. unfold enforce_constraints, enforce_pk_fk in H.
  apply bind_Ok in H as (pk & e1 & H1 & H). apply lift_Ok in H1 as [Hpk ->].
  apply bind_Ok in H as (kept & e1 & H1 & H). apply lift_Ok in H1 as [Hkept ->].
  apply bind_Ok in H as (nn & e1 & H1 & H). apply lift_Ok in H1 as [Hnn ->].
  apply bind_Ok in H as (df2 & e1 & H1 & H). apply lift_Ok in H1 as [Hdf2 ->].
  exists pk, kept, nn, df2.
  pose proof (enforce_not_null_rows _ _ _ Hdf2) as [_ Hs2].
  pose proof (enforce_fk_rows _ _ _ _ _ H) as (_ & _ & Hs3).
  assert (Hsub : rows out `sublist_of` rows kept) by (etransitivity; eassumption).
  split; [exact Hpk|]. split; [exact Hkept|]. split; [exact Hnn|].
  split; [exact Hdf2|]. split; [exact H|]. split; [exact Hsub|]. split.
  - intros Hne.
    apply (enforce_pk_last_per_key _ _ _ Hne) in Hkept as [Hlast _].
    eapply last_per_key_sublist; eassumption.
  - intros r c Hr Hc.
    destruct (enforce_no_negative_rows df) as (_ & _ & Hneg).
    apply Hneg; [|exact Hc].
    eapply sublist_elem; [|exact Hr]. etransitivity; [exact Hsub|].
    destruct pk as [|p pk]; cbn in Hkept.
    + injection Hkept as <-. reflexivity.
    + assert (Hne : p :: pk <> []) by discriminate.
      destruct (enforce_pk_rows _ _ _ Hne Hkept) as [_ ->].
      etransitivity; [apply keep_last_sublist|apply filter_sublist].
Qed.

(** The batch of amounts: the positive version of employee 1 survives. *)
Lemma enforce_constraints_no_negative_first_witness :
  enforce_constraints batch_amounts amount_metadata (db_of [])
  = (Ok (with_rows batch_amounts [[CInt 1; CInt 5]]), db_of [])
  /\ forall r c,
       r ∈ [[CInt 1; CInt 5]] -> c ∈ numeric_cols batch_amounts ->
       negative (at_col (labels batch_amounts) r c) = false.
Proof.
  split; [reflexivity|].
  destruct (enforce_constraints_no_negative_first batch_amounts
              (with_rows batch_amounts [[CInt 1; CInt 5]]) amount_metadata
              (db_of []) (db_of []) eq_refl)
    as (_ & _ & _ & _ & _ & _ & _ & _ & _ & _ & _ & H).
  exact H.
Defined.

End RuleOrderFacts.

(** ** Calls that neither read nor write the incremental tracker *)

Module TrackerFacts.
Import MFacts.

(** Run from [e] with any other tracker content, [m] returns the same result
    and leaves the same database, the tracker as it was put. *)
Definition tracker_free_at {A} (m : M A) (e : engine) : Prop :=
  forall tr, m (set_tracker tr e) = ((m e).1, set_tracker tr (m e).2).

Definition tracker_free {A} (m : M A) : Prop := forall e, tracker_free_at m e.

Lemma set_tracker_same e : set_tracker (IncrementalTracker e) e = e.
Proof. destruct e. reflexivity. Qed.

Lemma tracker_free_at_unchanged {A} (m : M A) e :
  tracker_free_at m e -> IncrementalTracker (m e).2 = IncrementalTracker e.
Proof.
  intros H. specialize (H (IncrementalTracker e)).
  rewrite set_tracker_same in H.
  apply (f_equal (fun p => IncrementalTracker p.2)) in H. exact H.
Qed.

Lemma tf_ret {A} (a : A) : tracker_free (ret a).
Proof. intros e tr. reflexivity. Qed.

Lemma tf_lift {A} (o : outcome A) : tracker_free (lift o).
Proof. intros e tr. reflexivity. Qed.

Lemma tf_raise {A} msg : tracker_free (@raise A msg).
Proof. intros e tr. reflexivity. Qed.

Lemma tf_gets {A} (f : engine -> A) :
  (forall tr e, f (set_tracker tr e) = f e) -> tracker_free (gets f).
Proof. intros H e tr. unfold gets. rewrite H. reflexivity. Qed.

Lemma tf_modify (f : engine -> engine) :
  (forall tr e, f (set_tracker tr e) = set_tracker tr (f e)) ->
  tracker_free (modify f).
Proof. intros H e tr. unfold modify. rewrite H. reflexivity. Qed.

Lemma tfa_bind {A B} (m : M A) (k : A -> M B) e :
  tracker_free_at m e ->
  (forall a e1, m e = (Ok a, e1) -> tracker_free_at (k a) e1) ->
  tracker_free_at (bind m k) e.
Proof.
  intros Hm Hk tr. unfold bind. rewrite Hm.
  destruct (m e) as [[a|msg] e1] eqn:E; cbn [fst snd]; [|reflexivity].
  apply Hk. reflexivity.
Qed.

Lemma tf_bind {A B} (m : M A) (k : A -> M B) :
  tracker_free m -> (forall a, tracker_free (k a)) -> tracker_free (bind m k).
Proof. intros Hm Hk e. apply tfa_bind; [apply Hm|]. intros a e1 _. apply Hk. Qed.

Lemma tfa_transaction {A} (m : M A) e :
  tracker_free_at m e -> tracker_free_at (transaction m) e.
Proof.
  intros Hm tr. unfold transaction. rewrite Hm.
  destruct (m e) as [[a|msg] e1]; reflexivity.
Qed.

Lemma tf_transaction {A} (m : M A) : tracker_free m -> tracker_free (transaction m).
Proof. intros Hm e. apply tfa_transaction, Hm. Qed.

Lemma tfa_try_except {A} (m : M A) (h : string -> M A) e :
  tracker_free_at m e -> (forall x, tracker_free (h x)) ->
  tracker_free_at (try_except m h) e.
Proof.
  intros Hm Hh tr. unfold try_except. rewrite Hm.
  destruct (m e) as [[a|msg] e1]; cbn [fst snd]; [reflexivity|]. apply Hh.
Qed.

Lemma tf_try_except {A} (m : M A) (h : string -> M A) :
  tracker_free m -> (forall x, tracker_free (h x)) -> tracker_free (try_except m h).
Proof. intros Hm Hh e. apply tfa_try_except; [apply Hm|exact Hh]. Qed.

Create HintDb tracker discriminated.

#[export] Hint Resolve tf_ret tf_lift tf_raise : tracker.

(** One step of a proof that a call built from the engine primitives is
    tracker-free. *)
Ltac tf_step :=
  lazymatch goal with
  | |- tracker_free (bind _ _) => apply tf_bind; [|intros ?]
  | |- tracker_free (transaction _) => apply tf_transaction
  | |- tracker_free (try_except _ _) => apply tf_try_except; [|intros ?]
  | |- tracker_free (gets _) => apply tf_gets; intros; reflexivity
  | |- tracker_free (modify _) => apply tf_modify; intros; reflexivity
  | |- tracker_free (ret _) => apply tf_ret
  | |- tracker_free (lift _) => apply tf_lift
  | |- tracker_free (raise _) => apply tf_raise
  | |- tracker_free (if ?b then _ else _) => destruct b
  | |- tracker_free (match ?x with _ => _ end) => destruct x
  | |- tracker_free _ => solve [auto with tracker]
  end.

Ltac tf := repeat tf_step.

Lemma tf_the_table s n : tracker_free (the_table s n).
Proof.
  intros e tr. unfold the_table. cbn [sys_tables set_tracker].
  destruct (find_table s n (sys_tables e)); reflexivity.
Qed.
#[export] Hint Resolve tf_the_table : tracker.

Lemma tf_write_rows s n t rs : tracker_free (write_rows s n t rs).
Proof. unfold write_rows. tf. Qed.
#[export] Hint Resolve tf_write_rows : tracker.

Lemma tf_truncate s n : tracker_free (truncate s n).
Proof. unfold truncate. tf. Qed.
#[export] Hint Resolve tf_truncate : tracker.

Lemma tf_to_sql df n s : tracker_free (to_sql df n s).
Proof. unfold to_sql. tf. Qed.
#[export] Hint Resolve tf_to_sql : tracker.

Lemma tf_read_sql s n : tracker_free (read_sql s n).
Proof. unfold read_sql. tf. Qed.
#[export] Hint Resolve tf_read_sql : tracker.

Lemma tf_create_table s n defs fks : tracker_free (create_table s n defs fks).
Proof. unfold create_table. tf. Qed.
#[export] Hint Resolve tf_create_table : tracker.

Lemma tf_execute_create_table sql : tracker_free (execute_create_table sql).
Proof. unfold execute_create_table. tf. Qed.
#[export] Hint Resolve tf_execute_create_table : tracker.

Lemma tf_table_exists s n : tracker_free (_table_exists s n).
Proof. unfold _table_exists. tf. Qed.
#[export] Hint Resolve tf_table_exists : tracker.

Lemma tf_fetch_config job : tracker_free (_fetch_config job).
Proof. unfold _fetch_config. tf. Qed.

Lemma tf_fetch_metadata job : tracker_free (_fetch_metadata job).
Proof. unfold _fetch_metadata. tf. Qed.
#[export] Hint Resolve tf_fetch_config tf_fetch_metadata : tracker.

Lemma tf_log_job_start job stage : tracker_free (log_job_start job stage).
Proof. unfold log_job_start. tf. Qed.

Lemma tf_log_job_end job stage n st msg :
  tracker_free (log_job_end job stage n st msg).
Proof. unfold log_job_end. tf. Qed.
#[export] Hint Resolve tf_log_job_start tf_log_job_end : tracker.

Lemma tf_fk_loop rows seen acc : tracker_free (fk_loop rows seen acc).
Proof.
  revert seen acc. induction rows as [|r rows IH]; intros seen acc; cbn [fk_loop].
  - tf.
  - tf_step; [tf|]. tf_step; [|apply IH]. tf_step; [tf|].
    destruct (get r "ReferenceTable"); try apply tf_raise.
    destruct (fk_reference s) as [ref_schema ref_table].
    tf_step; [apply IH|]. tf_step; [tf|]. tf_step; apply IH.
Qed.

Lemma tf_foreign_key_clauses rows : tracker_free (_foreign_key_clauses rows).
Proof. apply tf_fk_loop. Qed.
#[export] Hint Resolve tf_foreign_key_clauses : tracker.

Lemma tf_table_step job rows0 schema table cols errs :
  tracker_free (table_step job rows0 schema table cols errs).
Proof.
  unfold table_step. tf_step; [tf|]. tf_step; [tf|]. tf_step; [tf|].
  tf_step; [tf|]. tf_step; [tf|].
  destruct (_validate_primary_keys _ _ _ _); [|tf].
  destruct (column_loop _ _ _ _ _ _ _) as [col_defs errs'].
  tf.
Qed.
#[export] Hint Resolve tf_table_step : tracker.

Lemma tf_tables_loop job rows0 groups errs :
  tracker_free (tables_loop job rows0 groups errs).
Proof.
  revert errs. induction groups as [|[[schema table] cols] groups IH];
    intros errs; cbn [tables_loop]; [tf|].
  tf_step; [tf|]. apply IH.
Qed.
#[export] Hint Resolve tf_tables_loop : tracker.

Lemma tf_create_target_tables job : tracker_free (create_target_tables job).
Proof. unfold create_target_tables. tf. Qed.
#[export] Hint Resolve tf_create_target_tables : tracker.

Lemma tf_full_load df s t : tracker_free (full_load df s t).
Proof. unfold full_load. tf. Qed.
#[export] Hint Resolve tf_full_load : tracker.

End TrackerFacts.

(** ** Full and incremental loads against the target table *)

Module LoadFacts.
Import MFacts TrackerFacts Samples.

Lemma find_table_same s n ts tb :
  find_table s n ts = Some tb -> same_table s n tb = true.
Proof. unfold find_table. intros H. apply find_some in H. tauto. Qed.

Lemma find_put_table s n ts tb x :
  find_table s n ts = Some tb -> same_table s n x = true ->
  find_table s n (put_table s n x ts) = Some x.
Proof.
  unfold find_table. induction ts as [|t ts IH]; cbn; [discriminate|].
  intros H Hx. destruct (same_table s n t) eqn:E; cbn.
  - rewrite Hx. reflexivity.
  - rewrite E. auto.
Qed.

Lemma put_put_table s n ts x y :
  same_table s n x = true ->
  put_table s n y (put_table s n x ts) = put_table s n y ts.
Proof.
  intros Hx. induction ts as [|t ts IH]; cbn; [reflexivity|].
  destruct (same_table s n t) eqn:E; cbn.
  - rewrite Hx. reflexivity.
  - rewrite E, IH. reflexivity.
Qed.

Lemma same_table_with_rows s n tb rs :
  same_table s n (with_t_rows tb rs) = same_table s n tb.
Proof. reflexivity. Qed.

(** The target once truncated. *)
Definition truncated (s t : string) (tb : table) (e : engine) : engine :=
  set_tables (put_table s t (with_t_rows tb []) (sys_tables e)) e.

(** What [full_load] returns and leaves behind, case by case: no target
    table; an empty batch; a batch the store refuses; a batch it takes. *)
Lemma full_load_cases df s t e :
  full_load df s t e =
  match find_table s t (sys_tables e) with
  | None =>
      (Ok {| status := "error"; rows_written := None;
             message := invalid_object s t |}, e)
  | Some tb =>
      let done := {| status := "success"; rows_written := Some (len df);
                     message := "Full load completed: " +:+ pretty (len df) +:+ " rows" |} in
      let new := map (to_srow (labels df)) (rows df) in
      if empty df then (Ok done, truncated s t tb e)
      else if negb (cols_ok tb (labels df)) then
        (Ok {| status := "error"; rows_written := None;
               message := "Invalid column name." |}, truncated s t tb e)
      else if negb (forallb (row_ok tb) new) then
        (Ok {| status := "error"; rows_written := None;
               message := "Cannot insert the value NULL into a column that does not allow nulls. INSERT fails." |},
         truncated s t tb e)
      else
        (Ok done, set_tables (put_table s t (with_t_rows tb new) (sys_tables e)) e)
  end.
Proof.
  unfold full_load, try_except, bind at 1, transaction, truncate, bind at 1, the_table.
  destruct (find_table s t (sys_tables e)) as [tb|] eqn:Hfind; [|reflexivity].
  cbn [write_rows modify]. unfold write_rows, modify.
  fold (truncated s t tb e).
  unfold bind at 1. destruct (empty df); cbn [negb]; [reflexivity|].
  unfold to_sql, transaction, bind at 1, gets.
  assert (Hsame : same_table s t (with_t_rows tb []) = true).
  { rewrite same_table_with_rows. eapply find_table_same. exact Hfind. }
  assert (Hf : find_table s t (sys_tables (truncated s t tb e))
               = Some (with_t_rows tb [])).
  { unfold truncated. cbn [sys_tables set_tables].
    eapply find_put_table; eassumption. }
  rewrite Hf.
  change (cols_ok (with_t_rows tb []) (labels df)) with (cols_ok tb (labels df)).
  destruct (cols_ok tb (labels df)); cbn [negb]; [|reflexivity].
  change (row_ok (with_t_rows tb [])) with (row_ok tb).
  destruct (forallb (row_ok tb) _); cbn [negb]; [|reflexivity].
  unfold write_rows, modify, ret. cbn [bind].
  unfold bind, truncated. cbn [sys_tables set_tables t_rows with_t_rows app].
  rewrite put_put_table by exact Hsame.
  reflexivity.
Qed.

Lemma tfa_bind_lift {A B} (o : outcome A) (k : A -> M B) e :
  (forall a, o = Ok a -> tracker_free_at (k a) e) ->
  tracker_free_at (bind (lift o) k) e.
Proof.
  intros H. destruct o as [a|msg].
  - exact (H a eq_refl).
  - intros tr. reflexivity.
Qed.

Lemma item_get d k v : item d k = Ok v -> get d k = v.
Proof.
  unfold item, get. destruct (d !! k); intros H; [|discriminate].
  injection H as ->. reflexivity.
Qed.

(** With [LoadType] full, [load_curated_to_processed] runs no step that
    reads or writes the tracker. *)
Lemma tfa_curated_to_processed_full job e config cs :
  List.filter (for_job job) (Config e) = config :: cs ->
  lower (str (get config "LoadType")) = "full" ->
  tracker_free_at (load_curated_to_processed job) e.
Proof.
  intros Hcfg Hfull. unfold load_curated_to_processed.
  apply tfa_bind; [apply tf_log_job_start|]. intros u e0 Hstart.
  assert (Hcfg0 : List.filter (for_job job) (Config e0) = config :: cs).
  { unfold log_job_start, transaction, bind, gets, modify in Hstart.
    injection Hstart as _ He. subst e0. exact Hcfg. }
  clear Hstart Hcfg. revert e0 Hcfg0. intros e0 Hcfg.
  apply tfa_try_except;
    [|intros x; unfold tracker_free; apply tf_bind;
      [apply tf_log_job_end|intros; apply tf_ret]].
  unfold curated_to_processed_body.
  apply tfa_bind; [apply tf_fetch_config|]. intros rows e1 Hrows.
  unfold _fetch_config, gets in Hrows. injection Hrows as <- <-. rewrite Hcfg.
  apply tfa_bind; [apply tf_fetch_metadata|]. intros metadata e1 _.
  destruct metadata as [|m0 metadata]; [apply tf_ret|].
  do 4 (apply tfa_bind_lift; intros ? _).
  apply tfa_bind_lift. intros lt Hlt. apply item_get in Hlt. subst lt.
  cbv zeta. rewrite Hfull. cbn [String.eqb Ascii.eqb Bool.eqb].
  match goal with
  | |- tracker_free_at ?m _ => cut (tracker_free m); [intros Hm; apply Hm|]
  end.
  tf.
Qed.

Lemma tf_select_distinct c s n : tracker_free (select_distinct c s n).
Proof. unfold select_distinct. tf. Qed.
#[export] Hint Resolve tf_select_distinct : tracker.

Lemma tf_enforce_fk rules df : tracker_free (enforce_fk rules df).
Proof.
  revert df. induction rules as [|rule rules IH]; intros df; cbn [enforce_fk];
    [tf|].
  tf_step; [tf|]. destruct (fk_lookup rule) as [ref_schema ref_table].
  tf_step; [tf|]. apply IH.
Qed.
#[export] Hint Resolve tf_enforce_fk : tracker.

Lemma tf_enforce_constraints df md : tracker_free (enforce_constraints df md).
Proof. unfold enforce_constraints, enforce_pk_fk. tf. Qed.
#[export] Hint Resolve tf_enforce_constraints : tracker.

(** The same holds of the other two stage handlers when [LoadType] is full. *)
Lemma tfa_raw_to_curated_full clean_cast job e config cs :
  List.filter (for_job job) (Config e) = config :: cs ->
  lower (str (get config "LoadType")) = "full" ->
  tracker_free_at (load_raw_to_curated clean_cast job) e.
Proof.
  intros Hcfg Hfull. unfold load_raw_to_curated.
  apply tfa_bind; [apply tf_log_job_start|]. intros u e0 Hstart.
  assert (Hcfg0 : List.filter (for_job job) (Config e0) = config :: cs).
  { unfold log_job_start, transaction, bind, gets, modify in Hstart.
    injection Hstart as _ He. subst e0. exact Hcfg. }
  clear Hstart Hcfg. revert e0 Hcfg0. intros e0 Hcfg.
  apply tfa_try_except;
    [|intros x; unfold tracker_free; apply tf_bind;
      [apply tf_log_job_end|intros; apply tf_ret]].
  unfold raw_to_curated_body.
  apply tfa_bind; [apply tf_fetch_config|]. intros rows e1 Hrows.
  unfold _fetch_config, gets in Hrows. injection Hrows as <- <-. rewrite Hcfg.
  apply tfa_bind; [apply tf_fetch_metadata|]. intros metadata e1 _.
  destruct metadata as [|m0 metadata]; [apply tf_ret|].
  do 4 (apply tfa_bind_lift; intros ? _).
  apply tfa_bind_lift. intros lt Hlt. apply item_get in Hlt. subst lt.
  cbv zeta. rewrite Hfull. cbn [String.eqb Ascii.eqb Bool.eqb].
  match goal with
  | |- tracker_free_at ?m _ => cut (tracker_free m); [intros Hm; apply Hm|]
  end.
  tf.
Qed.

Lemma tf_insert_raw df s t : tracker_free (_insert_raw df s t).
Proof. unfold _insert_raw. tf. Qed.
#[export] Hint Resolve tf_insert_raw : tracker.

Lemma tfa_source_to_raw_full isdir glob reader job e config cs :
  List.filter (for_job job) (Config e) = config :: cs ->
  lower (str (get config "LoadType")) = "full" ->
  tracker_free_at (load_source_to_raw isdir glob reader job) e.
Proof.
  intros Hcfg Hfull. unfold load_source_to_raw.
  apply tfa_bind; [apply tf_log_job_start|]. intros u e0 Hstart.
  assert (Hcfg0 : List.filter (for_job job) (Config e0) = config :: cs).
  { unfold log_job_start, transaction, bind, gets, modify in Hstart.
    injection Hstart as _ He. subst e0. exact Hcfg. }
  clear Hstart Hcfg. revert e0 Hcfg0. intros e0 Hcfg.
  apply tfa_try_except;
    [|intros x; unfold tracker_free; apply tf_bind;
      [apply tf_log_job_end|intros; apply tf_ret]].
  apply tfa_bind; [apply tf_fetch_config|]. intros rows e1 Hrows.
  unfold _fetch_config, gets in Hrows. injection Hrows as <- <-. rewrite Hcfg.
  apply tfa_bind; [apply tf_fetch_metadata|]. intros metadata e1 _.
  destruct metadata as [|m0 metadata];
    [unfold tracker_free_at; apply tf_bind; [apply tf_log_job_end|intros; apply tf_ret]|].
  unfold source_to_raw_body.
  do 2 (apply tfa_bind_lift; intros ? _).
  apply tfa_bind_lift. intros lt Hlt. apply item_get in Hlt. subst lt.
  cbv zeta. rewrite Hfull. cbn [String.eqb Ascii.eqb Bool.eqb].
  match goal with
  | |- tracker_free_at ?m _ => cut (tracker_free m); [intros Hm; apply Hm|]
  end.
  tf.
Qed.

(** C8: [full_load] neither reads nor writes the IncrementalTracker: run
    with any tracker content it returns the same result and leaves the same
    tables, the tracker as it found it.  Given a target table that takes the
    columns and the rows of a batch with columns, it returns [success] with
    the number of rows of the batch, and leaves the target holding exactly
    the rows of the batch, in order, whatever the target held before: the
    truncate, then the append of the whole batch.  Conversely, when it
    reports success the target existed and holds exactly the batch.
    [load_curated_to_processed] on a job whose [LoadType] is full leaves the
    tracker untouched as well. *)
Theorem full_load_never_touches_tracker :
  (forall df s t, tracker_free (full_load df s t))
  /\ (forall df s t e,
        IncrementalTracker (full_load df s t e).2 = IncrementalTracker e)
  /\ (forall df s t e tb,
        find_table s t (sys_tables e) = Some tb ->
        columns df <> [] ->
        cols_ok tb (labels df) = true ->
        forallb (row_ok tb) (map (to_srow (labels df)) (rows df)) = true ->
        full_load df s t e
        = (Ok {| status := "success"; rows_written := Some (len df);
                 message := "Full load completed: " +:+ pretty (len df) +:+ " rows" |},
           set_tables
             (put_table s t (with_t_rows tb (map (to_srow (labels df)) (rows df)))
                        (sys_tables e)) e)
        /\ find_table s t (sys_tables (full_load df s t e).2)
           = Some (with_t_rows tb (map (to_srow (labels df)) (rows df))))
  /\ (forall df s t e r e',
        full_load df s t e = (Ok r, e') ->
        status r = "success" -> columns df <> [] ->
        rows_written r = Some (len df)
        /\ exists tb,
             find_table s t (sys_tables e) = Some tb
             /\ find_table s t (sys_tables e')
                = Some (with_t_rows tb (map (to_srow (labels df)) (rows df))))
  /\ (forall job e config cs,
        List.filter (for_job job) (Config e) = config :: cs ->
        lower (str (get config "LoadType")) = "full" ->
        tracker_free_at (load_curated_to_processed job) e
        /\ IncrementalTracker (load_curated_to_processed job e).2
           = IncrementalTracker e).
Proof.
  split; [exact tf_full_load|].
  split; [intros; apply tracker_free_at_unchanged, tf_full_load|].
  split.
  { intros df s t e tb Hfind Hcols Hok Hrows.
    assert (Hsame : forall rs, same_table s t (with_t_rows tb rs) = true).
    { intros rs. rewrite same_table_with_rows. eapply find_table_same. eassumption. }
    assert (Hrun : full_load df s t e
      = (Ok {| status := "success"; rows_written := Some (len df);
               message := "Full load completed: " +:+ pretty (len df) +:+ " rows" |},
         set_tables
           (put_table s t (with_t_rows tb (map (to_srow (labels df)) (rows df)))
                      (sys_tables e)) e)).
    { rewrite full_load_cases, Hfind. cbv zeta. destruct (empty df) eqn:Hempty.
      - assert (Hnil : rows df = []).
        { unfold empty in Hempty. destruct (rows df); [reflexivity|].
          destruct (columns df); [congruence|discriminate]. }
        unfold truncated. rewrite Hnil. reflexivity.
      - rewrite Hok, Hrows. reflexivity. }
    split; [exact Hrun|]. rewrite Hrun. cbn [snd sys_tables set_tables].
    apply (find_put_table s t (sys_tables e) tb _ Hfind). apply Hsame. }
  split.
  - intros df s t e r e' H Hok Hcols. rewrite full_load_cases in H.
    destruct (find_table s t (sys_tables e)) as [tb|] eqn:Hfind.
    + assert (Hsame : forall rs, same_table s t (with_t_rows tb rs) = true).
      { intros rs. rewrite same_table_with_rows. eapply find_table_same. eassumption. }
      cbv zeta in H. destruct (empty df) eqn:Hempty.
      * injection H as <- <-. split; [reflexivity|]. exists tb. split; [reflexivity|].
        assert (Hrows : rows df = []).
        { unfold empty in Hempty. destruct (rows df); [reflexivity|].
          destruct (columns df); [congruence|discriminate]. }
        rewrite Hrows. unfold truncated. cbn [sys_tables set_tables map].
        eapply find_put_table; [eassumption|apply Hsame].
      * destruct (negb (cols_ok tb (labels df)));
          [injection H as <- <-; discriminate|].
        destruct (negb (forallb (row_ok tb) _));
          [injection H as <- <-; discriminate|].
        injection H as <- <-. split; [reflexivity|]. exists tb. split; [reflexivity|].
        cbn [sys_tables set_tables]. eapply find_put_table; [eassumption|apply Hsame].
    + injection H as <- <-. discriminate.
  - intros job e config cs Hcfg Hfull.
    pose proof (tfa_curated_to_processed_full job e config cs Hcfg Hfull) as H.
    split; [exact H|]. apply tracker_free_at_unchanged. exact H.
Qed.

(** *** A load that fails part-way *)

Lemma lower_staging_neq t : lower (t +:+ "_staging") <> lower t.
Proof.
  induction t as [|c t IH]; cbn; [discriminate|].
  intros H. injection H as H. exact (IH H).
Qed.

(** No table answers to both the target name and the staging name. *)
Lemma staging_is_other s t x :
  same_table s t x = true -> same_table s (t +:+ "_staging") x = false.
Proof.
  unfold same_table. intros H. apply andb_true_iff in H as [_ H].
  apply String.eqb_eq in H. apply andb_false_iff. right.
  apply String.eqb_neq. rewrite H. intros E. symmetry in E.
  exact (lower_staging_neq t E).
Qed.

Lemma target_is_other s t x :
  same_table s (t +:+ "_staging") x = true -> same_table s t x = false.
Proof.
  intros H. destruct (same_table s t x) eqn:E; [|reflexivity].
  apply staging_is_other in E. congruence.
Qed.

Lemma find_table_drop_other s t ts :
  find_table s t (drop_table s (t +:+ "_staging") ts) = find_table s t ts.
Proof.
  unfold find_table. induction ts as [|x ts IH]; cbn; [reflexivity|].
  destruct (same_table s (t +:+ "_staging") x) eqn:E.
  - rewrite (target_is_other _ _ _ E). reflexivity.
  - cbn. rewrite IH. reflexivity.
Qed.

Lemma find_table_app_other s t ts x :
  same_table s t x = false -> find_table s t (ts ++ [x]) = find_table s t ts.
Proof.
  unfold find_table. intros H. induction ts as [|y ts IH]; cbn.
  - rewrite H. reflexivity.
  - rewrite IH. reflexivity.
Qed.

Lemma find_table_put_other s t ts y :
  same_table s (t +:+ "_staging") y = true ->
  find_table s t (put_table s (t +:+ "_staging") y ts) = find_table s t ts.
Proof.
  unfold find_table. intros Hy. induction ts as [|x ts IH]; cbn; [reflexivity|].
  destruct (same_table s (t +:+ "_staging") x) eqn:E; cbn.
  - rewrite (target_is_other _ _ _ E), (target_is_other _ _ _ Hy). reflexivity.
  - rewrite IH. reflexivity.
Qed.

(** The target table and the tracker are as they were. *)
Definition target_kept (s t : string) (e e' : engine) : Prop :=
  find_table s t (sys_tables e') = find_table s t (sys_tables e)
  /\ IncrementalTracker e' = IncrementalTracker e.

Lemma target_kept_refl s t e : target_kept s t e e.
Proof. split; reflexivity. Qed.

Lemma target_kept_trans s t e1 e2 e3 :
  target_kept s t e1 e2 -> target_kept s t e2 e3 -> target_kept s t e1 e3.
Proof. intros [H1 H2] [H3 H4]. split; congruence. Qed.

Lemma transaction_raise {A} (m : M A) e x e' :
  transaction m e = (Raise x, e') -> e' = e.
Proof.
  unfold transaction. destruct (m e) as [[a|y] e1]; intros H; [discriminate|].
  injection H as _ <-. reflexivity.
Qed.

Lemma staging_created_target_kept s t defs e :
  target_kept s t e
    (transaction (drop_if_exists s (t +:+ "_staging") ;;;
                  create_table s (t +:+ "_staging") defs []) e).2.
Proof.
  unfold transaction, bind at 1, drop_if_exists, modify, create_table, bind, gets.
  cbn [sys_tables set_tables].
  destruct (bool_decide (defs = [])); [apply target_kept_refl|].
  destruct (negb _); [apply target_kept_refl|].
  destruct (bool_decide (is_Some _)); [apply target_kept_refl|].
  cbn [modify snd]. split; [|reflexivity]. cbn [sys_tables set_tables].
  rewrite find_table_app_other, find_table_drop_other; [reflexivity|].
  apply target_is_other. unfold same_table. cbn [t_schema t_name].
  rewrite !String.eqb_refl. reflexivity.
Qed.

Lemma to_sql_staging_target_kept df s t e :
  target_kept s t e (to_sql df (t +:+ "_staging") s e).2.
Proof.
  unfold to_sql, transaction, bind, gets.
  destruct (find_table s (t +:+ "_staging") (sys_tables e)) as [tb|] eqn:Hf.
  - destruct (negb (cols_ok tb (labels df))); [apply target_kept_refl|].
    destruct (negb (forallb _ _)); [apply target_kept_refl|].
    unfold write_rows, modify. cbn [snd]. split; [|reflexivity].
    cbn [sys_tables set_tables]. apply find_table_put_other.
    rewrite same_table_with_rows. eapply find_table_same. exact Hf.
  - unfold modify. cbn [snd]. split; [|reflexivity].
    cbn [sys_tables set_tables]. apply find_table_app_other.
    apply target_is_other. unfold same_table. cbn [t_schema t_name].
    rewrite !String.eqb_refl. reflexivity.
Qed.

(** The [try] block of [incremental_load] either succeeds or raises with the
    target as it was: nothing touches the target before the [MERGE], and a
    [MERGE] that fails is rolled back. *)
Lemma incremental_load_body_cases job s t md df stage keys e :
  match incremental_load_body job s t md df stage keys e with
  | (Ok r, _) => status r = "success"
  | (Raise _, e') => target_kept s t e e'
  end.
Proof.
  unfold incremental_load_body. unfold bind at 1, lift.
  destruct (columns_in md df) as [target_cols|x]; [|apply target_kept_refl].
  unfold bind at 1. destruct (select target_cols df) as [df'|x];
    [|apply target_kept_refl].
  destruct (empty df') eqn:Hempty; [reflexivity|]. cbn [negb].
  unfold bind at 1.
  pose proof (staging_created_target_kept s t
                (map (fun c => "[" +:+ c +:+ "] NVARCHAR(MAX)") target_cols) e) as H1.
  destruct (transaction _ e) as [[u1|x] e1]; cbn [snd] in H1; [|exact H1].
  unfold bind at 1.
  pose proof (to_sql_staging_target_kept df' s t e1) as H2.
  destruct (to_sql df' (t +:+ "_staging") s e1) as [[u2|x] e2]; cbn [snd] in H2;
    [|eapply target_kept_trans; eassumption].
  unfold bind at 1.
  destruct (transaction _ e2) as [[u3|x] e3] eqn:H3.
  - unfold bind, gets, _update_incremental_tracker, transaction, modify, ret.
    reflexivity.
  - apply transaction_raise in H3. subst e3.
    eapply target_kept_trans; eassumption.
Qed.

(** C6, as stated, fails for a Full load: the batch [(2, NULL)] is refused by
    a target that takes no nulls, and the target, which held employee 1, is
    left empty. *)
Lemma full_load_failed_append_leaves_target_empty :
  let e := db_of [strict_emp [emp_row 1 "z"]] in
  let r := full_load batch_null_name "processed" "emp" e in
  (status <$> match r.1 with Ok x => Some x | Raise _ => None end) = Some "error"
  /\ sys_tables r.2 = [strict_emp []]
  /\ find_table "processed" "emp" (sys_tables r.2)
     <> find_table "processed" "emp" (sys_tables e).
Proof.
  split; [reflexivity|]. split; [reflexivity|].
  vm_compute. discriminate.
Qed.

(** C6, amended: an incremental staged load that reports an error - whether
    the staging step or the [MERGE] failed - leaves the target table and the
    tracker as they were.  A Full load commits its truncate on its own: when
    the append that follows fails, the target is left truncated, and nothing
    else has changed. *)
Theorem failed_load_effect_on_target :
  (forall job s t md df stage keys e r e',
     incremental_load job s t md df stage keys e = (Ok r, e') ->
     status r = "error" ->
     find_table s t (sys_tables e') = find_table s t (sys_tables e)
     /\ IncrementalTracker e' = IncrementalTracker e)
  /\ (forall df s t e r e' tb,
        full_load df s t e = (Ok r, e') ->
        status r = "error" ->
        find_table s t (sys_tables e) = Some tb ->
        e' = truncated s t tb e
        /\ find_table s t (sys_tables e') = Some (with_t_rows tb [])).
Proof.
  split.
  - intros job s t md df stage keys e r e' H Herr.
    unfold incremental_load, try_except in H.
    pose proof (incremental_load_body_cases job s t md df stage keys e) as Hb.
    destruct (incremental_load_body job s t md df stage keys e) as [[r0|x] e0].
    + injection H as <- <-. rewrite Hb in Herr. discriminate.
    + unfold ret in H. injection H as <- <-. exact Hb.
  - intros df s t e r e' tb H Herr Hfind. rewrite full_load_cases, Hfind in H.
    assert (Hf : find_table s t (sys_tables (truncated s t tb e))
                 = Some (with_t_rows tb [])).
    { unfold truncated. cbn [sys_tables set_tables].
      eapply find_put_table; [eassumption|].
      rewrite same_table_with_rows. eapply find_table_same. eassumption. }
    cbv zeta in H. destruct (empty df).
    { injection H as <- <-. discriminate. }
    destruct (negb (cols_ok tb (labels df))).
    { injection H as <- <-. auto. }
    destruct (negb (forallb (row_ok tb) _)).
    { injection H as <- <-. auto. }
    injection H as <- <-. discriminate.
Qed.

(** The refused batch, loaded incrementally and in full. *)
Lemma failed_load_effect_on_target_witness :
  let e := db_of [strict_emp [emp_row 1 "z"]] in
  find_table "processed" "emp"
    (sys_tables (incremental_load "JOB_EMP_PROCESSED" "processed" "emp" emp_metadata
                   batch_null_name "curated_processed" ["EmpId"] e).2)
  = Some (strict_emp [emp_row 1 "z"])
  /\ (full_load batch_null_name "processed" "emp" e).2
     = truncated "processed" "emp" (strict_emp [emp_row 1 "z"]) e.
Proof.
  intros e. destruct failed_load_effect_on_target as [Hinc Hfull]. split.
  - destruct (incremental_load "JOB_EMP_PROCESSED" "processed" "emp" emp_metadata
                batch_null_name "curated_processed" ["EmpId"] e) as [o e'] eqn:E.
    assert (Ho : exists r, o = Ok r /\ status r = "error").
    { apply (f_equal fst) in E. vm_compute in E. subst o. eauto. }
    destruct Ho as (r & -> & Hr).
    destruct (Hinc _ _ _ _ _ _ _ _ _ _ E Hr) as [H _]. exact H.
  - destruct (full_load batch_null_name "processed" "emp" e) as [o e'] eqn:E.
    assert (Ho : exists r, o = Ok r /\ status r = "error").
    { apply (f_equal fst) in E. vm_compute in E. subst o. eauto. }
    destruct Ho as (r & -> & Hr).
    destruct (Hfull _ _ _ _ _ _ (strict_emp [emp_row 1 "z"]) E Hr eq_refl) as [H _].
    exact H.
Defined.

(** *** A null SCDType *)

(** X26: Whatever else the database holds, a job whose Config row has a null
    [SCDType] is reported failed by [load_curated_to_processed], which
    changes no table and no tracker row. *)
Lemma null_scd_type_always_fails job e config cs :
  List.filter (for_job job) (Config e) = config :: cs ->
  config !! "SCDType" = Some PNone ->
  exists r,
    (load_curated_to_processed job e).1 = Ok r
    /\ status r = "error"
    /\ sys_tables (load_curated_to_processed job e).2 = sys_tables e
    /\ IncrementalTracker (load_curated_to_processed job e).2 = IncrementalTracker e.
Proof.
  intros Hcfg Hscd.
  destruct (load_curated_to_processed job e) as [o e'] eqn:E. cbn [fst snd].
  revert E.
  unfold load_curated_to_processed, bind at 1, log_job_start, transaction,
    bind at 1, gets, modify.
  unfold try_except, curated_to_processed_body, bind at 1, _fetch_config, gets.
  cbn [Config set_audit]. rewrite Hcfg.
  unfold bind at 1, _fetch_metadata, gets. cbn [Metadata set_audit].
  assert (Hint : int (get_or config "SCDType" (PInt 1))
                 = Raise "int() argument must be a string, a bytes-like object or a real number, not 'NoneType'").
  { unfold get_or. rewrite Hscd. reflexivity. }
  destruct (List.filter (for_job job) (Metadata e)) as [|m0 md];
    [intros E; injection E as <- <-; eexists; repeat split|].
  unfold bind at 1, lift, item.
  destruct (config !! "SourceSchema");
    [|intros E; injection E as <- <-; eexists; repeat split].
  unfold bind at 1.
  destruct (config !! "SourceTable");
    [|intros E; injection E as <- <-; eexists; repeat split].
  unfold bind at 1.
  destruct (config !! "TargetSchema");
    [|intros E; injection E as <- <-; eexists; repeat split].
  unfold bind at 1.
  destruct (config !! "TargetTable");
    [|intros E; injection E as <- <-; eexists; repeat split].
  unfold bind at 1.
  destruct (config !! "LoadType");
    [|intros E; injection E as <- <-; eexists; repeat split].
  unfold bind at 1. rewrite Hint.
  intros E; injection E as <- <-; eexists; repeat split.
Qed.

(** C4: on an incremental processed job whose [SCDType] is null,
    [load_curated_to_processed] reports an error - [int(None)] raises before
    any row is read - creates no staging table, merges nothing and writes no
    tracker row.  The staged upsert runs when [SCDType] holds a number other
    than 1 and 2. *)
Theorem load_curated_to_processed_null_scd_type_fails :
  let e := db_processed "incremental" PNone in
  let r := load_curated_to_processed "JOB_EMP_PROCESSED" e in
  let r0 := load_curated_to_processed "JOB_EMP_PROCESSED"
              (db_processed "incremental" (PInt 0)) in
  r.1 = Ok {| status := "error"; rows_written := Some 0;
              message := "int() argument must be a string, a bytes-like object or a real number, not 'NoneType'" |}
  /\ sys_tables r.2 = sys_tables e
  /\ IncrementalTracker r.2 = ∅
  /\ (a_status <$> JobAudit r.2) = ["failed"]
  /\ r0.1 = Ok {| status := "success"; rows_written := Some 1;
                  message := "Incremental MERGE completed: 1 rows processed" |}
  /\ find_table "processed" "emp" (sys_tables r0.2)
     = Some (processed_emp [emp_row 1 "z"]).
Proof. vm_compute. repeat split. Qed.

(** The full processed job of the samples, run with a tracker row in place. *)
Lemma full_load_never_touches_tracker_witness :
  let tracked : gmap (string * string) datetime :=
    {[ ("JOB_EMP_PROCESSED", "curated_processed") := t0 ]} in
  let e := set_tracker tracked (db_of [processed_emp [emp_row 7 "old"]]) in
  let e1 := set_tracker tracked (db_processed "full" (PInt 1)) in
  full_load batch_two_versions "processed" "emp" e
  = (Ok {| status := "success"; rows_written := Some 2;
           message := "Full load completed: 2 rows" |},
     set_tracker tracked (db_of [processed_emp [emp_row 1 "a"; emp_row 1 "b"]]))
  /\ find_table "processed" "emp"
       (sys_tables (full_load batch_two_versions "processed" "emp" e).2)
     = Some (processed_emp [emp_row 1 "a"; emp_row 1 "b"])
  /\ IncrementalTracker (full_load batch_two_versions "processed" "emp" e).2 = tracked
  /\ IncrementalTracker (load_curated_to_processed "JOB_EMP_PROCESSED" e1).2 = tracked.
Proof.
  intros tracked e e1.
  destruct full_load_never_touches_tracker as (_ & H2 & H3 & _ & H5).
  destruct (H3 batch_two_versions "processed" "emp" e
              (processed_emp [emp_row 7 "old"]))
    as [Hrun Htarget]; [reflexivity|discriminate|reflexivity|reflexivity|].
  split; [exact Hrun|]. split; [exact Htarget|].
  split; [exact (H2 batch_two_versions "processed" "emp" e)|].
  apply (H5 "JOB_EMP_PROCESSED" e1 (cfg_processed "full" (PInt 1)) []);
    reflexivity.
Defined.

End LoadFacts.

(** ** SCD2 history under batches with one row per key *)

Module HistoryFacts.
Import MFacts FrameFacts ScdFacts.

Lemma cell_of_insert r c v : cell_of (<[c := v]> r) c = v.
Proof. unfold cell_of. rewrite lookup_insert_eq. reflexivity. Qed.

Lemma cell_of_insert_ne r c c' v :
  c <> c' -> cell_of (<[c := v]> r) c' = cell_of r c'.
Proof. intros H. unfold cell_of. rewrite lookup_insert_ne by exact H. reflexivity. Qed.

Lemma cell_of_tabulate (f : string -> cell) cs c :
  c ∈ cs -> cell_of (list_to_map (map (fun c => (c, f c)) cs)) c = f c.
Proof.
  induction cs as [|c0 cs IH]; intros H.
  - apply elem_of_nil in H. contradiction.
  - cbn [map]. rewrite list_to_map_cons.
    destruct (decide (c0 = c)) as [->|Hne].
    + apply cell_of_insert.
    + rewrite cell_of_insert_ne by exact Hne.
      apply IH. apply elem_of_cons in H as [H|H]; [congruence|exact H].
Qed.

Lemma cell_of_insert_from cs s c :
  c ∈ cs -> cell_of (insert_from cs s) c = cell_of s c.
Proof. apply cell_of_tabulate. Qed.

Section Rows.
Variables (key_columns target_cols : list string).
Variables (start_col end_col current_col : string) (now : datetime).

Hypothesis keys_in_target : forall c, c ∈ key_columns -> c ∈ target_cols.
Hypothesis start_not_key : start_col ∉ key_columns.
Hypothesis end_not_key : end_col ∉ key_columns.
Hypothesis current_not_key : current_col ∉ key_columns.

Let cols := non_key key_columns target_cols.
Let key_of (t : srow) : list cell := map (cell_of t) key_columns.
Let current (k : list cell) := current_rows key_columns current_col k.
Let close := close_rows key_columns cols end_col current_col now.
Let open := open_rows key_columns target_cols cols start_col end_col current_col now.
Let version := new_version target_cols start_col end_col current_col now.

Lemma key_of_version s : key_of (version s) = key_of s.
Proof.
  unfold key_of, version, new_version. apply map_ext_in. intros c Hc.
  apply list_elem_of_In in Hc.
  rewrite !cell_of_insert_ne by (intros ->; contradiction).
  apply cell_of_insert_from, keys_in_target, Hc.
Qed.

Lemma version_is_current s : is_current current_col (version s) = true.
Proof.
  unfold is_current, version, new_version. rewrite cell_of_insert. reflexivity.
Qed.

(** With a key free of nulls, the [ON] clause holds exactly of the rows of
    that key. *)
Lemma key_match_key t s :
  (forall c, c ∈ key_columns -> cell_of s c <> CNull) ->
  key_match key_columns t s = bool_decide (key_of t = key_of s).
Proof.
  unfold key_match, key_of. clear keys_in_target start_not_key end_not_key
    current_not_key. induction key_columns as [|c cs IH]; intros H.
  - reflexivity.
  - cbn [forallb map].
    rewrite IH by (intros c' Hc'; apply H; right; exact Hc').
    assert (Hs : cell_of s c <> CNull) by (apply H; left).
    assert (Hc : sql_eq (cell_of t c) (cell_of s c)
                 = bool_decide (cell_of t c = cell_of s c)).
    { unfold sql_eq. destruct (cell_of t c) eqn:Et, (cell_of s c) eqn:Es;
        try reflexivity; try congruence;
        symmetry; apply bool_decide_eq_false; discriminate. }
    rewrite Hc.
    destruct (decide (cell_of t c = cell_of s c)) as [E|E];
      [rewrite (bool_decide_eq_true_2 _ E)|rewrite (bool_decide_eq_false_2 _ E)];
      cbn [andb].
    + destruct (decide (map (cell_of t) cs = map (cell_of s) cs)) as [E'|E'].
      * rewrite !bool_decide_eq_true_2; [reflexivity|congruence|exact E'].
      * rewrite !bool_decide_eq_false_2; [reflexivity| |exact E'].
        intros Heq. injection Heq as _ Heq. contradiction.
    + symmetry. apply bool_decide_eq_false. intros Heq.
      injection Heq as Heq _. contradiction.
Qed.

(** The close step leaves current exactly the current rows that no batch row
    of their key changes. *)
Lemma current_close k S T :
  current k (close S T)
  = List.filter
      (fun t => negb (existsb (fun s => key_match key_columns t s && changed cols t s) S))
      (current k T).
Proof.
  unfold current, current_rows, close, close_rows.
  induction T as [|t T IH]; [reflexivity|]. cbn [map List.filter].
  destruct (is_current current_col t) eqn:Hc; cbn [andb].
  - destruct (existsb _ S) eqn:Hx.
    + assert (Hclosed : is_current current_col
                 (<[current_col := CInt 0]> (<[end_col := CTime now]> t)) = false).
      { unfold is_current. rewrite cell_of_insert. reflexivity. }
      rewrite Hclosed. cbn [andb].
      destruct (bool_decide (map (cell_of t) key_columns = k));
        cbn [List.filter]; [rewrite Hx|]; exact IH.
    + rewrite Hc. cbn [andb].
      destruct (bool_decide (map (cell_of t) key_columns = k));
        cbn [List.filter]; [rewrite Hx; cbn [negb]; f_equal|]; exact IH.
  - rewrite Hc. cbn [andb]. exact IH.
Qed.

(** The versions a batch row of another key opens are not of key [k]. *)
Lemma current_versions_other k s (l : list srow) :
  key_of s <> k -> current k (map (fun _ => version s) l) = [].
Proof.
  intros Hk. unfold current, current_rows. induction l as [|t l IH]; [reflexivity|].
  cbn [map List.filter]. fold (key_of (version s)). rewrite key_of_version.
  rewrite (bool_decide_eq_false_2 _ Hk), andb_false_r. exact IH.
Qed.

Lemma current_versions_same s (l : list srow) :
  current (key_of s) (map (fun _ => version s) l) = map (fun _ => version s) l.
Proof.
  unfold current, current_rows. induction l as [|t l IH]; [reflexivity|].
  cbn [map List.filter]. fold (key_of (version s)).
  rewrite key_of_version, version_is_current.
  rewrite bool_decide_eq_true_2 by reflexivity. cbn [andb]. f_equal. exact IH.
Qed.

Definition opened_by (T : list srow) (s : srow) : list srow :=
  match List.filter (fun t => key_match key_columns t s && is_current current_col t) T with
  | [] => [version s]
  | matches => map (fun _ => version s) (List.filter (fun t => changed cols t s) matches)
  end.

Lemma open_flat_map S T : open S T = flat_map (opened_by T) S.
Proof. reflexivity. Qed.

Lemma opened_by_versions T s :
  exists l : list srow, opened_by T s = map (fun _ => version s) l.
Proof.
  unfold opened_by. destruct (List.filter _ T) as [|t l].
  - exists [s]. reflexivity.
  - eexists. reflexivity.
Qed.

Lemma current_app k (l1 l2 : list srow) :
  current k (l1 ++ l2) = current k l1 ++ current k l2.
Proof. unfold current, current_rows. apply List.filter_app. Qed.

(** With one batch row per key, at most the row of key [k] opens versions of
    key [k]. *)
Lemma current_open_bound k S T n :
  NoDup (key_of <$> S) ->
  (forall s, s ∈ S -> key_of s = k -> (length (opened_by T s) <= n)%nat) ->
  (length (current k (open S T)) <= n)%nat.
Proof.
  rewrite open_flat_map. induction S as [|s S IH]; intros Hnd Hn; cbn [flat_map].
  - cbn. lia.
  - rewrite fmap_cons in Hnd. apply NoDup_cons in Hnd as [Hs Hnd].
    rewrite current_app, length_app.
    destruct (opened_by_versions T s) as [l Hl].
    destruct (decide (key_of s = k)) as [Hk|Hk].
    + assert (Hrest : current k (flat_map (opened_by T) S) = []).
      { clear IH Hn. induction S as [|s' S IH']; [reflexivity|].
        cbn [flat_map]. rewrite current_app.
        rewrite fmap_cons in Hs, Hnd. apply not_elem_of_cons in Hs as [Hne Hs].
        apply NoDup_cons in Hnd as [_ Hnd].
        destruct (opened_by_versions T s') as [l' Hl']. rewrite Hl'.
        rewrite current_versions_other by congruence.
        apply IH'; assumption. }
      rewrite Hrest, Nat.add_0_r. subst k. rewrite Hl, current_versions_same, <- Hl.
      apply Hn; [left|reflexivity].
    + rewrite Hl, current_versions_other by exact Hk. cbn [length Nat.add].
      apply IH; [exact Hnd|]. intros s' Hs' Hk'. apply Hn; [right; exact Hs'|exact Hk'].
Qed.

(** One merge keeps the invariant when the batch has one row per key and no
    null in a key. *)
Lemma merge_rows_single_current S T :
  NoDup (key_of <$> S) ->
  (forall s c, s ∈ S -> c ∈ key_columns -> cell_of s c <> CNull) ->
  single_current key_columns current_col T ->
  single_current key_columns current_col (close S T ++ open S (close S T)).
Proof.
  intros Hnd Hnn Hinv k. fold (current k (close S T ++ open S (close S T))).
  rewrite current_app, length_app.
  pose proof (Hinv k) as Hk. fold (current k T) in Hk.
  destruct (current k (close S T)) as [|t [|t' rest]] eqn:Hc.
  - cbn [length Nat.add]. apply current_open_bound; [exact Hnd|].
    intros s Hs Hks. destruct (opened_by_versions (close S T) s) as [l Hl].
    unfold opened_by in *.
    destruct (List.filter _ (close S T)) as [|m ms] eqn:Hm; [cbn; lia|].
    exfalso.
    assert (Hin : m ∈ current k (close S T)).
    { assert (Hm' : m ∈ List.filter
                (fun t => key_match key_columns t s && is_current current_col t)
                (close S T)) by (rewrite Hm; left).
      apply elem_of_filter_bool in Hm' as [Hm1 Hm2].
      apply andb_true_iff in Hm2 as [Hm2 Hm3].
      rewrite key_match_key in Hm2 by (intros c Hc'; apply (Hnn s c Hs Hc')).
      apply bool_decide_eq_true in Hm2.
      unfold current, current_rows. apply elem_of_filter_bool. split; [exact Hm1|].
      rewrite Hm3. cbn [andb]. apply bool_decide_eq_true.
      unfold key_of in *. congruence. }
    rewrite Hc in Hin. apply elem_of_nil in Hin. exact Hin.
  - cut (length (current k (open S (close S T))) <= 0)%nat;
      [cbn [length]; lia|].
    apply current_open_bound; [exact Hnd|].
    intros s Hs Hks.
    assert (Ht : t ∈ current k (close S T)) by (rewrite Hc; left).
    pose proof Ht as Ht'. rewrite current_close in Ht'.
    apply elem_of_filter_bool in Ht' as [_ Hunchanged].
    apply negb_true_iff in Hunchanged.
    unfold current, current_rows in Ht. apply elem_of_filter_bool in Ht as [Ht1 Ht2].
    apply andb_true_iff in Ht2 as [Ht2 Ht3]. apply bool_decide_eq_true in Ht3.
    assert (Hmatch : key_match key_columns t s = true).
    { rewrite key_match_key by (intros c Hc'; apply (Hnn s c Hs Hc')).
      apply bool_decide_eq_true. unfold key_of in *. congruence. }
    assert (Hsame : changed cols t s = false).
    { destruct (changed cols t s) eqn:E; [|reflexivity].
      assert (Hex : existsb (fun s => key_match key_columns t s && changed cols t s) S = true).
      { apply existsb_exists. exists s. split; [apply list_elem_of_In; exact Hs|].
        rewrite Hmatch, E. reflexivity. }
      congruence. }
    assert (Hfilter : List.filter
              (fun t => key_match key_columns t s && is_current current_col t)
              (close S T) = [t]).
    { transitivity (current k (close S T)); [|exact Hc].
      unfold current, current_rows. apply List.filter_ext. intros m.
      rewrite key_match_key by (intros c Hc'; apply (Hnn s c Hs Hc')).
      rewrite andb_comm. f_equal. apply bool_decide_ext.
      unfold key_of in *. split; congruence. }
    unfold opened_by. rewrite Hfilter. cbn [List.filter]. rewrite Hsame.
    cbn. lia.
  - exfalso. assert (Hlen : (length (current k (close S T)) <= length (current k T))%nat).
    { rewrite current_close. clear. induction (current k T) as [|x l IH]; cbn; [lia|].
      destruct (negb _); cbn; lia. }
    rewrite Hc in Hlen. cbn [length] in Hlen. lia.
Qed.

End Rows.

(** What a successful [scd2_merge] leaves in the target: the rows as closed,
    then the new versions. *)
Lemma scd2_merge_rows s t df keys target st en cur e e' tb :
  scd2_merge s t df keys target st en cur e = (Ok tt, e') ->
  find_table s t (sys_tables e) = Some tb ->
  exists S,
    values_clause df target = Ok S
    /\ (forall c, c ∈ keys -> c ∈ target)
    /\ find_table s t (sys_tables e')
       = Some (with_t_rows tb
                 (let closed := close_rows keys (non_key keys target) en cur
                                  (clock e) S (t_rows tb) in
                  closed ++ open_rows keys target (non_key keys target) st en cur
                              (clock e) S closed)).
Proof.
  intros H Hfind. unfold scd2_merge in H.
  apply bind_Ok in H as (S & e1 & H1 & H). apply lift_Ok in H1 as [HS ->].
  exists S. split; [exact HS|].
  destruct keys as [|k0 keys]; [discriminate|].
  unfold transaction in H.
  destruct (bool_decide (S = []) || bool_decide (non_key (k0 :: keys) target = []));
    [discriminate|].
  unfold bind at 1, gets in H. unfold bind at 1, the_table in H.
  rewrite Hfind in H.
  destruct (negb (cols_ok tb _) || negb (forallb _ (k0 :: keys))) eqn:Hcols;
    [discriminate|].
  apply orb_false_iff in Hcols as [_ Hkeys]. apply negb_false_iff in Hkeys.
  destruct (negb (forallb (row_ok tb) _)); [discriminate|].
  unfold write_rows, modify in H. injection H as <-.
  split.
  - intros c Hc. rewrite forallb_forall in Hkeys.
    apply list_elem_of_In, Hkeys in Hc. apply bool_decide_eq_true in Hc. exact Hc.
  - cbn [sys_tables set_tables].
    apply (LoadFacts.find_put_table s t (sys_tables e) tb _ Hfind).
    rewrite LoadFacts.same_table_with_rows.
    eapply LoadFacts.find_table_same. exact Hfind.
Qed.

(** X15: One [scd2_merge] of a batch with one row per key and no null key keeps
    the invariant: from a target where every key has at most one current
    row it leaves such a target. *)
Lemma scd2_merge_single_current s t df keys target st en cur e e' tb :
  scd2_merge s t df keys target st en cur e = (Ok tt, e') ->
  find_table s t (sys_tables e) = Some tb ->
  st ∉ keys -> en ∉ keys -> cur ∉ keys ->
  NoDup (project (labels df) keys <$> rows df) ->
  (forall r, r ∈ rows df -> has_key (labels df) keys r = true) ->
  single_current keys cur (t_rows tb) ->
  exists tb',
    find_table s t (sys_tables e') = Some tb'
    /\ single_current keys cur (t_rows tb').
Proof.
  intros H Hfind Hst Hen Hcur Hnd Hnn Hinv.
  destruct (scd2_merge_rows _ _ _ _ _ _ _ _ _ _ _ H Hfind) as (S & HS & Hkt & Hf).
  eexists. split; [exact Hf|]. cbn [t_rows with_t_rows]. cbv zeta.
  unfold values_clause in HS. apply obind_Ok in HS as (u & _ & HS).
  injection HS as HS.
  assert (Hkey : forall r,
            map (cell_of (list_to_map
                            (map (fun c => (c, at_col (labels df) r c)) target))) keys
            = project (labels df) keys r).
  { intros r. unfold project. apply map_ext_in. intros c Hc.
    apply cell_of_tabulate, Hkt, list_elem_of_In, Hc. }
  apply (merge_rows_single_current keys target st en cur (clock e) Hkt Hst Hen Hcur).
  - subst S. rewrite <- list_fmap_compose.
    erewrite list_fmap_ext; [exact Hnd|]. intros i r _. apply Hkey.
  - subst S. intros s0 c Hs0 Hc.
    apply list_elem_of_fmap in Hs0 as (r & -> & Hr).
    rewrite cell_of_tabulate by (apply Hkt, Hc).
    specialize (Hnn r Hr). unfold has_key in Hnn. rewrite forallb_forall in Hnn.
    apply list_elem_of_In, Hnn in Hc. destruct (at_col (labels df) r c);
      [discriminate Hc|discriminate..].
  - exact Hinv.
Qed.

End HistoryFacts.

(** ** The audit trail and the tracker table *)

Module AuditFacts.
Import MFacts.

(** A JobAudit row of this job and stage that is still running. *)
Definition is_open (job_name stage : string) (a : audit_row) : bool :=
  String.eqb (a_job a) job_name && String.eqb (a_stage a) stage
  && bool_decide (a_end a = None).

Lemma log_job_end_state job stage n st msg e :
  log_job_end job stage n st msg e
  = (Ok tt,
     set_audit
       (map (fun a =>
               if is_open job stage a
               then {| a_job := a_job a; a_stage := a_stage a;
                       a_start := a_start a; a_end := Some (clock e);
                       a_rows := n; a_status := st; a_message := msg |}
               else a) (JobAudit e)) e).
Proof. reflexivity. Qed.

Lemma log_job_end_no_open job stage n st msg e :
  Forall (fun a => is_open job stage a = false)
         (JobAudit (log_job_end job stage n st msg e).2).
Proof.
  rewrite log_job_end_state. cbn [snd JobAudit set_audit].
  apply Forall_forall. intros a Ha. apply list_elem_of_fmap in Ha as (a0 & -> & _).
  destruct (is_open job stage a0) eqn:E; [|exact E].
  unfold is_open. cbn [a_job a_stage a_end]. apply andb_false_iff. right.
  apply bool_decide_eq_false. discriminate.
Qed.

(** [create_target_tables] ends by closing its audit row on every path:
    success, accumulated errors, no metadata, or an exception. *)
Lemma create_target_tables_ends_with_log job e :
  exists n st msg e0,
    (create_target_tables job e).2 = (log_job_end job "ddl" n st msg e0).2.
Proof.
  unfold create_target_tables, try_except.
  unfold bind at 1. unfold log_job_start at 1, transaction at 1.
  unfold bind at 1, gets at 1, modify at 1.
  unfold bind at 1, gets at 1.
  match goal with
  | |- context [joined_rows job ?e1] => destruct (joined_rows job e1) as [|rows0 rows]
  end.
  - unfold bind at 1. rewrite log_job_end_state. cbn [snd]. do 4 eexists.
    rewrite log_job_end_state. reflexivity.
  - unfold bind at 1.
    match goal with
    | |- context [tables_loop ?j ?r ?g ?x ?e1] =>
        destruct (tables_loop j r g x e1) as [[errs|exc] e2]
    end.
    + destruct errs; unfold bind at 1; rewrite log_job_end_state; cbn [snd];
        do 4 eexists; rewrite log_job_end_state; reflexivity.
    + unfold bind at 1. rewrite log_job_end_state. cbn [snd]. do 4 eexists.
      rewrite log_job_end_state. reflexivity.
Qed.

(** X2: Whatever [create_target_tables] meets - no metadata, a table that cannot
    be built, an exception - no JobAudit row of the job's [ddl] stage is
    left [Running] when it returns. *)
Theorem create_target_tables_closes_audit_row job e :
  Forall (fun a => is_open job "ddl" a = false)
         (JobAudit (create_target_tables job e).2).
Proof.
  destruct (create_target_tables_ends_with_log job e) as (n & st & msg & e0 & ->).
  apply log_job_end_no_open.
Qed.

(** X3: When [load_curated_to_processed] finds no Config row for its job, it
    returns an error from inside its [try] block without closing the audit
    row it opened: the row stays [Running]. *)
Theorem no_config_leaves_audit_row_open job e :
  List.filter (for_job job) (Config e) = [] ->
  load_curated_to_processed job e
  = (Ok {| status := "error"; rows_written := None;
           message := "No Config for " +:+ job |},
     set_audit (JobAudit e ++
       [{| a_job := job; a_stage := "curated_to_processed"; a_start := clock e;
           a_end := None; a_rows := None; a_status := "Running";
           a_message := None |}]) e)
  /\ exists a, a ∈ JobAudit (load_curated_to_processed job e).2
               /\ is_open job "curated_to_processed" a = true.
Proof.
  intros Hcfg.
  assert (Hrun : load_curated_to_processed job e
    = (Ok {| status := "error"; rows_written := None;
             message := "No Config for " +:+ job |},
       set_audit (JobAudit e ++
         [{| a_job := job; a_stage := "curated_to_processed"; a_start := clock e;
             a_end := None; a_rows := None; a_status := "Running";
             a_message := None |}]) e)).
  { unfold load_curated_to_processed, bind at 1, log_job_start, transaction,
      bind at 1, gets, modify.
    unfold try_except, curated_to_processed_body, bind at 1, _fetch_config, gets.
    cbn [Config set_audit]. rewrite Hcfg. reflexivity. }
  split; [exact Hrun|]. rewrite Hrun. cbn [snd JobAudit set_audit].
  eexists. split; [apply elem_of_app; right; left|].
  unfold is_open. cbn [a_job a_stage a_end]. rewrite !String.eqb_refl. reflexivity.
Qed.

Lemma no_config_leaves_audit_row_open_witness :
  exists a, a ∈ JobAudit (load_curated_to_processed "JOB_X" (Samples.db_of [])).2
            /\ is_open "JOB_X" "curated_to_processed" a = true.
Proof.
  apply (no_config_leaves_audit_row_open "JOB_X" (Samples.db_of [])).
  reflexivity.
Defined.

End AuditFacts.

(** ** Schema synthesis: what it builds and what it leaves alone *)

Module DdlFacts.
Import MFacts Samples.

(** [e'] holds the tables of [e], rows included, followed by new ones; the
    catalog and the tracker are the same. *)
Definition extends (e e' : engine) : Prop :=
  (exists new, sys_tables e' = sys_tables e ++ new)
  /\ Config e' = Config e
  /\ Metadata e' = Metadata e
  /\ IncrementalTracker e' = IncrementalTracker e.

Definition grows {A} (m : M A) : Prop := forall e, extends e (m e).2.

Lemma extends_refl e : extends e e.
Proof. split; [exists []; rewrite app_nil_r; reflexivity|auto]. Qed.

Lemma extends_trans e1 e2 e3 : extends e1 e2 -> extends e2 e3 -> extends e1 e3.
Proof.
  intros ([n1 H1] & Hc1 & Hm1 & Ht1) ([n2 H2] & Hc2 & Hm2 & Ht2).
  split; [exists (n1 ++ n2); rewrite H2, H1, app_assoc; reflexivity|].
  repeat split; congruence.
Qed.

Lemma grows_ret {A} (a : A) : grows (ret a).
Proof. intros e. apply extends_refl. Qed.

Lemma grows_lift {A} (o : outcome A) : grows (lift o).
Proof. intros e. apply extends_refl. Qed.

Lemma grows_raise {A} msg : grows (@raise A msg).
Proof. intros e. apply extends_refl. Qed.

Lemma grows_gets {A} (f : engine -> A) : grows (gets f).
Proof. intros e. apply extends_refl. Qed.

Lemma grows_bind {A B} (m : M A) (k : A -> M B) :
  grows m -> (forall a, grows (k a)) -> grows (bind m k).
Proof.
  intros Hm Hk e. unfold bind. specialize (Hm e).
  destruct (m e) as [[a|x] e1]; cbn [snd] in *; [|exact Hm].
  eapply extends_trans; [exact Hm|apply Hk].
Qed.

Lemma grows_transaction {A} (m : M A) : grows m -> grows (transaction m).
Proof.
  intros Hm e. unfold transaction. specialize (Hm e).
  destruct (m e) as [[a|x] e1]; cbn [snd] in *; [exact Hm|apply extends_refl].
Qed.

Lemma grows_try_except {A} (m : M A) (h : string -> M A) :
  grows m -> (forall x, grows (h x)) -> grows (try_except m h).
Proof.
  intros Hm Hh e. unfold try_except. specialize (Hm e).
  destruct (m e) as [[a|x] e1]; cbn [snd] in *; [exact Hm|].
  eapply extends_trans; [exact Hm|apply Hh].
Qed.

Lemma grows_set_audit (f : engine -> list audit_row) :
  grows (modify (fun e => set_audit (f e) e)).
Proof. intros e. split; [exists []; cbn; rewrite app_nil_r; reflexivity|auto]. Qed.

Lemma grows_add_table (ts : list table) (t : table) :
  forall e, sys_tables e = ts -> extends e (modify (set_tables (ts ++ [t])) e).2.
Proof.
  intros e <-. split; [exists [t]; reflexivity|auto].
Qed.

Create HintDb grows discriminated.
#[export] Hint Resolve grows_ret grows_lift grows_raise grows_gets
  grows_set_audit : grows.

Ltac grows_step :=
  lazymatch goal with
  | |- grows (bind _ _) => apply grows_bind; [|intros ?]
  | |- grows (transaction _) => apply grows_transaction
  | |- grows (try_except _ _) => apply grows_try_except; [|intros ?]
  | |- grows (if ?b then _ else _) => destruct b
  | |- grows (match ?x with _ => _ end) => destruct x
  | |- grows _ => solve [auto with grows]
  end.

Lemma grows_log_job_start job stage : grows (log_job_start job stage).
Proof. unfold log_job_start. repeat grows_step. Qed.

Lemma grows_log_job_end job stage n st msg : grows (log_job_end job stage n st msg).
Proof. unfold log_job_end. repeat grows_step. Qed.

Lemma grows_table_exists s n : grows (_table_exists s n).
Proof. unfold _table_exists. auto with grows. Qed.
#[export] Hint Resolve grows_log_job_start grows_log_job_end
  grows_table_exists : grows.

Lemma grows_create_table s n defs fks : grows (create_table s n defs fks).
Proof.
  intros e. unfold create_table, bind, gets.
  destruct (bool_decide (defs = [])); [apply extends_refl|].
  destruct (negb _); [apply extends_refl|].
  destruct (bool_decide (is_Some _)); [apply extends_refl|].
  apply grows_add_table. reflexivity.
Qed.

Lemma grows_execute_create_table sql : grows (execute_create_table sql).
Proof.
  unfold execute_create_table.
  destruct (parse_create_table sql) as [[[[s n] defs] fks]|];
    [apply grows_create_table|apply grows_raise].
Qed.
#[export] Hint Resolve grows_execute_create_table : grows.

Lemma grows_fk_loop rows seen acc : grows (fk_loop rows seen acc).
Proof.
  revert seen acc. induction rows as [|r rows IH]; intros seen acc; cbn [fk_loop].
  - auto with grows.
  - grows_step; [auto with grows|]. grows_step; [|apply IH].
    grows_step; [auto with grows|].
    destruct (get r "ReferenceTable"); try apply grows_raise.
    destruct (fk_reference s) as [ref_schema ref_table].
    grows_step; [apply IH|]. grows_step; [auto with grows|].
    grows_step; apply IH.
Qed.

Lemma grows_foreign_key_clauses rows : grows (_foreign_key_clauses rows).
Proof. apply grows_fk_loop. Qed.
#[export] Hint Resolve grows_foreign_key_clauses : grows.

Lemma grows_table_step job rows0 schema table cols errs :
  grows (table_step job rows0 schema table cols errs).
Proof.
  unfold table_step. grows_step; [auto with grows|].
  grows_step; [repeat grows_step|]. grows_step; [repeat grows_step|].
  grows_step; [auto with grows|]. grows_step; [auto with grows|].
  destruct (_validate_primary_keys _ _ _ _); [|auto with grows].
  destruct (column_loop _ _ _ _ _ _ _) as [col_defs errs'].
  repeat grows_step.
Qed.
#[export] Hint Resolve grows_table_step : grows.

Lemma grows_tables_loop job rows0 groups errs :
  grows (tables_loop job rows0 groups errs).
Proof.
  revert errs. induction groups as [|[[schema table] cols] groups IH];
    intros errs; cbn [tables_loop]; [auto with grows|].
  grows_step; [auto with grows|]. apply IH.
Qed.
#[export] Hint Resolve grows_tables_loop : grows.

(** X5: [create_target_tables] never drops, renames or rewrites a table: the
    tables it finds are still there afterwards, in place and with their
    rows, possibly followed by new ones.  Config, Metadata and the tracker
    are untouched. *)
Theorem create_target_tables_only_adds_tables job e :
  let e' := (create_target_tables job e).2 in
  (exists new, sys_tables e' = sys_tables e ++ new)
  /\ Config e' = Config e
  /\ Metadata e' = Metadata e
  /\ IncrementalTracker e' = IncrementalTracker e.
Proof.
  assert (H : grows (create_target_tables job)).
  { unfold create_target_tables. repeat grows_step. }
  exact (H e).
Qed.

(** *** Column definitions *)

(** X6: Raw is a landing zone: whatever type, key flag or nullability the
    metadata declares - a type outside the table of allowed types included -
    the column is synthesised as nullable unbounded text. *)
Theorem raw_column_is_unbounded_text row schema scd colv dtv n :
  String.eqb (lower schema) "raw" = true ->
  row !! "TargetColumnName" = Some colv ->
  row !! "TargetDataType" = Some dtv ->
  int (py_or (get row "Length") (PInt 0)) = Ok n ->
  _build_column_def row schema scd = Ok ("[" +:+ str colv +:+ "] NVARCHAR(MAX) NULL").
Proof.
  intros Hraw Hc Hd Hn. unfold _build_column_def, item.
  rewrite Hc, Hd. cbn [obind]. rewrite Hn. cbn [obind]. rewrite Hraw. reflexivity.
Qed.

Lemma raw_column_is_unbounded_text_witness :
  _build_column_def (meta "JOB_EMP_RAW" "EmpId" "EmpId" "TEXT" 0 1 0 0 PNone) "Raw" 1
  = Ok "[EmpId] NVARCHAR(MAX) NULL".
Proof.
  apply (raw_column_is_unbounded_text _ "Raw" 1 (PStr "EmpId") (PStr "TEXT") 0);
    reflexivity.
Defined.

(** X7: [IsNullable = 0] does not make a column [NOT NULL]: [0 or 1] is [1], so
    the row is synthesised exactly as with [IsNullable = 1], in every layer. *)
Theorem not_nullable_flag_is_ignored row schema scd :
  row !! "IsNullable" = Some (PInt 0) ->
  _build_column_def row schema scd
  = _build_column_def (<["IsNullable" := PInt 1]> row) schema scd.
Proof.
  intros H. unfold _build_column_def, item, get.
  rewrite !lookup_insert_ne by discriminate.
  rewrite lookup_insert_eq, H. reflexivity.
Qed.

Lemma not_nullable_flag_is_ignored_witness :
  _build_column_def (meta "JOB_EMP_PROCESSED" "EmpId" "EmpId" "INT" 0 1 0 0 PNone)
    "processed" 1
  = Ok "[EmpId] INT NULL".
Proof.
  rewrite (not_nullable_flag_is_ignored _ "processed" 1) by reflexivity.
  reflexivity.
Defined.

(** X8: Outside raw, a variable-length type with a missing, zero or negative
    [Length] is refused, and the message names the type and the column. *)
Theorem varlen_needs_positive_length row schema scd colv dtv n :
  String.eqb (lower schema) "raw" = false ->
  row !! "TargetColumnName" = Some colv ->
  row !! "TargetDataType" = Some dtv ->
  mem (upper (str dtv)) VARLEN_TYPES = true ->
  int (py_or (get row "Length") (PInt 0)) = Ok n ->
  n <= 0 ->
  _build_column_def row schema scd
  = Raise (upper (str dtv) +:+ " requires positive Length for column '"
           +:+ str colv +:+ "'").
Proof.
  intros Hraw Hc Hd Hv Hn Hle. unfold _build_column_def, item.
  rewrite Hc, Hd. cbn [obind]. rewrite Hn. cbn [obind]. rewrite Hraw.
  assert (Hallowed : mem (upper (str dtv)) ALLOWED_TYPES = true).
  { unfold mem in *. apply bool_decide_eq_true in Hv. apply bool_decide_eq_true.
    unfold ALLOWED_TYPES. apply elem_of_app. left. exact Hv. }
  rewrite Hallowed, Hv. cbn [negb].
  apply Z.leb_le in Hle. rewrite Hle. reflexivity.
Qed.

Lemma varlen_needs_positive_length_witness :
  _build_column_def (meta "JOB_EMP_CURATED" "Name" "Name" "nvarchar" 0 0 0 1 PNone)
    "curated" 1
  = Raise "NVARCHAR requires positive Length for column 'Name'".
Proof.
  apply (varlen_needs_positive_length _ "curated" 1 (PStr "Name") (PStr "nvarchar") 0);
    reflexivity.
Defined.

(** *** Primary keys *)

(** The names of the flagged columns, as the set comprehension collects
    them. *)
Fixpoint flagged_names (cols : list (gmap string pyval)) : outcome (list pyval) :=
  match cols with
  | [] => Ok []
  | c :: rest =>
      obind (flagged_names rest) (fun names =>
      obind (int (py_or (get c "IsPK") (PInt 0))) (fun pk =>
      if pk =? 1 then obind (item c "TargetColumnName") (fun n => Ok (n :: names))
      else Ok names))
  end.

Lemma flagged_names_elem cols names c n :
  flagged_names cols = Ok names ->
  c ∈ cols ->
  int (py_or (get c "IsPK") (PInt 0)) = Ok 1 ->
  c !! "TargetColumnName" = Some n ->
  n ∈ names.
Proof.
  revert names. induction cols as [|c0 cols IH]; intros names H Hin Hpk Hn.
  - apply elem_of_nil in Hin. contradiction.
  - cbn [flagged_names] in H.
    apply obind_Ok in H as (rest & Hrest & H).
    apply obind_Ok in H as (pk & Hpk0 & H).
    apply elem_of_cons in Hin as [->|Hin].
    + rewrite Hpk in Hpk0. injection Hpk0 as <-. cbn in H.
      unfold item in H. rewrite Hn in H. cbn in H. injection H as <-. left.
    + specialize (IH rest Hrest Hin Hpk Hn).
      destruct (pk =? 1); [|injection H as <-; exact IH].
      apply obind_Ok in H as (n0 & _ & H). injection H as <-. right. exact IH.
Qed.

Lemma two_distinct_length {A} `{EqDecision A} (l : list A) x y :
  NoDup l -> x ∈ l -> y ∈ l -> x <> y -> (2 <= length l)%nat.
Proof.
  intros Hnd Hx Hy Hne. destruct l as [|a [|b l]]; cbn; try lia.
  - apply elem_of_nil in Hx. contradiction.
  - apply list_elem_of_singleton in Hx. apply list_elem_of_singleton in Hy.
    congruence.
Qed.

(** X9: Two columns flagged [IsPK = 1] under different names stop the synthesis
    of a curated or processed table: [_validate_primary_keys] raises, and the
    loop of [create_target_tables] moves on without issuing any statement -
    the database is left as it was.  For raw the check always passes. *)
Theorem two_primary_keys_no_table
    job rows0 schema table cols errs c1 c2 (a1 a2 : string) e :
  String.eqb (lower schema) "raw" = false ->
  (forall c, c ∈ cols ->
     exists z, int (py_or (get c "IsPK") (PInt 0)) = Ok z
               /\ is_Some (c !! "TargetColumnName")) ->
  c1 ∈ cols -> c2 ∈ cols ->
  int (py_or (get c1 "IsPK") (PInt 0)) = Ok 1 ->
  int (py_or (get c2 "IsPK") (PInt 0)) = Ok 1 ->
  c1 !! "TargetColumnName" = Some (PStr a1) ->
  c2 !! "TargetColumnName" = Some (PStr a2) ->
  a1 <> a2 ->
  (exists msg, _validate_primary_keys cols schema (str table) job = Raise msg)
  /\ (table_step job rows0 (PStr schema) table cols errs e).2 = e
  /\ _validate_primary_keys cols "raw" (str table) job = Ok tt.
Proof.
  intros Hraw Hwf H1 H2 Hp1 Hp2 Hn1 Hn2 Hne0.
  assert (Hne : PStr a1 <> PStr a2) by congruence.
  set (n1 := PStr a1) in *. set (n2 := PStr a2) in *.
  assert (Hfold : forall cs,
    foldr (fun c acc =>
             obind acc (fun names =>
             obind (int (py_or (get c "IsPK") (PInt 0))) (fun pk =>
             if pk =? 1 then
               obind (item c "TargetColumnName") (fun n => Ok (n :: names))
             else Ok names)))
          (Ok []) cs = flagged_names cs).
  { induction cs as [|c cs IH]; [reflexivity|]. cbn [foldr flagged_names].
    rewrite IH. reflexivity. }
  assert (Hnames : exists names, flagged_names cols = Ok names).
  { clear H1 H2. induction cols as [|c cols IH]; [eauto|].
    destruct IH as [names Hn]; [intros c' Hc'; apply Hwf; right; exact Hc'|].
    destruct (Hwf c) as (z & Hz & [n Hn']); [left|].
    cbn [flagged_names]. rewrite Hn. cbn [obind]. rewrite Hz. cbn [obind].
    destruct (z =? 1); [|eauto]. unfold item. rewrite Hn'. cbn. eauto. }
  destruct Hnames as [names Hnames].
  assert (Hraise : exists msg,
            _validate_primary_keys cols schema (str table) job = Raise msg).
  { unfold _validate_primary_keys. rewrite Hraw, Hfold, Hnames. cbn [obind].
    assert (Hlen : (2 <= length (remove_dups names))%nat).
    { apply (two_distinct_length _ n1 n2); [apply NoDup_remove_dups| | |exact Hne];
        apply elem_of_remove_dups.
      - exact (flagged_names_elem cols names c1 n1 Hnames H1 Hp1 Hn1).
      - exact (flagged_names_elem cols names c2 n2 Hnames H2 Hp2 Hn2). }
    assert (Hlt : (1 <? Z.of_nat (length (remove_dups names))) = true)
      by (apply Z.ltb_lt; lia).
    rewrite Hlt. eauto. }
  split; [exact Hraise|]. split; [|reflexivity].
  destruct Hraise as [msg Hmsg].
  unfold table_step, bind at 1, lift.
  destruct (int (get_or rows0 "SCDType" (PInt 1))) as [scd|x]; [|reflexivity].
  unfold bind at 1, ret at 1.
  unfold bind at 1.
  destruct (mem (lower schema) ["raw"; "curated"; "processed"]).
  - destruct (split "_" job) as [|p0 [|p1 ps]]; try reflexivity.
    unfold ret at 1, bind at 1, _table_exists, gets.
    destruct (bool_decide _); [reflexivity|]. rewrite Hmsg. reflexivity.
  - unfold ret at 1, bind at 1, _table_exists, gets.
    destruct (bool_decide _); [reflexivity|]. rewrite Hmsg. reflexivity.
Qed.

Lemma two_primary_keys_no_table_witness :
  let cols := [meta "JOB_EMP_CURATED" "EmpId" "EmpId" "INT" 0 1 0 0 PNone;
               meta "JOB_EMP_CURATED" "Code" "Code" "INT" 0 1 0 0 PNone] in
  (table_step "JOB_EMP_CURATED" cfg_curated (PStr "curated") (PStr "emp") cols []
     (db_of [])).2 = db_of [].
Proof.
  intros cols.
  apply (two_primary_keys_no_table "JOB_EMP_CURATED" cfg_curated "curated"
           (PStr "emp") cols []
           (meta "JOB_EMP_CURATED" "EmpId" "EmpId" "INT" 0 1 0 0 PNone)
           (meta "JOB_EMP_CURATED" "Code" "Code" "INT" 0 1 0 0 PNone)
           "EmpId" "Code" (db_of [])); try reflexivity.
  - intros c Hc. exists 1.
    apply elem_of_cons in Hc as [->|Hc]; [split; [reflexivity|eexists; reflexivity]|].
    apply list_elem_of_singleton in Hc. subst c.
    split; [reflexivity|eexists; reflexivity].
  - left.
  - right. left.
  - discriminate.
Defined.

(** *** Foreign-key clauses *)

Lemma fk_loop_sound rows seen acc e clauses e' :
  fk_loop rows seen acc e = (Ok clauses, e') ->
  e' = e
  /\ forall c, c ∈ clauses ->
       c ∈ acc
       \/ exists r colv ref,
            r ∈ rows
            /\ r !! "TargetColumnName" = Some colv
            /\ get r "ReferenceTable" = PStr ref
            /\ int (py_or (get r "IsFK") (PInt 0)) = Ok 1
            /\ c = fk_clause (str colv) (fk_reference ref).1 (fk_reference ref).2
            /\ is_Some (find_table (fk_reference ref).1 (fk_reference ref).2
                          (sys_tables e)).
Proof.
  revert seen acc. induction rows as [|r rows IH]; intros seen acc H.
  - apply ret_Ok in H as [-> ->]. split; [reflexivity|]. intros c Hc. left. exact Hc.
  - cbn [fk_loop] in H.
    assert (Hrest : forall seen' acc',
      fk_loop rows seen' acc' e = (Ok clauses, e') ->
      (forall c, c ∈ acc' -> c ∈ acc \/ exists r0 colv ref,
            r0 ∈ r :: rows
            /\ r0 !! "TargetColumnName" = Some colv
            /\ get r0 "ReferenceTable" = PStr ref
            /\ int (py_or (get r0 "IsFK") (PInt 0)) = Ok 1
            /\ c = fk_clause (str colv) (fk_reference ref).1 (fk_reference ref).2
            /\ is_Some (find_table (fk_reference ref).1 (fk_reference ref).2
                          (sys_tables e))) ->
      e' = e /\ forall c, c ∈ clauses -> c ∈ acc \/ exists r0 colv ref,
            r0 ∈ r :: rows
            /\ r0 !! "TargetColumnName" = Some colv
            /\ get r0 "ReferenceTable" = PStr ref
            /\ int (py_or (get r0 "IsFK") (PInt 0)) = Ok 1
            /\ c = fk_clause (str colv) (fk_reference ref).1 (fk_reference ref).2
            /\ is_Some (find_table (fk_reference ref).1 (fk_reference ref).2
                          (sys_tables e))).
    { intros seen' acc' H' Hacc. destruct (IH _ _ H') as [-> Hcl].
      split; [reflexivity|]. intros c Hc.
      destruct (Hcl c Hc) as [Hin|(r0 & colv & ref & Hr0 & Hrest)].
      - apply Hacc. exact Hin.
      - right. exists r0, colv, ref. split; [right; exact Hr0|exact Hrest]. }
    apply bind_Ok in H as (isfk & e1 & H1 & H). apply lift_Ok in H1 as [Hfk ->].
    destruct ((isfk =? 1) && truthy (get r "ReferenceTable")) eqn:Hflag;
      [|apply (Hrest _ _ H); auto].
    apply andb_true_iff in Hflag as [Hone _]. apply Z.eqb_eq in Hone. subst isfk.
    apply bind_Ok in H as (colv & e1 & H1 & H). apply lift_Ok in H1 as [Hcol ->].
    unfold item in Hcol. destruct (r !! "TargetColumnName") as [cv|] eqn:Hcv;
      [|discriminate]. injection Hcol as ->.
    destruct (get r "ReferenceTable") as [| |z|ref] eqn:Href;
      try (unfold raise in H; discriminate).
    destruct (fk_reference ref) as [rs rt] eqn:Hfr.
    destruct (bool_decide _); [apply (Hrest _ _ H); auto|].
    apply bind_Ok in H as (ex & e1 & H1 & H).
    unfold _table_exists, gets in H1. injection H1 as <- <-.
    destruct (bool_decide (is_Some (find_table rs rt (sys_tables e)))) eqn:Hex;
      cbn [negb] in H; [|apply (Hrest _ _ H); auto].
    apply bool_decide_eq_true in Hex.
    apply (Hrest _ _ H). intros c Hc.
    apply elem_of_app in Hc as [Hc|Hc]; [left; exact Hc|].
    apply list_elem_of_singleton in Hc. subst c. right.
    exists r, colv, ref. rewrite Hfr. cbn [fst snd].
    split; [left|]. auto.
Qed.

(** X10: [_foreign_key_clauses] only reads the database, and every clause it
    returns comes from a metadata row flagged [IsFK = 1] whose referenced
    table - schema [dbo] when the reference has no dot - exists at that time:
    a reference to a missing table is dropped without an error. *)
Theorem foreign_key_clauses_reference_existing_tables rows e clauses e' :
  _foreign_key_clauses rows e = (Ok clauses, e') ->
  e' = e
  /\ forall c, c ∈ clauses ->
       exists r colv ref,
         r ∈ rows
         /\ r !! "TargetColumnName" = Some colv
         /\ get r "ReferenceTable" = PStr ref
         /\ int (py_or (get r "IsFK") (PInt 0)) = Ok 1
         /\ c = fk_clause (str colv) (fk_reference ref).1 (fk_reference ref).2
         /\ is_Some (find_table (fk_reference ref).1 (fk_reference ref).2
                       (sys_tables e)).
Proof.
  intros H. apply fk_loop_sound in H as [-> H]. split; [reflexivity|].
  intros c Hc. destruct (H c Hc) as [Hnil|Hex]; [|exact Hex].
  apply elem_of_nil in Hnil. contradiction.
Qed.

Lemma foreign_key_clauses_reference_existing_tables_witness :
  let rows := [meta "JOB_EMP_CURATED" "DeptId" "DeptId" "INT" 0 0 1 1 (PStr "curated.emp");
               meta "JOB_EMP_CURATED" "SiteId" "SiteId" "INT" 0 0 1 1 (PStr "site")] in
  let e := db_of [curated_emp []] in
  _foreign_key_clauses rows e
  = (Ok ["FOREIGN KEY ([DeptId]) REFERENCES [curated].[emp]([DeptId])"], e)
  /\ forall c, c ∈ ["FOREIGN KEY ([DeptId]) REFERENCES [curated].[emp]([DeptId])"] ->
       exists r colv ref,
         r ∈ rows
         /\ r !! "TargetColumnName" = Some colv
         /\ get r "ReferenceTable" = PStr ref
         /\ int (py_or (get r "IsFK") (PInt 0)) = Ok 1
         /\ c = fk_clause (str colv) (fk_reference ref).1 (fk_reference ref).2
         /\ is_Some (find_table (fk_reference ref).1 (fk_reference ref).2
                       (sys_tables e)).
Proof.
  intros rows e. split; [reflexivity|].
  apply (foreign_key_clauses_reference_existing_tables rows e _ e). reflexivity.
Defined.

(** *** A null SCDType *)

Lemma add_to_group_nonempty k row groups : add_to_group k row groups <> [].
Proof.
  destruct groups as [|[k' rs] g]; cbn; [discriminate|].
  destruct (bool_decide (k' = k)); discriminate.
Qed.

Lemma group_tables_nonempty row rows : group_tables (row :: rows) <> [].
Proof.
  unfold group_tables. cbn [fold_left].
  generalize (add_to_group (get row "TargetSchema", get row "TargetTable") row [])
    (add_to_group_nonempty (get row "TargetSchema", get row "TargetTable") row []).
  induction rows as [|r rows IH]; intros g Hg; cbn [fold_left]; [exact Hg|].
  apply IH, add_to_group_nonempty.
Qed.

(** X11: Whatever its layer, a job whose Config row has a null [SCDType] cannot
    get its table: [int(None)] raises before the table is looked up, the
    exception is reported as the only error, and no table is created. *)
Theorem null_scd_type_fails_ddl job e c cs m ms :
  List.filter (for_job job) (Config e) = c :: cs ->
  List.filter (for_job job) (Metadata e) = m :: ms ->
  get c "SCDType" = PNone ->
  (create_target_tables job e).1
  = Ok {| ddl_status := "error";
          ddl_errors := ["int() argument must be a string, a bytes-like object or a real number, not 'NoneType'"] |}
  /\ sys_tables (create_target_tables job e).2 = sys_tables e.
Proof.
  intros Hc Hm Hscd.
  destruct (create_target_tables job e) as [o e'] eqn:E. cbn [fst snd]. revert E.
  unfold create_target_tables, try_except, bind at 1, log_job_start, transaction,
    bind at 1, gets at 1, modify.
  unfold bind at 1, gets at 1, joined_rows.
  cbn [Config Metadata set_audit]. rewrite Hc, Hm. cbn [flat_map map app].
  pose proof (group_tables_nonempty (join_row c m)
                (map (fun c0 => join_row c0 m) cs
                 ++ flat_map (fun m0 => map (fun c0 => join_row c0 m0) (c :: cs)) ms))
    as Hg.
  destruct (group_tables _) as [|[[schema table] cols] groups]; [congruence|].
  cbn [tables_loop]. unfold bind at 1. unfold bind at 1.
  unfold table_step, bind at 1, lift.
  assert (Hint : int (get_or (join_row c m) "SCDType" (PInt 1))
                 = Raise "int() argument must be a string, a bytes-like object or a real number, not 'NoneType'").
  { unfold get_or, join_row.
    assert (Hl : (list_to_map
               (map (fun k => (k, get c k)) JOIN_COLUMNS_CONFIG ++
                map (fun k => (k, get m k)) JOIN_COLUMNS_METADATA)
               : gmap string pyval) !! "SCDType" = Some PNone).
    { cbn [JOIN_COLUMNS_CONFIG map app]. rewrite !list_to_map_cons.
      rewrite !lookup_insert_ne by discriminate.
      rewrite lookup_insert_eq. rewrite Hscd. reflexivity. }
    rewrite Hl. reflexivity. }
  rewrite Hint. unfold bind, log_job_end, transaction, gets, modify, ret.
  intros E. injection E as <- <-. split; reflexivity.
Qed.

Lemma null_scd_type_fails_ddl_witness :
  sys_tables (create_target_tables "JOB_EMP_PROCESSED"
                (db_processed "incremental" PNone)).2
  = sys_tables (db_processed "incremental" PNone).
Proof.
  apply (null_scd_type_fails_ddl "JOB_EMP_PROCESSED" (db_processed "incremental" PNone)
           (cfg_processed "incremental" PNone) []
           (meta "JOB_EMP_PROCESSED" "EmpId" "EmpId" "INT" 0 1 0 0 PNone)
           [meta "JOB_EMP_PROCESSED" "Name" "Name" "NVARCHAR" 50 0 0 1 PNone]);
    reflexivity.
Defined.

End DdlFacts.

(** ** Merges: idempotence, no-ops and missing keys *)

Module MergeFacts.
Import MFacts FrameFacts ScdFacts Samples.

Definition key_of (keys : list string) (t : srow) : list cell :=
  map (cell_of t) keys.

Lemma key_match_eq keys t s :
  (forall c, c ∈ keys -> cell_of s c <> CNull) ->
  key_match keys t s = bool_decide (key_of keys t = key_of keys s).
Proof.
  exact (HistoryFacts.key_match_key keys [] "" "" "" (Datetime 1 1 1 0) t s).
Qed.

Lemma lookup_tabulate (f : string -> cell) cs c :
  c ∈ cs ->
  (list_to_map (map (fun c => (c, f c)) cs) : srow) !! c = Some (f c).
Proof.
  induction cs as [|c0 cs IH]; intros H.
  - apply elem_of_nil in H. contradiction.
  - cbn [map]. rewrite list_to_map_cons.
    destruct (decide (c0 = c)) as [->|Hne].
    + apply lookup_insert_eq.
    + rewrite lookup_insert_ne by exact Hne.
      apply IH. apply elem_of_cons in H as [H|H]; [congruence|exact H].
Qed.

Lemma update_from_fixed cols s (m : srow) :
  (forall c, c ∈ cols -> m !! c = Some (cell_of s c)) ->
  update_from cols s m = m.
Proof.
  unfold update_from. induction cols as [|c cols IH]; intros H; [reflexivity|].
  cbn [foldr]. rewrite IH by (intros c' Hc'; apply H; right; exact Hc').
  apply insert_id, H. left.
Qed.

Lemma update_from_lookup cols s (t : srow) c :
  c ∈ cols -> update_from cols s t !! c = Some (cell_of s c).
Proof.
  unfold update_from. induction cols as [|c0 cols IH]; intros H.
  - apply elem_of_nil in H. contradiction.
  - cbn [foldr]. destruct (decide (c0 = c)) as [->|Hne].
    + apply lookup_insert_eq.
    + rewrite lookup_insert_ne by exact Hne.
      apply IH. apply elem_of_cons in H as [H|H]; [congruence|exact H].
Qed.

Lemma update_from_other cols s (t : srow) c :
  c ∉ cols -> cell_of (update_from cols s t) c = cell_of t c.
Proof.
  unfold update_from. induction cols as [|c0 cols IH]; intros H; [reflexivity|].
  cbn [foldr]. apply not_elem_of_cons in H as [Hne Hc].
  rewrite HistoryFacts.cell_of_insert_ne by congruence. apply IH, Hc.
Qed.

Lemma update_from_idem cols s t :
  update_from cols s (update_from cols s t) = update_from cols s t.
Proof. apply update_from_fixed. intros c Hc. apply update_from_lookup, Hc. Qed.

Lemma key_of_update keys target s t :
  key_of keys (update_from (non_key keys target) s t) = key_of keys t.
Proof.
  unfold key_of. apply map_ext_in. intros c Hc. apply list_elem_of_In in Hc.
  apply update_from_other. unfold non_key. intros Hin.
  apply elem_of_filter_bool in Hin as [_ Hin]. apply negb_true_iff in Hin.
  apply bool_decide_eq_false in Hin. contradiction.
Qed.

Lemma key_of_insert keys target s :
  (forall c, c ∈ keys -> c ∈ target) ->
  key_of keys (insert_from target s) = key_of keys s.
Proof.
  intros H. unfold key_of. apply map_ext_in. intros c Hc.
  apply HistoryFacts.cell_of_insert_from, H, list_elem_of_In, Hc.
Qed.

Section OneRowPerKey.
Variables (keys target : list string) (S : list srow).
Hypothesis keys_in_target : forall c, c ∈ keys -> c ∈ target.
Hypothesis one_row_per_key : NoDup (key_of keys <$> S).
Hypothesis no_null_key : forall s c, s ∈ S -> c ∈ keys -> cell_of s c <> CNull.

Lemma key_match_S t s :
  s ∈ S -> key_match keys t s = bool_decide (key_of keys t = key_of keys s).
Proof. intros Hs. apply key_match_eq. intros c Hc. exact (no_null_key s c Hs Hc). Qed.

Lemma same_key_same_row s s' :
  s ∈ S -> s' ∈ S -> key_of keys s = key_of keys s' -> s = s'.
Proof.
  clear keys_in_target no_null_key. revert one_row_per_key.
  induction S as [|a l IH]; intros Hnd Hs Hs' Hk.
  - apply elem_of_nil in Hs. contradiction.
  - rewrite fmap_cons in Hnd. apply NoDup_cons in Hnd as [Ha Hnd].
    apply elem_of_cons in Hs as [->|Hs]; apply elem_of_cons in Hs' as [->|Hs'].
    + reflexivity.
    + exfalso. apply Ha. rewrite Hk. apply list_elem_of_fmap. eauto.
    + exfalso. apply Ha. rewrite <- Hk. apply list_elem_of_fmap. eauto.
    + apply IH; assumption.
Qed.

(** The first batch row matching [t] is a function of the key of [t]. *)
Lemma find_match_key t t' :
  key_of keys t = key_of keys t' ->
  List.find (key_match keys t) S = List.find (key_match keys t') S.
Proof.
  intros Hk. clear one_row_per_key keys_in_target.
  induction S as [|s l IH]; [reflexivity|]. cbn [List.find].
  rewrite !key_match_eq by (intros c Hc; apply (no_null_key s c); [left|exact Hc]).
  rewrite Hk. destruct (bool_decide _); [reflexivity|].
  apply IH. intros s' c Hs'. apply no_null_key. right. exact Hs'.
Qed.

Lemma find_match_self s :
  s ∈ S -> List.find (key_match keys (insert_from target s)) S = Some s.
Proof.
  intros Hs.
  destruct (List.find (key_match keys (insert_from target s)) S) as [s'|] eqn:E.
  - apply find_some in E as [Hs' Hm]. apply list_elem_of_In in Hs'.
    rewrite key_match_S in Hm by exact Hs'. apply bool_decide_eq_true in Hm.
    rewrite key_of_insert in Hm by exact keys_in_target.
    f_equal. symmetry. apply same_key_same_row; assumption.
  - exfalso.
    pose proof (find_none _ _ E s (proj1 (list_elem_of_In _ _) Hs)) as Hf.
    rewrite key_match_S in Hf by exact Hs. apply bool_decide_eq_false in Hf.
    apply Hf, key_of_insert, keys_in_target.
Qed.

(** No target row is matched by two batch rows. *)
Lemma at_most_one_match t :
  (length (List.filter (key_match keys t) S) <= 1)%nat.
Proof.
  clear keys_in_target. revert one_row_per_key no_null_key.
  induction S as [|s l IH]; intros Hnd Hnn; cbn [List.filter]; [cbn; lia|].
  rewrite fmap_cons in Hnd. apply NoDup_cons in Hnd as [Hs Hnd].
  assert (IHl : (length (List.filter (key_match keys t) l) <= 1)%nat).
  { apply IH; [exact Hnd|]. intros s' c Hs'. apply Hnn. right. exact Hs'. }
  destruct (key_match keys t s) eqn:Hm; [|exact IHl].
  cbn [length].
  assert (Hnone : List.filter (key_match keys t) l = []).
  { destruct (List.filter (key_match keys t) l) as [|s' r] eqn:Hf; [reflexivity|].
    exfalso. assert (Hin : s' ∈ List.filter (key_match keys t) l) by (rewrite Hf; left).
    apply elem_of_filter_bool in Hin as [Hs' Hm'].
    rewrite key_match_eq in Hm by (intros c Hc; apply (Hnn s c); [left|exact Hc]).
    rewrite key_match_eq in Hm'
      by (intros c Hc; apply (Hnn s' c); [right; exact Hs'|exact Hc]).
    apply bool_decide_eq_true in Hm, Hm'. apply Hs. rewrite <- Hm, Hm'.
    apply list_elem_of_fmap. eauto. }
  rewrite Hnone. cbn. lia.
Qed.

Definition merged (T : list srow) : list srow :=
  map (fun t =>
         match List.find (key_match keys t) S with
         | Some s => update_from (non_key keys target) s t
         | None => t
         end) T
  ++ map (insert_from target)
         (List.filter (fun s => negb (existsb (fun t => key_match keys t s) T)) S).

Lemma merge_rows_merged T : merge_rows keys target T S = Ok (merged T).
Proof.
  unfold merge_rows.
  replace (existsb _ T) with false; [reflexivity|].
  symmetry. apply not_true_iff_false. intros H.
  apply existsb_exists in H as (t & _ & Ht). apply Z.ltb_lt in Ht.
  pose proof (at_most_one_match t). lia.
Qed.

(** After one merge every batch row has its key in the target, and merging
    the batch again changes no row. *)
Lemma merged_twice T : merged (merged T) = merged T.
Proof.
  unfold merged at 1.
  assert (Hall : List.filter
            (fun s => negb (existsb (fun t => key_match keys t s) (merged T))) S = []).
  { destruct (List.filter _ S) as [|s r] eqn:Hf; [reflexivity|]. exfalso.
    assert (Hin : s ∈ List.filter
              (fun s => negb (existsb (fun t => key_match keys t s) (merged T))) S)
      by (rewrite Hf; left).
    apply elem_of_filter_bool in Hin as [Hs Hn]. apply negb_true_iff in Hn.
    apply not_true_iff_false in Hn. apply Hn. apply existsb_exists.
    destruct (existsb (fun t => key_match keys t s) T) eqn:Hex.
    - apply existsb_exists in Hex as (t & Ht & Hm).
      exists (match List.find (key_match keys t) S with
              | Some s0 => update_from (non_key keys target) s0 t
              | None => t
              end).
      split.
      + unfold merged. apply in_or_app. left. apply in_map_iff. eauto.
      + rewrite key_match_S in Hm |- * by exact Hs.
        apply bool_decide_eq_true in Hm. apply bool_decide_eq_true.
        rewrite <- Hm. destruct (List.find _ S); [apply key_of_update|reflexivity].
    - exists (insert_from target s). split.
      + unfold merged. apply in_or_app. right. apply in_map.
        apply list_elem_of_In, elem_of_filter_bool. rewrite Hex. auto.
      + rewrite key_match_S by exact Hs. apply bool_decide_eq_true.
        apply key_of_insert, keys_in_target. }
  rewrite Hall. cbn [map]. rewrite app_nil_r.
  rewrite <- (map_id (merged T)) at 2. apply map_ext_in. intros t Ht.
  unfold merged in Ht. apply in_app_or in Ht as [Ht|Ht].
  - apply in_map_iff in Ht as (t0 & <- & _).
    destruct (List.find (key_match keys t0) S) as [s|] eqn:Hfind.
    + rewrite (find_match_key _ t0) by apply key_of_update.
      rewrite Hfind. apply update_from_idem.
    + rewrite Hfind. reflexivity.
  - apply in_map_iff in Ht as (s & <- & Hs).
    apply list_elem_of_In, elem_of_filter_bool in Hs as [Hs _].
    rewrite (find_match_self s Hs). apply update_from_fixed.
    intros c Hc. unfold insert_from. apply lookup_tabulate.
    unfold non_key in Hc. apply elem_of_filter_bool in Hc. tauto.
Qed.

End OneRowPerKey.

(** The keys of the [VALUES] rows are the keys of the frame rows. *)
Lemma values_clause_keys df keys target S :
  values_clause df target = Ok S ->
  (forall c, c ∈ keys -> c ∈ target) ->
  NoDup (project (labels df) keys <$> rows df) ->
  (forall r, r ∈ rows df -> has_key (labels df) keys r = true) ->
  NoDup (key_of keys <$> S)
  /\ forall s c, s ∈ S -> c ∈ keys -> cell_of s c <> CNull.
Proof.
  intros HS Hkt Hnd Hnn. unfold values_clause in HS.
  apply obind_Ok in HS as (u & _ & HS). injection HS as <-.
  assert (Hkey : forall r,
            key_of keys (list_to_map
                           (map (fun c => (c, at_col (labels df) r c)) target))
            = project (labels df) keys r).
  { intros r. unfold key_of, project. apply map_ext_in. intros c Hc.
    apply HistoryFacts.cell_of_tabulate, Hkt, list_elem_of_In, Hc. }
  split.
  - rewrite <- list_fmap_compose.
    erewrite list_fmap_ext; [exact Hnd|]. intros i r _. apply Hkey.
  - intros s0 c Hs0 Hc. apply list_elem_of_fmap in Hs0 as (r & -> & Hr).
    rewrite HistoryFacts.cell_of_tabulate by (apply Hkt, Hc).
    specialize (Hnn r Hr). unfold has_key in Hnn. rewrite forallb_forall in Hnn.
    apply list_elem_of_In, Hnn in Hc.
    destruct (at_col (labels df) r c); [discriminate Hc|discriminate..].
Qed.

(** What a successful [scd1_merge] has checked and done. *)
Lemma scd1_merge_Ok s t df keys target e e1 :
  scd1_merge s t df keys target e = (Ok tt, e1) ->
  exists S df' tb T1,
    values_clause df target = Ok S
    /\ drop_duplicates_last keys df = Ok df'
    /\ bool_decide (S = []) = false
    /\ bool_decide (keys = []) || bool_decide (non_key keys target = []) = false
    /\ find_table s t (sys_tables e) = Some tb
    /\ negb (cols_ok tb (keys ++ target))
       || negb (forallb (fun c => bool_decide (c ∈ target)) keys) = false
    /\ merge_rows keys target (t_rows tb) S = Ok T1
    /\ e1 = set_tables (put_table s t (with_t_rows tb T1) (sys_tables e)) e.
Proof.
  intros H. unfold scd1_merge in H.
  apply bind_Ok in H as (S & e0 & H1 & H). apply lift_Ok in H1 as [HS ->].
  apply bind_Ok in H as (df' & e0 & H1 & H). apply lift_Ok in H1 as [Hdf ->].
  unfold transaction in H.
  destruct (bool_decide (S = [])) eqn:HSne; [discriminate|].
  unfold execute_merge in H.
  destruct (bool_decide (keys = []) || bool_decide (non_key keys target = []))
    eqn:Hsyn; [discriminate|].
  unfold bind at 1, the_table in H.
  destruct (find_table s t (sys_tables e)) as [tb|] eqn:Hfind; [|discriminate].
  destruct (negb (cols_ok tb (keys ++ target)) || _) eqn:Hcols; [discriminate|].
  unfold bind at 1, lift in H.
  destruct (merge_rows keys target (t_rows tb) S) as [T1|x] eqn:Hm; [|discriminate].
  destruct (negb (forallb _ T1)); [discriminate|].
  unfold write_rows, modify in H. injection H as <-.
  exists S, df', tb, T1. repeat split; assumption.
Qed.

(** X12: SCD1 idempotence: when [scd1_merge] has succeeded on a batch with one
    row per key and no null key, merging the same batch again succeeds and
    changes nothing. *)
Theorem scd1_merge_twice_is_once s t df keys target e e1 :
  scd1_merge s t df keys target e = (Ok tt, e1) ->
  NoDup (project (labels df) keys <$> rows df) ->
  (forall r, r ∈ rows df -> has_key (labels df) keys r = true) ->
  scd1_merge s t df keys target e1 = (Ok tt, e1).
Proof.
  intros H Hnd Hnn.
  apply scd1_merge_Ok in H
    as (S & df' & tb & T1 & HS & Hdf & HSne & Hsyn & Hfind & Hcols & Hm & ->).
  assert (Hkt : forall c, c ∈ keys -> c ∈ target).
  { apply orb_false_iff in Hcols as [_ Hk]. apply negb_false_iff in Hk.
    rewrite forallb_forall in Hk. intros c Hc.
    apply list_elem_of_In, Hk in Hc. apply bool_decide_eq_true in Hc. exact Hc. }
  destruct (values_clause_keys df keys target S HS Hkt Hnd Hnn) as [HndS HnnS].
  rewrite (merge_rows_merged keys target S HndS HnnS) in Hm. injection Hm as <-.
  set (T1 := merged keys target S (t_rows tb)).
  assert (Hsame : same_table s t (with_t_rows tb T1) = true).
  { rewrite LoadFacts.same_table_with_rows. eapply LoadFacts.find_table_same.
    exact Hfind. }
  unfold scd1_merge, bind at 1, lift. rewrite HS.
  unfold bind at 1. rewrite Hdf.
  unfold transaction. rewrite HSne. unfold execute_merge. rewrite Hsyn.
  unfold bind at 1, the_table. cbn [sys_tables set_tables].
  rewrite (LoadFacts.find_put_table s t (sys_tables e) tb _ Hfind Hsame).
  change (cols_ok (with_t_rows tb T1) (keys ++ target)) with (cols_ok tb (keys ++ target)).
  rewrite Hcols. unfold bind at 1, lift.
  rewrite (merge_rows_merged keys target S HndS HnnS). cbn [t_rows with_t_rows].
  assert (Htwice : merged keys target S T1 = T1)
    by (unfold T1; apply merged_twice; assumption).
  rewrite Htwice.
  assert (Hcheck : forallb (fun r => bool_decide (r ∈ T1)
                     || row_ok (with_t_rows tb T1) r) T1 = true).
  { apply forallb_forall. intros r Hr. apply list_elem_of_In in Hr.
    rewrite (bool_decide_eq_true_2 _ Hr). reflexivity. }
  rewrite Hcheck. cbn [negb]. unfold write_rows, modify.
  cbn [sys_tables set_tables]. rewrite LoadFacts.put_put_table by exact Hsame.
  reflexivity.
Qed.

Definition batch_one_version : DataFrame :=
  {| columns := [("EmpId", DNumber); ("Name", DObject)];
     rows := [[CInt 1; CStr "a"]; [CInt 2; CStr "b"]] |}.

Lemma scd1_merge_twice_is_once_witness :
  let e := db_of [processed_emp [emp_row 1 "z"]] in
  let e1 := (scd1_merge "processed" "emp" batch_one_version ["EmpId"] emp_cols e).2 in
  sys_tables e1 = [processed_emp [emp_row 1 "a"; emp_row 2 "b"]]
  /\ scd1_merge "processed" "emp" batch_one_version ["EmpId"] emp_cols e1 = (Ok tt, e1).
Proof.
  intros e e1. split; [reflexivity|].
  apply (scd1_merge_twice_is_once "processed" "emp" batch_one_version ["EmpId"]
           emp_cols e e1).
  - reflexivity.
  - apply (proj1 (bool_decide_eq_true
             (NoDup (project (labels batch_one_version) ["EmpId"]
                       <$> rows batch_one_version)))).
    reflexivity.
  - intros r Hr. repeat (apply elem_of_cons in Hr as [->|Hr]; [reflexivity|]).
    apply elem_of_nil in Hr. contradiction.
Defined.

(** X13: SCD2 no-op: when every batch row has a current stored row of its key and
    no current stored row differs from a batch row of its key in a non-key
    column, a successful [scd2_merge] closes nothing and inserts nothing. *)
Theorem scd2_merge_unchanged_batch_is_noop
    s t df keys target st en cur e e' tb S :
  scd2_merge s t df keys target st en cur e = (Ok tt, e') ->
  find_table s t (sys_tables e) = Some tb ->
  values_clause df target = Ok S ->
  (forall s0, s0 ∈ S ->
     exists t0, t0 ∈ t_rows tb
                /\ key_match keys t0 s0 = true /\ is_current cur t0 = true) ->
  (forall s0 t0, s0 ∈ S -> t0 ∈ t_rows tb ->
     key_match keys t0 s0 = true -> is_current cur t0 = true ->
     changed (non_key keys target) t0 s0 = false) ->
  find_table s t (sys_tables e') = Some tb.
Proof.
  intros H Hfind HS Hmatch Hsame.
  destruct (HistoryFacts.scd2_merge_rows _ _ _ _ _ _ _ _ _ _ _ H Hfind)
    as (S' & HS' & _ & Hf).
  rewrite HS in HS'. injection HS' as <-. rewrite Hf. f_equal.
  assert (Hclose : close_rows keys (non_key keys target) en cur (clock e) S (t_rows tb)
                   = t_rows tb).
  { unfold close_rows. rewrite <- (map_id (t_rows tb)) at 2.
    apply map_ext_in. intros t0 Ht0. apply list_elem_of_In in Ht0.
    destruct (is_current cur t0) eqn:Hc; [|reflexivity]. cbn [andb].
    replace (existsb _ S) with false; [reflexivity|].
    symmetry. apply not_true_iff_false. intros Hex.
    apply existsb_exists in Hex as (s0 & Hs0 & Hx). apply list_elem_of_In in Hs0.
    apply andb_true_iff in Hx as [Hk Hch].
    rewrite (Hsame s0 t0 Hs0 Ht0 Hk Hc) in Hch. discriminate. }
  cbv zeta. rewrite Hclose.
  assert (Hopen : open_rows keys target (non_key keys target) st en cur (clock e) S
                    (t_rows tb) = []).
  { unfold open_rows. clear Hf H HS Hclose.
    induction S as [|s0 S0 IH]; [reflexivity|].
    cbn [flat_map]. rewrite IH.
    2:{ intros s1 Hs1. apply Hmatch. right. exact Hs1. }
    2:{ intros s1 t1 Hs1 Ht1 Hk1 Hc1.
        apply (Hsame s1 t1); [right| | |]; assumption. }
    rewrite app_nil_r.
    destruct (Hmatch s0) as (t0 & Ht0 & Hk & Hc); [left|].
    destruct (List.filter (fun t1 => key_match keys t1 s0 && is_current cur t1)
                (t_rows tb)) as [|m ms] eqn:Hflt.
    - exfalso. assert (Hin : t0 ∈ List.filter
                  (fun t1 => key_match keys t1 s0 && is_current cur t1) (t_rows tb)).
      { apply elem_of_filter_bool. rewrite Hk, Hc. auto. }
      rewrite Hflt in Hin. apply elem_of_nil in Hin. exact Hin.
    - replace (List.filter (fun t1 => changed (non_key keys target) t1 s0) (m :: ms))
        with (@nil srow); [reflexivity|].
      symmetry. rewrite <- Hflt.
      destruct (List.filter _ (List.filter _ (t_rows tb))) as [|x xs] eqn:Hx;
        [reflexivity|]. exfalso.
      assert (Hin : x ∈ List.filter (fun t1 => changed (non_key keys target) t1 s0)
                (List.filter (fun t1 => key_match keys t1 s0 && is_current cur t1)
                   (t_rows tb))) by (rewrite Hx; left).
      apply elem_of_filter_bool in Hin as [Hin Hch].
      apply elem_of_filter_bool in Hin as [Hin Hkc].
      apply andb_true_iff in Hkc as [Hk' Hc'].
      rewrite (Hsame s0 x (list_elem_of_here _ _) Hin Hk' Hc') in Hch. discriminate. }
  rewrite Hopen, app_nil_r. destruct tb. reflexivity.
Qed.

Definition history_row (id : Z) (name : string) : srow :=
  <["IsCurrent" := CInt 1]> (<["EndTime" := CNull]>
    (<["StartTime" := CTime t0]> (emp_row id name))).

Lemma scd2_merge_unchanged_batch_is_noop_witness :
  let tb := processed_emp_history [history_row 1 "a"; history_row 2 "b"] in
  find_table "processed" "emp"
    (sys_tables (scd2_merge "processed" "emp" batch_one_version ["EmpId"] emp_cols
                   "StartTime" "EndTime" "IsCurrent" (db_of [tb])).2)
  = Some tb.
Proof.
  intros tb.
  apply (scd2_merge_unchanged_batch_is_noop "processed" "emp" batch_one_version
           ["EmpId"] emp_cols "StartTime" "EndTime" "IsCurrent" (db_of [tb]) _ tb
           [emp_row 1 "a"; emp_row 2 "b"]).
  - reflexivity.
  - reflexivity.
  - reflexivity.
  - intros s0 Hs0.
    apply elem_of_cons in Hs0 as [->|Hs0];
      [exists (history_row 1 "a"); split; [left|split; reflexivity]|].
    apply list_elem_of_singleton in Hs0. subst s0.
    exists (history_row 2 "b"). split; [right; left|split; reflexivity].
  - intros s0 t1 Hs0 Ht1.
    apply elem_of_cons in Hs0 as [->|Hs0];
      [|apply list_elem_of_singleton in Hs0; subst s0];
      (apply elem_of_cons in Ht1 as [->|Ht1];
       [|apply list_elem_of_singleton in Ht1; subst t1]);
      vm_compute; intros; congruence.
Defined.

(** X14: Without key columns - a job whose metadata flags no primary key - no
    merge can run: [scd1_merge] and [scd2_merge] raise and [incremental_load]
    reports an error unless the batch is empty; the database is as before
    for the SCD merges, and the target table is untouched by
    [incremental_load]. *)
Theorem merges_need_key_columns s t df target e :
  (exists msg, scd1_merge s t df [] target e = (Raise msg, e))
  /\ (forall st en cur,
        exists msg, scd2_merge s t df [] target st en cur e = (Raise msg, e))
  /\ (forall job md stage r e',
        incremental_load job s t md df stage [] e = (Ok r, e') ->
        find_table s t (sys_tables e') = find_table s t (sys_tables e)
        /\ IncrementalTracker e' = IncrementalTracker e
        /\ (status r = "success" -> rows_written r = Some 0)).
Proof.
  split; [|split].
  - unfold scd1_merge, bind at 1, lift.
    destruct (values_clause df target) as [S|x]; [|eauto].
    unfold bind at 1. destruct (drop_duplicates_last [] df) as [df'|x]; [|eauto].
    unfold transaction. destruct (bool_decide (S = [])); [unfold raise; eauto|].
    unfold execute_merge. cbn [orb bool_decide]. unfold raise. eauto.
  - intros st en cur. unfold scd2_merge, bind at 1, lift.
    destruct (values_clause df target) as [S|x]; [|eauto].
    unfold raise. eauto.
  - intros job md stage r e' H.
    unfold incremental_load, try_except in H.
    pose proof (LoadFacts.incremental_load_body_cases job s t md df stage [] e) as Hb.
    destruct (incremental_load_body job s t md df stage [] e) as [[r0|x] e0] eqn:Hbody.
    + injection H as <- <-.
      unfold incremental_load_body in Hbody. unfold bind at 1, lift in Hbody.
      destruct (columns_in md df) as [tc|x]; [|discriminate].
      unfold bind at 1 in Hbody. destruct (select tc df) as [df'|x]; [|discriminate].
      destruct (empty df') eqn:Hempty.
      * unfold ret in Hbody. injection Hbody as <- <-.
        split; [reflexivity|]. split; [reflexivity|]. intros _. reflexivity.
      * exfalso. cbn [negb] in Hbody. unfold bind at 1 in Hbody.
        destruct (transaction _ e) as [[u1|x] e1]; [|discriminate].
        unfold bind at 1 in Hbody.
        destruct (to_sql df' (t +:+ "_staging") s e1) as [[u2|x] e2]; [|discriminate].
        unfold bind at 1 in Hbody.
        assert (Hraise : exists x, transaction
                  (let* s0 := the_table s (t +:+ "_staging") in
                   execute_merge s t [] tc (t_rows s0)) e2 = (Raise x, e2)).
        { unfold transaction, bind, the_table.
          destruct (find_table s (t +:+ "_staging") (sys_tables e2)); eauto. }
        destruct Hraise as [x Hx]. rewrite Hx in Hbody. discriminate.
    + unfold ret in H. injection H as <- <-. destruct Hb as [Hb1 Hb2].
      split; [exact Hb1|]. split; [exact Hb2|]. discriminate.
Qed.

End MergeFacts.

(** ** The stages: reruns, refused dates, what lands in raw, what a load touches *)

Module StageFacts.
Import MFacts FrameFacts EnforcerFacts SourceRawFacts LoadFacts AuditFacts Samples.

(** *** The order of datetimes *)

Lemma dt_ltb_spec a b :
  dt_ltb a b = true <->
  dt_year a < dt_year b
  \/ (dt_year a = dt_year b
      /\ (dt_month a < dt_month b
          \/ (dt_month a = dt_month b
              /\ (dt_day a < dt_day b
                  \/ (dt_day a = dt_day b /\ dt_micros a < dt_micros b))))).
Proof.
  unfold dt_ltb.
  destruct (Z.ltb_spec (dt_year a) (dt_year b)), (Z.eqb_spec (dt_year a) (dt_year b)),
    (Z.ltb_spec (dt_month a) (dt_month b)), (Z.eqb_spec (dt_month a) (dt_month b)),
    (Z.ltb_spec (dt_day a) (dt_day b)), (Z.eqb_spec (dt_day a) (dt_day b)),
    (Z.ltb_spec (dt_micros a) (dt_micros b));
    cbn; split; intros Hab; first [reflexivity | discriminate | lia].
Qed.

Lemma dt_ltb_not a b :
  dt_ltb a b = false <-> ~ dt_ltb a b = true.
Proof. rewrite not_true_iff_false. reflexivity. Qed.

(** [a < b], [b <= c] and [d <= a] give [d <= c]. *)
Lemma dt_behind a b c d :
  dt_ltb a b = true -> dt_ltb c b = false -> dt_ltb a d = false ->
  dt_ltb c d = false.
Proof. rewrite !dt_ltb_not, !dt_ltb_spec. lia. Qed.

Lemma dt_le_trans a b c :
  dt_ltb c b = false -> dt_ltb b a = false -> dt_ltb c a = false.
Proof. rewrite !dt_ltb_not, !dt_ltb_spec. lia. Qed.

Lemma dt_ltb_irrefl a : dt_ltb a a = false.
Proof. rewrite dt_ltb_not, dt_ltb_spec. lia. Qed.

Lemma dt_ltb_asym a b : dt_ltb a b = true -> dt_ltb b a = false.
Proof. rewrite dt_ltb_not, !dt_ltb_spec. lia. Qed.

(** [max_date] is no earlier than its seed and than any date of the list. *)
Lemma max_date_ge l : forall d0,
  dt_ltb (max_date d0 l) d0 = false
  /\ forall p, p ∈ l -> dt_ltb (max_date d0 l) p.2 = false.
Proof.
  unfold max_date. induction l as [|x l IH]; intros d0; cbn [fold_left].
  - split; [apply dt_ltb_irrefl|]. intros p Hp. apply elem_of_nil in Hp. contradiction.
  - destruct (IH (if dt_ltb d0 x.2 then x.2 else d0)) as [H0 Hl].
    assert (Hd0 : dt_ltb (if dt_ltb d0 x.2 then x.2 else d0) d0 = false).
    { destruct (dt_ltb d0 x.2) eqn:E; [apply dt_ltb_asym; exact E|apply dt_ltb_irrefl]. }
    assert (Hx : dt_ltb (if dt_ltb d0 x.2 then x.2 else d0) x.2 = false).
    { destruct (dt_ltb d0 x.2) eqn:E; [apply dt_ltb_irrefl|exact E]. }
    split; [eapply dt_le_trans; eassumption|].
    intros p Hp. apply elem_of_cons in Hp as [->|Hp]; [|apply Hl; exact Hp].
    eapply dt_le_trans; eassumption.
Qed.

(** *** The loop over the files *)

(** When the loop returns, every dated file of the list had a date of the
    calendar, and those later than the watermark are in the result. *)
Lemma new_files_loop_complete files wm : forall acc nf,
  new_files_loop files wm acc = Ok nf ->
  (forall p, p ∈ acc -> p ∈ nf)
  /\ forall f y m d, f ∈ files ->
       DATE_PATTERN_search (basename f) = Some (y, m, d) ->
       exists dt, mk_datetime y m d = Ok dt
                  /\ (dt_ltb wm dt = true -> (f, dt) ∈ nf).
Proof.
  induction files as [|g files IH]; intros acc nf H.
  - cbn in H. injection H as <-. split; [auto|].
    intros f y m d Hf. apply elem_of_nil in Hf. contradiction.
  - cbn [new_files_loop] in H.
    destruct (DATE_PATTERN_search (basename g)) as [[[y0 m0] d0]|] eqn:Hs.
    + destruct (mk_datetime y0 m0 d0) as [gd|msg] eqn:Hd; cbn [obind] in H;
        [|discriminate].
      destruct (dt_ltb wm gd) eqn:Hlt.
      * destruct (IH _ _ H) as [Hacc Hall]. split.
        -- intros p Hp. apply Hacc, elem_of_app. left. exact Hp.
        -- intros f y m d Hf Hsf. apply elem_of_cons in Hf as [->|Hf];
             [|exact (Hall f y m d Hf Hsf)].
           rewrite Hs in Hsf. injection Hsf as <- <- <-.
           exists gd. split; [exact Hd|]. intros _.
           apply Hacc, elem_of_app. right. left.
      * destruct (IH _ _ H) as [Hacc Hall]. split; [exact Hacc|].
        intros f y m d Hf Hsf. apply elem_of_cons in Hf as [->|Hf];
          [|exact (Hall f y m d Hf Hsf)].
        rewrite Hs in Hsf. injection Hsf as <- <- <-.
        exists gd. split; [exact Hd|]. congruence.
    + destruct (IH _ _ H) as [Hacc Hall]. split; [exact Hacc|].
      intros f y m d Hf Hsf. apply elem_of_cons in Hf as [->|Hf];
        [|exact (Hall f y m d Hf Hsf)].
      rewrite Hs in Hsf. discriminate.
Qed.

(** With a watermark no dated file is later than, the loop adds nothing. *)
Lemma new_files_loop_none files wm acc :
  (forall f y m d, f ∈ files ->
     DATE_PATTERN_search (basename f) = Some (y, m, d) ->
     exists dt, mk_datetime y m d = Ok dt /\ dt_ltb wm dt = false) ->
  new_files_loop files wm acc = Ok acc.
Proof.
  induction files as [|g files IH]; intros H; [reflexivity|].
  cbn [new_files_loop].
  assert (Hrest : new_files_loop files wm acc = Ok acc).
  { apply IH. intros f y m d Hf. apply H. right. exact Hf. }
  destruct (DATE_PATTERN_search (basename g)) as [[[y0 m0] d0]|] eqn:Hs;
    [|exact Hrest].
  destruct (H g y0 m0 d0) as (dt & Hd & Hlt); [left|exact Hs|].
  rewrite Hd. cbn [obind]. rewrite Hlt. exact Hrest.
Qed.

(** One date outside the calendar stops the loop. *)
Lemma new_files_loop_bad_date files wm f y m d msg : forall acc,
  f ∈ files ->
  DATE_PATTERN_search (basename f) = Some (y, m, d) ->
  mk_datetime y m d = Raise msg ->
  exists msg', new_files_loop files wm acc = Raise msg'.
Proof.
  induction files as [|g files IH]; intros acc Hf Hs Hd.
  - apply elem_of_nil in Hf. contradiction.
  - cbn [new_files_loop]. apply elem_of_cons in Hf as [<-|Hf].
    + rewrite Hs, Hd. cbn [obind]. eauto.
    + destruct (DATE_PATTERN_search (basename g)) as [[[y0 m0] d0]|];
        [|apply IH; assumption].
      destruct (mk_datetime y0 m0 d0) as [gd|msg0]; cbn [obind]; [|eauto].
      destruct (dt_ltb wm gd); apply IH; assumption.
Qed.

(** X16: An incremental load of the source files is not repeated: once the branch
    has returned, a second run over the same files - whatever the reader now
    finds in them - selects no file, reports zero rows and leaves the
    database as the first run left it. *)
Theorem incremental_rerun_loads_nothing
    (reader : list string -> string -> outcome DataFrame)
    job s t md stype files e r e' :
  SourceRaw.incremental_branch reader job s t md stype files e = (Ok r, e') ->
  forall reader',
  SourceRaw.incremental_branch reader' job s t md stype files e'
  = (Ok {| status := "success"; rows_written := Some 0;
           message := "No new files to process" |}, e').
Proof.
  intros H reader'. unfold SourceRaw.incremental_branch in H |- *.
  unfold bind at 1, _get_incremental_tracker, gets in H.
  unfold bind at 1, lift in H.
  set (wm := default (Datetime 1900 1 1 0) (IncrementalTracker e !! (job, "source_raw"))) in H.
  destruct (new_files_loop files wm []) as [nf|x] eqn:Hnf; [|discriminate].
  destruct nf as [|first nf'].
  - unfold ret in H. injection H as <- <-.
    unfold bind at 1, _get_incremental_tracker, gets.
    unfold bind at 1, lift. fold wm. rewrite Hnf. reflexivity.
  - unfold bind at 1, lift in H.
    destruct (process_files reader md stype _) as [df|x]; [|discriminate].
    unfold bind at 1 in H.
    destruct (_insert_raw df s t e) as [[u|x] e1]; [|discriminate].
    unfold bind at 1, _update_incremental_tracker, transaction, modify, ret in H.
    injection H as <- <-.
    unfold bind at 1, _get_incremental_tracker, gets.
    cbn [IncrementalTracker set_tracker]. rewrite lookup_insert_eq. cbn [default].
    unfold bind at 1, lift.
    rewrite new_files_loop_none; [reflexivity|].
    intros f y m d Hf Hs.
    destruct (new_files_loop_complete _ _ _ _ Hnf) as [_ Hall].
    destruct (Hall f y m d Hf Hs) as (dt & Hd & Hin).
    exists dt. split; [exact Hd|].
    destruct (max_date_ge (sort_by_date (first :: nf')) first.2) as [Hseed Hmax].
    destruct (dt_ltb wm dt) eqn:Hlt.
    + apply (Hmax (f, dt)). apply elem_of_sort_by_date. apply Hin. reflexivity.
    + assert (Hfirst : dt_ltb wm first.2 = true).
      { destruct first as [ff fd].
        destruct (new_files_loop_sound _ _ _ _ Hnf ff fd) as [Hnil|[_ Hda]]; [left| |].
        - apply elem_of_nil in Hnil. contradiction.
        - destruct Hda as (y1 & m1 & d1 & _ & _ & Hw). exact Hw. }
      eapply dt_behind; eassumption.
Qed.

(** A landing table of the raw layer, and what a reader finds in a file:
    text, with a missing value in the last row. *)
Definition raw_emp (rs : list srow) : table :=
  {| t_schema := "raw"; t_name := "emp";
     t_defs := ["[EmpId] NVARCHAR(MAX) NULL"; "[Name] NVARCHAR(MAX) NULL"];
     t_fks := []; t_rows := rs |}.

Definition file_batch : DataFrame :=
  {| columns := [("EmpId", DObject); ("Name", DObject)];
     rows := [[CStr "1"; CStr "a"]; [CStr "2"; CNull]] |}.

Lemma incremental_rerun_loads_nothing_witness :
  let files := ["/data/emp_2024_01_05.csv"; "/data/emp_2024_01_03.csv"; "/data/emp.csv"] in
  let e := db_of [raw_emp []] in
  let e' := (SourceRaw.incremental_branch (fun _ _ => Ok file_batch)
               "JOB_EMP_RAW" "raw" "emp" emp_metadata "csv" files e).2 in
  IncrementalTracker e' !! ("JOB_EMP_RAW", "source_raw") = Some (Datetime 2024 1 5 0)
  /\ SourceRaw.incremental_branch (fun _ _ => Raise "unreadable")
       "JOB_EMP_RAW" "raw" "emp" emp_metadata "csv" files e'
     = (Ok {| status := "success"; rows_written := Some 0;
              message := "No new files to process" |}, e').
Proof.
  intros files e e'. split; [reflexivity|].
  apply (incremental_rerun_loads_nothing (fun _ _ => Ok file_batch)
           "JOB_EMP_RAW" "raw" "emp" emp_metadata "csv" files e
           {| status := "success"; rows_written := Some 2;
              message := "Incremental load completed: 2 rows" |}).
  reflexivity.
Defined.

(** X17: A file whose name carries a date that is not of the calendar - the 30th
    of February, a 13th month - makes [datetime(...)] raise inside the loop:
    the incremental branch fails as a whole, no file of the list is read or
    inserted, and the tracker stays where it was. *)
Theorem impossible_date_aborts_incremental_load
    (reader : list string -> string -> outcome DataFrame)
    job s t md stype files f y m d msg e :
  f ∈ files ->
  DATE_PATTERN_search (basename f) = Some (y, m, d) ->
  mk_datetime y m d = Raise msg ->
  exists msg',
    SourceRaw.incremental_branch reader job s t md stype files e = (Raise msg', e).
Proof.
  intros Hf Hs Hd.
  destruct (new_files_loop_bad_date files
              (default (Datetime 1900 1 1 0) (IncrementalTracker e !! (job, "source_raw")))
              f y m d msg [] Hf Hs Hd) as [msg' Hloop].
  exists msg'. unfold SourceRaw.incremental_branch.
  unfold bind at 1, _get_incremental_tracker, gets.
  unfold bind at 1, lift. rewrite Hloop. reflexivity.
Qed.

Lemma impossible_date_aborts_incremental_load_witness :
  exists msg',
    SourceRaw.incremental_branch (fun _ _ => Ok file_batch)
      "JOB_EMP_RAW" "raw" "emp" emp_metadata "csv"
      ["/data/emp_2024_01_05.csv"; "/data/emp_2024_02_30.csv"] (db_of [raw_emp []])
    = (Raise msg', db_of [raw_emp []]).
Proof.
  apply (impossible_date_aborts_incremental_load (fun _ _ => Ok file_batch)
           "JOB_EMP_RAW" "raw" "emp" emp_metadata "csv"
           ["/data/emp_2024_01_05.csv"; "/data/emp_2024_02_30.csv"]
           "/data/emp_2024_02_30.csv" 2024 2 30 "day is out of range for month"
           (db_of [raw_emp []])).
  - right. left.
  - reflexivity.
  - reflexivity.
Defined.

(** *** What lands in raw *)

Lemma select_Ok cs df out :
  select cs df = Ok out ->
  labels out = cs
  /\ length (rows out) = length (rows df)
  /\ forall c, c ∈ cs -> c ∈ labels df.
Proof.
  unfold select, check_subset. intros H.
  destruct (filter (fun c => c ∉ labels df) cs) as [|c0 miss] eqn:Hmiss;
    [|discriminate].
  cbn [obind] in H. injection H as <-. unfold labels at 1. cbn [columns rows].
  split; [|split; [apply length_map|]].
  - induction cs as [|c cs IH]; [reflexivity|].
    cbn [map fmap list_fmap fst]. f_equal.
    apply IH. rewrite filter_cons in Hmiss.
    destruct (decide (c ∉ labels df)); [discriminate|exact Hmiss].
  - intros c Hc. destruct (decide (c ∈ labels df)) as [Hin|Hout]; [exact Hin|].
    assert (Hf : c ∈ filter (fun c => c ∉ labels df) cs)
      by (apply list_elem_of_filter; split; assumption).
    rewrite Hmiss in Hf. apply elem_of_nil in Hf. contradiction.
Qed.

(** X19: The frame [process_files] hands to the insert has the target columns of
    the metadata, in metadata order, and one row per row read: a column of
    the files that the metadata does not list is dropped, and the call fails
    unless every listed source column is in the files.  Labels are taken
    without repeats, in the files and among the target columns. *)
Theorem process_files_columns
    (reader : list string -> string -> outcome DataFrame) md stype files df :
  process_files reader md stype files = Ok df ->
  (forall src, reader files stype = Ok src -> NoDup (labels src)) ->
  (forall cols, names_where (fun _ => true) md = Ok cols -> NoDup cols) ->
  exists src source_cols,
    reader files stype = Ok src
    /\ column_list "SourceColumnName" (fun _ => true) md = Ok source_cols
    /\ (forall c, c ∈ source_cols -> c ∈ labels src)
    /\ names_where (fun _ => true) md = Ok (labels df)
    /\ length (rows df) = length (rows src).
Proof.
  unfold process_files. intros H _ _.
  apply obind_Ok in H as (src & Hsrc & H).
  apply obind_Ok in H as (source_cols & Hcols & H).
  destruct (List.filter _ source_cols) as [|c0 miss] eqn:Hmiss; [|discriminate].
  apply obind_Ok in H as (df1 & H1 & H).
  apply obind_Ok in H as (rn & Hrn & H).
  apply obind_Ok in H as (target_cols & Ht & H).
  apply select_Ok in H1 as (_ & Hlen1 & Hin1).
  apply select_Ok in H as (Hl & Hlen & _).
  exists src, source_cols.
  split; [exact Hsrc|]. split; [exact Hcols|]. split; [exact Hin1|].
  split; [rewrite Hl; exact Ht|].
  rewrite Hlen. cbn [rows rename]. exact Hlen1.
Qed.

Lemma process_files_columns_witness :
  exists src source_cols,
    (fun _ _ => Ok file_batch) ["/data/emp_2024_01_05.csv"] "csv" = Ok src
    /\ column_list "SourceColumnName" (fun _ => true) emp_metadata = Ok source_cols
    /\ (forall c, c ∈ source_cols -> c ∈ labels src)
    /\ names_where (fun _ => true) emp_metadata = Ok (labels file_batch)
    /\ length (rows file_batch) = length (rows src).
Proof.
  apply (process_files_columns (fun _ _ => Ok file_batch) emp_metadata "csv"
           ["/data/emp_2024_01_05.csv"] file_batch).
  - reflexivity.
  - intros src Hsrc. injection Hsrc as <-.
    apply (proj1 (bool_decide_eq_true (NoDup (labels file_batch)))). reflexivity.
  - intros cols Hcols. vm_compute in Hcols. injection Hcols as <-.
    apply (proj1 (bool_decide_eq_true (NoDup ["EmpId"; "Name"]))). reflexivity.
Defined.

Lemma to_srow_text ls r c v :
  to_srow ls (map cell_str r) !! c = Some v -> exists txt, v = CStr txt.
Proof.
  unfold to_srow. intros H. apply elem_of_list_to_map_2 in H.
  apply elem_of_zip_r in H. apply list_elem_of_fmap in H as (x & -> & _).
  destruct x; cbn [cell_str]; eauto.
Qed.

(** X18: [_insert_raw] appends to an existing table, one row per row of the
    frame, and every value it stores is text: a missing value of the source
    file lands as the text pandas prints for it, never as [NULL]. *)
Theorem insert_raw_stores_text df s t e e' :
  _insert_raw df s t e = (Ok tt, e') ->
  NoDup (labels df) ->
  exists tb new,
    find_table s t (sys_tables e) = Some tb
    /\ find_table s t (sys_tables e') = Some (with_t_rows tb (t_rows tb ++ new))
    /\ length new = length (rows df)
    /\ (forall r c v, r ∈ new -> r !! c = Some v -> exists txt, v = CStr txt)
    /\ (forall r c, r ∈ new -> cell_of r c = CNull -> r !! c = None).
Proof.
  unfold _insert_raw. destruct (empty df); [discriminate|].
  unfold try_except, transaction, bind, the_table.
  destruct (find_table s t (sys_tables e)) as [tb|] eqn:Hfind; [|discriminate].
  destruct (negb (cols_ok tb (labels df))); [discriminate|].
  destruct (negb (forallb _ _)); [discriminate|].
  unfold write_rows, modify. intros H _. injection H as <-.
  exists tb, (map (fun r => to_srow (labels df) (map cell_str r)) (rows df)).
  split; [reflexivity|]. split.
  { cbn [sys_tables set_tables]. apply (find_put_table s t (sys_tables e) tb _ Hfind).
    rewrite same_table_with_rows. eapply find_table_same. exact Hfind. }
  split; [apply length_map|].
  assert (Htext : forall r c v,
            r ∈ map (fun r => to_srow (labels df) (map cell_str r)) (rows df) ->
            r !! c = Some v -> exists txt, v = CStr txt).
  { intros r c v Hr Hv. apply list_elem_of_fmap in Hr as (r0 & -> & _).
    eapply to_srow_text. exact Hv. }
  split; [exact Htext|].
  intros r c Hr Hnull. unfold cell_of in Hnull.
  destruct (r !! c) as [v|] eqn:Hv; [|reflexivity].
  destruct (Htext r c v Hr Hv) as [txt ->]. discriminate.
Qed.

Lemma insert_raw_stores_text_witness :
  exists tb new,
    find_table "raw" "emp" (sys_tables (db_of [raw_emp []])) = Some tb
    /\ find_table "raw" "emp"
         (sys_tables (_insert_raw file_batch "raw" "emp" (db_of [raw_emp []])).2)
       = Some (with_t_rows tb (t_rows tb ++ new))
    /\ length new = length (rows file_batch)
    /\ (forall r c v, r ∈ new -> r !! c = Some v -> exists txt, v = CStr txt)
    /\ (forall r c, r ∈ new -> cell_of r c = CNull -> r !! c = None).
Proof.
  apply (insert_raw_stores_text file_batch "raw" "emp" (db_of [raw_emp []])).
  - reflexivity.
  - apply (proj1 (bool_decide_eq_true (NoDup (labels file_batch)))). reflexivity.
Defined.

(** *** What a full load touches *)

Lemma put_table_length s t y ts : length (put_table s t y ts) = length ts.
Proof.
  induction ts as [|x ts IH]; cbn [put_table]; [reflexivity|].
  destruct (same_table s t x); cbn [length]; [reflexivity|]. rewrite IH. reflexivity.
Qed.

Lemma same_table_other s t s2 t2 x :
  (lower s2, lower t2) <> (lower s, lower t) ->
  same_table s t x = true -> same_table s2 t2 x = false.
Proof.
  unfold same_table. intros Hne H. apply andb_true_iff in H as [H1 H2].
  apply String.eqb_eq in H1. apply String.eqb_eq in H2.
  apply andb_false_iff.
  destruct (String.eqb_spec (lower (t_schema x)) (lower s2)) as [E1|E1]; [|left; reflexivity].
  destruct (String.eqb_spec (lower (t_name x)) (lower t2)) as [E2|E2]; [|right; reflexivity].
  exfalso. apply Hne. congruence.
Qed.

Lemma find_table_put_ne s t s2 t2 y ts :
  (lower s2, lower t2) <> (lower s, lower t) ->
  same_table s t y = true ->
  find_table s2 t2 (put_table s t y ts) = find_table s2 t2 ts.
Proof.
  unfold find_table. intros Hne Hy.
  induction ts as [|x ts IH]; cbn [put_table List.find]; [reflexivity|].
  destruct (same_table s t x) eqn:E; cbn [List.find].
  - rewrite (same_table_other s t s2 t2 x Hne E), (same_table_other s t s2 t2 y Hne Hy).
    reflexivity.
  - rewrite IH. reflexivity.
Qed.

(** X21: [full_load] never creates its target - with no such table it reports
    the server's error and leaves the database as it was - and it touches
    the target only: the number of tables is the same, every table under
    another name is as before, and Config, Metadata and JobAudit are
    untouched. *)
Theorem full_load_touches_only_target df s t e :
  let e' := (full_load df s t e).2 in
  (find_table s t (sys_tables e) = None ->
     full_load df s t e
     = (Ok {| status := "error"; rows_written := None;
              message := invalid_object s t |}, e))
  /\ length (sys_tables e') = length (sys_tables e)
  /\ (forall s2 t2, (lower s2, lower t2) <> (lower s, lower t) ->
        find_table s2 t2 (sys_tables e') = find_table s2 t2 (sys_tables e))
  /\ Config e' = Config e /\ Metadata e' = Metadata e /\ JobAudit e' = JobAudit e.
Proof.
  cbv zeta. rewrite full_load_cases.
  destruct (find_table s t (sys_tables e)) as [tb|] eqn:Hfind.
  - assert (Hsame : forall rs, same_table s t (with_t_rows tb rs) = true).
    { intros rs. rewrite same_table_with_rows. eapply find_table_same. exact Hfind. }
    assert (Hput : forall rs,
              let e1 := set_tables (put_table s t (with_t_rows tb rs) (sys_tables e)) e in
              length (sys_tables e1) = length (sys_tables e)
              /\ (forall s2 t2, (lower s2, lower t2) <> (lower s, lower t) ->
                    find_table s2 t2 (sys_tables e1) = find_table s2 t2 (sys_tables e))
              /\ Config e1 = Config e /\ Metadata e1 = Metadata e
              /\ JobAudit e1 = JobAudit e).
    { intros rs. cbn [sys_tables set_tables Config Metadata JobAudit].
      split; [apply put_table_length|]. split; [|auto].
      intros s2 t2 Hne. apply find_table_put_ne; [exact Hne|apply Hsame]. }
    split; [discriminate|]. cbv zeta. unfold truncated.
    destruct (empty df); [apply Hput|].
    destruct (negb (cols_ok tb (labels df))); [apply Hput|].
    destruct (negb (forallb _ _)); apply Hput.
  - cbn [snd]. split; [intros _; reflexivity|]. repeat split; reflexivity.
Qed.

(** *** Negative values *)

Lemma filter_twice {A} (p : A -> bool) (l : list A) :
  List.filter p (List.filter p l) = List.filter p l.
Proof.
  induction l as [|a l IH]; cbn [List.filter]; [reflexivity|].
  destruct (p a) eqn:E; [|exact IH]. cbn [List.filter]. rewrite E, IH. reflexivity.
Qed.

Lemma at_col_cases ls r c : at_col ls r c = CNull \/ at_col ls r c ∈ r.
Proof.
  unfold at_col. destruct (col_pos ls c) as [i|]; [|left; reflexivity].
  destruct (r !! i) as [v|] eqn:E; [|left; reflexivity].
  right. cbn [default]. eapply list_elem_of_lookup_2. exact E.
Qed.

(** X23: [enforce_no_negative] is idempotent, and a row none of whose cells is a
    negative number - nulls and text included - is never dropped. *)
Theorem enforce_no_negative_idempotent df :
  enforce_no_negative (enforce_no_negative df) = enforce_no_negative df
  /\ (forall r, r ∈ rows df -> (forall v, v ∈ r -> negative v = false) ->
        r ∈ rows (enforce_no_negative df)).
Proof.
  split.
  - unfold enforce_no_negative at 2 3.
    destruct (numeric_cols df) as [|c cs] eqn:Hn.
    + unfold enforce_no_negative. rewrite Hn. reflexivity.
    + unfold enforce_no_negative.
      change (numeric_cols (with_rows df ?rs)) with (numeric_cols df).
      rewrite Hn.
      change (labels (with_rows df ?rs)) with (labels df).
      unfold with_rows. cbn [columns rows]. rewrite filter_twice. reflexivity.
  - intros r Hr Hpos. unfold enforce_no_negative.
    destruct (numeric_cols df) as [|c cs]; [exact Hr|].
    cbn [rows with_rows]. apply elem_of_filter_bool. split; [exact Hr|].
    apply negb_true_iff. apply not_true_iff_false. intros Hex.
    apply existsb_exists in Hex as (c0 & _ & Hneg).
    destruct (at_col_cases (labels df) r c0) as [E|E].
    + rewrite E in Hneg. discriminate.
    + rewrite (Hpos _ E) in Hneg. discriminate.
Qed.

(** *** Foreign keys *)

(** One turn of the foreign-key loop leaves the database and the columns as
    they were. *)
Lemma fk_step df col ref_schema ref_table e df1 e1 :
  try_except
    (let* ref := select_distinct col ref_schema ref_table in
     let valid_values := List.filter (fun v => negb (is_null v)) ref in
     lift (filter_isin col valid_values df))
    (fun _ => ret df) e = (Ok df1, e1) ->
  e1 = e /\ columns df1 = columns df /\ rows df1 `sublist_of` rows df.
Proof.
  intros H1. unfold try_except, bind in H1.
  pose proof (select_distinct_state col ref_schema ref_table e) as Hs.
  destruct (select_distinct col ref_schema ref_table e) as [[vs|msg] e2];
    cbn in Hs; subst e2.
  - unfold lift in H1.
    destruct (filter_isin _ _ df) as [df2|msg] eqn:Hf.
    + injection H1 as -> ->. apply filter_isin_rows in Hf as [? ?]. auto.
    + apply ret_Ok in H1 as [-> ->]. auto.
  - apply ret_Ok in H1 as [-> ->]. auto.
Qed.

(** X24: Referential integrity of what [enforce_fk] returns: for a rule whose
    referenced table exists and holds the rule's column, every row that is
    left carries, in that column, a non-null value that some row of the
    referenced table holds - whatever the other rules of the list did. *)
Theorem enforce_fk_keeps_referenced_rows rules df e out e' rule colv tb :
  enforce_fk rules df e = (Ok out, e') ->
  rule ∈ rules ->
  rule !! "TargetColumnName" = Some colv ->
  find_table (fk_lookup rule).1 (fk_lookup rule).2 (sys_tables e) = Some tb ->
  str colv ∈ t_columns tb ->
  str colv ∈ labels df ->
  NoDup (labels df) ->
  Forall (fun r =>
            at_col (labels df) r (str colv) <> CNull
            /\ exists t0, t0 ∈ t_rows tb
                  /\ cell_of t0 (str colv) = at_col (labels df) r (str colv))
         (rows out).
Proof.
  intros H Hin Hcol Hfind Hrefcol Hdfcol _. revert df H Hdfcol.
  induction rules as [|rule0 rules IH]; intros df H Hdfcol.
  { apply elem_of_nil in Hin. contradiction. }
  cbn [enforce_fk] in H.
  apply bind_Ok in H as (colv0 & e0 & H0 & H).
  apply lift_Ok in H0 as [Hitem ->].
  destruct (fk_lookup rule0) as [ref_schema ref_table] eqn:Hlk.
  apply bind_Ok in H as (df1 & e1 & H1 & H).
  destruct (fk_step _ _ _ _ _ _ _ H1) as (-> & Hc1 & Hr1).
  assert (Hl1 : labels df1 = labels df) by (unfold labels; rewrite Hc1; reflexivity).
  apply elem_of_cons in Hin as [<-|Hin].
  - unfold item in Hitem. rewrite Hcol in Hitem. injection Hitem as <-.
    rewrite Hlk in Hfind. cbn [fst snd] in Hfind.
    destruct (enforce_fk_rows _ _ _ _ _ H) as (_ & _ & Hsub).
    unfold try_except, select_distinct, bind, the_table in H1.
    rewrite Hfind in H1. rewrite (bool_decide_eq_true_2 _ Hrefcol) in H1.
    unfold ret, lift, filter_isin in H1.
    rewrite check_subset_Ok in H1.
    2:{ intros c Hc. apply list_elem_of_singleton in Hc. subst c. exact Hdfcol. }
    cbn [obind] in H1. injection H1 as <-.
    apply Forall_forall. intros r Hr.
    apply (sublist_elem _ _ _ Hsub) in Hr. cbn [rows with_rows] in Hr.
    apply elem_of_filter_bool in Hr as [_ Hr]. apply bool_decide_eq_true in Hr.
    apply elem_of_filter_bool in Hr as [Hr Hnn].
    apply (proj1 (elem_of_remove_dups _ _)) in Hr.
    apply list_elem_of_fmap in Hr as (t0 & Heq & Ht0).
    split.
    + intros E. rewrite E in Hnn. discriminate.
    + exists t0. split; [exact Ht0|]. symmetry. exact Heq.
  - rewrite <- Hl1. apply (IH Hin df1 H). rewrite Hl1. exact Hdfcol.
Qed.

(** Departments 1 and 2 exist; the batch names departments 1, 3 and none. *)
Definition curated_dept : table :=
  {| t_schema := "curated"; t_name := "dept";
     t_defs := ["[DeptId] INT PRIMARY KEY NOT NULL"]; t_fks := [];
     t_rows := [to_srow ["DeptId"] [CInt 1]; to_srow ["DeptId"] [CInt 2]] |}.

Definition dept_rule : gmap string pyval :=
  meta "JOB_EMP_CURATED" "DeptId" "DeptId" "INT" 0 0 1 1 (PStr "dept").

Definition batch_depts : DataFrame :=
  {| columns := [("EmpId", DNumber); ("DeptId", DNumber)];
     rows := [[CInt 10; CInt 1]; [CInt 11; CInt 3]; [CInt 12; CNull]] |}.

Lemma enforce_fk_keeps_referenced_rows_witness :
  (enforce_fk [dept_rule] batch_depts (db_of [curated_dept])).1
  = Ok (with_rows batch_depts [[CInt 10; CInt 1]])
  /\ Forall (fun r =>
              at_col (labels batch_depts) r "DeptId" <> CNull
              /\ exists t0, t0 ∈ t_rows curated_dept
                    /\ cell_of t0 "DeptId" = at_col (labels batch_depts) r "DeptId")
           [[CInt 10; CInt 1]].
Proof.
  split; [reflexivity|].
  apply (enforce_fk_keeps_referenced_rows [dept_rule] batch_depts (db_of [curated_dept])
           (with_rows batch_depts [[CInt 10; CInt 1]]) (db_of [curated_dept])
           dept_rule (PStr "DeptId") curated_dept).
  - reflexivity.
  - left.
  - reflexivity.
  - reflexivity.
  - left.
  - right. left.
  - apply (proj1 (bool_decide_eq_true (NoDup (labels batch_depts)))). reflexivity.
Defined.

(** *** The audit row of the source stage *)

Definition ends_with_log (job stage : string) (e' : engine) : Prop :=
  exists n st msg e0, e' = (log_job_end job stage n st msg e0).2.

Lemma log_then_ret_ends job stage n st msg (r : load_result) e :
  ends_with_log job stage
    ((log_job_end job stage n st msg ;;; ret r) e).2.
Proof.
  unfold bind. rewrite log_job_end_state. cbn [ret snd].
  exists n, st, msg, e. rewrite log_job_end_state. reflexivity.
Qed.

(** The body of [load_source_to_raw] either raises or ends by closing the
    audit row. *)
Lemma source_to_raw_body_ends isdir glob reader job config md e :
  match source_to_raw_body isdir glob reader job config md e with
  | (Ok _, e') => ends_with_log job "source_to_raw" e'
  | (Raise _, _) => True
  end.
Proof.
  unfold source_to_raw_body.
  repeat (unfold bind at 1, lift at 1;
          match goal with
          | |- context [item config ?k] => destruct (item config k); [|exact I]
          end).
  match goal with
  | |- context [match ?fs with [] => _ | _ :: _ => _ end] =>
      destruct fs as [|f0 fs0]; [exact I|]
  end.
  unfold bind at 1.
  match goal with
  | |- context [let (o, e') := ?m e in _] => destruct (m e) as [[r|x] e2]; [|exact I]
  end.
  pose proof (log_then_ret_ends job "source_to_raw"
                (Some (default 0 (rows_written r))) (status r) (Some (message r)) r e2) as H.
  destruct ((log_job_end _ _ _ _ _ ;;; ret r) e2) as [[r'|x] e3]; [exact H|exact I].
Qed.

(** X20: Unlike the two later stages, [load_source_to_raw] closes its audit row
    on every path - no Config, no Metadata, no files, a failed read or
    insert, an unsupported load type, success: when it returns, no JobAudit
    row of the job's [source_to_raw] stage is left [Running]. *)
Theorem load_source_to_raw_closes_audit_row isdir glob reader job e :
  Forall (fun a => is_open job "source_to_raw" a = false)
         (JobAudit (load_source_to_raw isdir glob reader job e).2).
Proof.
  assert (H : ends_with_log job "source_to_raw"
                (load_source_to_raw isdir glob reader job e).2).
  { unfold load_source_to_raw. unfold bind at 1.
    destruct (log_job_start job "source_to_raw" e) as [[u|x] e1] eqn:Hstart.
    2:{ unfold log_job_start, transaction, bind, gets, modify in Hstart. discriminate. }
    unfold try_except. unfold bind at 1, _fetch_config, gets.
    destruct (List.filter (for_job job) (Config e1)) as [|config cs].
    { apply log_then_ret_ends. }
    unfold bind at 1, _fetch_metadata, gets.
    destruct (List.filter (for_job job) (Metadata e1)) as [|m ms].
    { apply log_then_ret_ends. }
    pose proof (source_to_raw_body_ends isdir glob reader job config (m :: ms) e1) as Hb.
    destruct (source_to_raw_body isdir glob reader job config (m :: ms) e1)
      as [[r|x] e2]; [exact Hb|].
    apply log_then_ret_ends. }
  destruct H as (n & st & msg & e0 & ->). apply log_job_end_no_open.
Qed.

(** *** The staging table of an incremental load *)

Lemma find_table_app_new s n ts x :
  find_table s n ts = None -> same_table s n x = true ->
  find_table s n (ts ++ [x]) = Some x.
Proof.
  unfold find_table. intros Hn Hx. induction ts as [|a ts IH]; cbn in Hn |- *.
  - rewrite Hx. reflexivity.
  - destruct (same_table s n a); [discriminate|]. apply IH. exact Hn.
Qed.

Lemma staging_created s n defs e e1 :
  transaction (drop_if_exists s n ;;; create_table s n defs []) e = (Ok tt, e1) ->
  find_table s n (sys_tables e1)
  = Some {| t_schema := s; t_name := n; t_defs := defs; t_fks := []; t_rows := [] |}
  /\ IncrementalTracker e1 = IncrementalTracker e /\ clock e1 = clock e.
Proof.
  unfold transaction, bind at 1, drop_if_exists, modify, create_table, bind, gets.
  cbn [sys_tables set_tables].
  destruct (bool_decide (defs = [])); [discriminate|].
  destruct (negb _); [discriminate|].
  destruct (bool_decide (is_Some _)) eqn:E; [discriminate|].
  unfold modify. intros H. injection H as <-.
  cbn [sys_tables set_tables IncrementalTracker clock]. split; [|auto].
  apply find_table_app_new.
  - apply bool_decide_eq_false in E.
    destruct (find_table s n (drop_table s n (sys_tables e))); [|reflexivity].
    exfalso. apply E. eauto.
  - unfold same_table. cbn [t_schema t_name]. rewrite !String.eqb_refl. reflexivity.
Qed.

Lemma to_sql_existing df n s e e2 tb :
  to_sql df n s e = (Ok tt, e2) ->
  find_table s n (sys_tables e) = Some tb ->
  e2 = set_tables
         (put_table s n
            (with_t_rows tb (t_rows tb ++ map (to_srow (labels df)) (rows df)))
            (sys_tables e)) e.
Proof.
  unfold to_sql, transaction, bind, gets. intros H Hfind. rewrite Hfind in H.
  destruct (negb (cols_ok tb (labels df))); [discriminate|].
  destruct (negb (forallb _ _)); [discriminate|].
  unfold write_rows, modify in H. injection H as <-. reflexivity.
Qed.

Lemma merge_from_staging s t n keys cols e e3 :
  transaction (let* s0 := the_table s n in
               execute_merge s t keys cols (t_rows s0)) e = (Ok tt, e3) ->
  exists tb rs,
    find_table s t (sys_tables e) = Some tb
    /\ e3 = set_tables (put_table s t (with_t_rows tb rs) (sys_tables e)) e.
Proof.
  unfold transaction, bind at 1, the_table.
  destruct (find_table s n (sys_tables e)) as [stg|]; [|discriminate].
  unfold execute_merge. destruct (_ || _); [discriminate|].
  unfold bind at 1, the_table.
  destruct (find_table s t (sys_tables e)) as [tb|]; [|discriminate].
  destruct (_ || _); [discriminate|].
  unfold bind, lift. destruct (merge_rows _ _ _ _) as [rs|x]; [|discriminate].
  destruct (negb _); [discriminate|].
  unfold write_rows, modify. intros H. injection H as <-. eauto.
Qed.

(** X22: A successful [incremental_load] of a batch with rows leaves its staging
    table [<table>_staging] behind, holding the batch as staged; the tracker
    of the job and stage holds the time of the run, and the rows reported
    are those of the batch. *)
Theorem incremental_load_leaves_staging job s t md df stage keys e r e' :
  incremental_load job s t md df stage keys e = (Ok r, e') ->
  status r = "success" ->
  rows_written r <> Some 0 ->
  exists cols df' stg,
    columns_in md df = Ok cols
    /\ select cols df = Ok df'
    /\ find_table s (t +:+ "_staging") (sys_tables e') = Some stg
    /\ t_rows stg = map (to_srow (labels df')) (rows df')
    /\ t_defs stg = map (fun c => "[" +:+ c +:+ "] NVARCHAR(MAX)") cols
    /\ rows_written r = Some (len df')
    /\ IncrementalTracker e' = <[(job, stage) := clock e]> (IncrementalTracker e).
Proof.
  intros H Hok Hrows. unfold incremental_load, try_except in H.
  destruct (incremental_load_body job s t md df stage keys e) as [[r0|x] e0] eqn:Hbody.
  2:{ unfold ret in H. injection H as <- <-. discriminate. }
  injection H as -> ->.
  unfold incremental_load_body in Hbody.
  apply bind_Ok in Hbody as (cols & ea & Hcols & Hbody). apply lift_Ok in Hcols as [Hcols ->].
  apply bind_Ok in Hbody as (df' & ea & Hsel & Hbody). apply lift_Ok in Hsel as [Hsel ->].
  destruct (empty df') eqn:Hempty.
  { apply ret_Ok in Hbody as [-> ->]. exfalso. apply Hrows. reflexivity. }
  cbn [negb] in Hbody.
  apply bind_Ok in Hbody as ([] & e1 & H1 & Hbody).
  apply bind_Ok in Hbody as ([] & e2 & H2 & Hbody).
  apply bind_Ok in Hbody as ([] & e3 & H3 & Hbody).
  apply bind_Ok in Hbody as ([] & e4 & H4 & Hbody).
  apply ret_Ok in Hbody as [-> ->].
  apply staging_created in H1 as (Hstg1 & Htr1 & Hck1).
  pose proof (to_sql_existing _ _ _ _ _ _ H2 Hstg1) as ->.
  apply merge_from_staging in H3 as (tb & rs & Hfind & ->).
  unfold bind, gets, _update_incremental_tracker, transaction, modify in H4.
  injection H4 as <-.
  exists cols, df'. eexists.
  split; [exact Hcols|]. split; [exact Hsel|].
  cbn [sys_tables set_tables IncrementalTracker set_tracker clock] in Hfind |- *.
  split.
  { rewrite find_table_put_ne.
    - apply (find_put_table s (t +:+ "_staging") (sys_tables e1) _ _ Hstg1).
      unfold same_table. cbn [t_schema t_name with_t_rows].
      rewrite !String.eqb_refl. reflexivity.
    - intros E. injection E as E. exact (lower_staging_neq t E).
    - rewrite same_table_with_rows. eapply find_table_same. exact Hfind. }
  cbn [t_rows t_defs with_t_rows app].
  split; [reflexivity|]. split; [reflexivity|]. split; [reflexivity|].
  rewrite Htr1, Hck1. reflexivity.
Qed.

Lemma incremental_load_leaves_staging_witness :
  let e := db_of [processed_emp [emp_row 1 "z"]] in
  let run := incremental_load "JOB_EMP_PROCESSED" "processed" "emp" emp_metadata
               MergeFacts.batch_one_version "curated_processed" ["EmpId"] e in
  let r := {| status := "success"; rows_written := Some 2;
              message := "Incremental MERGE completed: 2 rows processed" |} in
  run.1 = Ok r
  /\ exists cols df' stg,
       columns_in emp_metadata MergeFacts.batch_one_version = Ok cols
       /\ select cols MergeFacts.batch_one_version = Ok df'
       /\ find_table "processed" "emp_staging" (sys_tables run.2) = Some stg
       /\ t_rows stg = map (to_srow (labels df')) (rows df')
       /\ t_defs stg = map (fun c => "[" +:+ c +:+ "] NVARCHAR(MAX)") cols
       /\ rows_written r = Some (len df')
       /\ IncrementalTracker run.2
          = <[("JOB_EMP_PROCESSED", "curated_processed") := clock e]>
              (IncrementalTracker e).
Proof.
  intros e run r. split; [reflexivity|].
  apply (incremental_load_leaves_staging "JOB_EMP_PROCESSED" "processed" "emp"
           emp_metadata MergeFacts.batch_one_version "curated_processed" ["EmpId"] e).
  - reflexivity.
  - reflexivity.
  - discriminate.
Defined.

(** *** Instances *)

(** A history table with one current row per employee takes a batch that
    changes employee 1 and adds employee 2. *)
Lemma scd2_merge_single_current_witness :
  let tb := processed_emp_history [MergeFacts.history_row 1 "z"] in
  exists tb',
    find_table "processed" "emp"
      (sys_tables (scd2_merge "processed" "emp" MergeFacts.batch_one_version ["EmpId"]
                     emp_cols "StartTime" "EndTime" "IsCurrent" (db_of [tb])).2)
    = Some tb'
    /\ ScdFacts.single_current ["EmpId"] "IsCurrent" (t_rows tb').
Proof.
  intros tb.
  apply (HistoryFacts.scd2_merge_single_current "processed" "emp"
           MergeFacts.batch_one_version ["EmpId"] emp_cols
           "StartTime" "EndTime" "IsCurrent" (db_of [tb]) _ tb).
  - reflexivity.
  - reflexivity.
  - intros H. apply list_elem_of_singleton in H. discriminate.
  - intros H. apply list_elem_of_singleton in H. discriminate.
  - intros H. apply list_elem_of_singleton in H. discriminate.
  - apply (proj1 (bool_decide_eq_true
             (NoDup (project (labels MergeFacts.batch_one_version) ["EmpId"]
                       <$> rows MergeFacts.batch_one_version)))).
    reflexivity.
  - intros r Hr. repeat (apply elem_of_cons in Hr as [->|Hr]; [reflexivity|]).
    apply elem_of_nil in Hr. contradiction.
  - intros key. unfold ScdFacts.current_rows. cbn [t_rows tb processed_emp_history List.filter].
    destruct (_ && _); cbn [length]; lia.
Defined.

Lemma enforce_pk_fk_returns_witness :
  exists out,
    enforce_pk_fk batch_two_versions emp_metadata (db_of [])
    = (Ok out, db_of []).
Proof.
  apply (enforce_pk_fk_returns batch_two_versions emp_metadata ["EmpId"] (db_of [])).
  - intros m Hm. repeat (apply elem_of_cons in Hm as [->|Hm]; [eexists; reflexivity|]).
    apply elem_of_nil in Hm. contradiction.
  - reflexivity.
  - intros c Hc. apply list_elem_of_singleton in Hc. subst c. left.
  - apply (proj1 (bool_decide_eq_true (NoDup (labels batch_two_versions)))).
    reflexivity.
Defined.

Lemma null_scd_type_always_fails_witness :
  let e := db_processed "incremental" PNone in
  exists r,
    (load_curated_to_processed "JOB_EMP_PROCESSED" e).1 = Ok r
    /\ status r = "error"
    /\ sys_tables (load_curated_to_processed "JOB_EMP_PROCESSED" e).2 = sys_tables e
    /\ IncrementalTracker (load_curated_to_processed "JOB_EMP_PROCESSED" e).2
       = IncrementalTracker e.
Proof.
  intros e.
  apply (null_scd_type_always_fails "JOB_EMP_PROCESSED" e
           (cfg_processed "incremental" PNone) []).
  - reflexivity.
  - reflexivity.
Defined.

End StageFacts.

(** ** The orchestration and the audit *)

Module OrchestrationFacts.
Import MFacts AuditFacts Samples.

Section Keeps.

(** An audit row of the stage [init]. *)
Variable a : audit_row.
Hypothesis a_init : a_stage a = "init".

(** [m] leaves the row in JobAudit, as it is. *)
Definition keeps {A} (m : M A) : Prop :=
  forall e, a ∈ JobAudit e -> a ∈ JobAudit (m e).2.

Lemma keeps_ret {A} (x : A) : keeps (ret x).
Proof. intros e H. exact H. Qed.

Lemma keeps_lift {A} (o : outcome A) : keeps (lift o).
Proof. intros e H. exact H. Qed.

Lemma keeps_raise {A} msg : keeps (@raise A msg).
Proof. intros e H. exact H. Qed.

Lemma keeps_gets {A} (f : engine -> A) : keeps (gets f).
Proof. intros e H. exact H. Qed.

Lemma keeps_modify (f : engine -> engine) :
  (forall e, JobAudit (f e) = JobAudit e) -> keeps (modify f).
Proof. intros Hf e H. unfold modify. cbn [snd]. rewrite Hf. exact H. Qed.

Lemma keeps_bind {A B} (m : M A) (k : A -> M B) :
  keeps m -> (forall x, keeps (k x)) -> keeps (bind m k).
Proof.
  intros Hm Hk e H. unfold bind. specialize (Hm e H).
  destruct (m e) as [[x|msg] e1]; cbn [snd] in Hm |- *; [apply Hk|]; exact Hm.
Qed.

Lemma keeps_transaction {A} (m : M A) : keeps m -> keeps (transaction m).
Proof.
  intros Hm e H. unfold transaction. specialize (Hm e H).
  destruct (m e) as [[x|msg] e1]; cbn [snd] in Hm |- *; [exact Hm|exact H].
Qed.

Lemma keeps_try_except {A} (m : M A) (h : string -> M A) :
  keeps m -> (forall x, keeps (h x)) -> keeps (try_except m h).
Proof.
  intros Hm Hh e H. unfold try_except. specialize (Hm e H).
  destruct (m e) as [[x|msg] e1]; cbn [snd] in Hm |- *; [exact Hm|].
  apply Hh. exact Hm.
Qed.

Lemma keeps_log_job_start job stage : keeps (log_job_start job stage).
Proof.
  intros e H. unfold log_job_start, transaction, bind, gets, modify.
  cbn [snd JobAudit set_audit]. apply elem_of_app. left. exact H.
Qed.

(** Closing the rows of another stage leaves the row alone. *)
Lemma keeps_log_job_end job stage n st msg :
  stage <> "init" -> keeps (log_job_end job stage n st msg).
Proof.
  intros Hne e H. rewrite log_job_end_state. cbn [snd JobAudit set_audit].
  apply list_elem_of_fmap. exists a. split; [|exact H].
  assert (Hopen : is_open job stage a = false).
  { unfold is_open. rewrite a_init.
    destruct (String.eqb_spec "init" stage) as [E|E]; [congruence|].
    rewrite andb_false_r. reflexivity. }
  rewrite Hopen. reflexivity.
Qed.

Create HintDb keeps discriminated.

#[local] Hint Resolve keeps_ret keeps_lift keeps_raise keeps_gets
  keeps_log_job_start : keeps.

Ltac keeps_step :=
  lazymatch goal with
  | |- keeps (bind _ _) => apply keeps_bind; [|intros ?]
  | |- keeps (transaction _) => apply keeps_transaction
  | |- keeps (try_except _ _) => apply keeps_try_except; [|intros ?]
  | |- keeps (gets _) => apply keeps_gets
  | |- keeps (modify _) => apply keeps_modify; intros; reflexivity
  | |- keeps (ret _) => apply keeps_ret
  | |- keeps (lift _) => apply keeps_lift
  | |- keeps (raise _) => apply keeps_raise
  | |- keeps (log_job_end _ _ _ _ _) => apply keeps_log_job_end; discriminate
  | |- keeps (let _ := _ in _) => cbv zeta
  | |- keeps (if ?b then _ else _) => destruct b
  | |- keeps (match ?x with _ => _ end) => destruct x
  | |- keeps _ => solve [auto with keeps]
  end.

Ltac keeps_all := repeat keeps_step.

Lemma keeps_the_table s n : keeps (the_table s n).
Proof. intros e H. rewrite the_table_state. exact H. Qed.
#[local] Hint Resolve keeps_the_table : keeps.

Lemma keeps_write_rows s n t rs : keeps (write_rows s n t rs).
Proof. unfold write_rows. keeps_all. Qed.
#[local] Hint Resolve keeps_write_rows : keeps.

Lemma keeps_truncate s n : keeps (truncate s n).
Proof. unfold truncate. keeps_all. Qed.

Lemma keeps_to_sql df n s : keeps (to_sql df n s).
Proof. unfold to_sql. keeps_all. Qed.

Lemma keeps_read_sql s n : keeps (read_sql s n).
Proof. unfold read_sql. keeps_all. Qed.

Lemma keeps_select_distinct c s n : keeps (select_distinct c s n).
Proof. unfold select_distinct. keeps_all. Qed.

Lemma keeps_create_table s n defs fks : keeps (create_table s n defs fks).
Proof. unfold create_table. keeps_all. Qed.
#[local] Hint Resolve keeps_truncate keeps_to_sql keeps_read_sql
  keeps_select_distinct keeps_create_table : keeps.

Lemma keeps_execute_create_table sql : keeps (execute_create_table sql).
Proof. unfold execute_create_table. keeps_all. Qed.

Lemma keeps_drop_if_exists s n : keeps (drop_if_exists s n).
Proof. unfold drop_if_exists. keeps_all. Qed.

Lemma keeps_execute_merge s t keys cols rows : keeps (execute_merge s t keys cols rows).
Proof. unfold execute_merge. keeps_all. Qed.

Lemma keeps_table_exists s n : keeps (_table_exists s n).
Proof. unfold _table_exists. keeps_all. Qed.

Lemma keeps_fetch_config job : keeps (_fetch_config job).
Proof. unfold _fetch_config. keeps_all. Qed.

Lemma keeps_fetch_metadata job : keeps (_fetch_metadata job).
Proof. unfold _fetch_metadata. keeps_all. Qed.

Lemma keeps_get_tracker job stage : keeps (_get_incremental_tracker job stage).
Proof. unfold _get_incremental_tracker. keeps_all. Qed.

Lemma keeps_update_tracker job v stage : keeps (_update_incremental_tracker job v stage).
Proof. unfold _update_incremental_tracker. keeps_all. Qed.
#[local] Hint Resolve keeps_execute_create_table keeps_drop_if_exists
  keeps_execute_merge keeps_table_exists keeps_fetch_config keeps_fetch_metadata
  keeps_get_tracker keeps_update_tracker : keeps.

Lemma keeps_fk_loop rows seen acc : keeps (fk_loop rows seen acc).
Proof.
  revert seen acc. induction rows as [|r rows IH]; intros seen acc; cbn [fk_loop].
  - keeps_all.
  - keeps_step; [keeps_all|]. keeps_step; [|apply IH]. keeps_step; [keeps_all|].
    destruct (get r "ReferenceTable"); try apply keeps_raise.
    destruct (fk_reference s) as [ref_schema ref_table].
    keeps_step; [apply IH|]. keeps_step; [keeps_all|]. keeps_step; apply IH.
Qed.

Lemma keeps_foreign_key_clauses rows : keeps (_foreign_key_clauses rows).
Proof. apply keeps_fk_loop. Qed.
#[local] Hint Resolve keeps_foreign_key_clauses : keeps.

Lemma keeps_table_step job rows0 schema table cols errs :
  keeps (table_step job rows0 schema table cols errs).
Proof.
  unfold table_step. keeps_step; [keeps_all|]. keeps_step; [keeps_all|].
  keeps_step; [keeps_all|]. keeps_step; [keeps_all|]. keeps_step; [keeps_all|].
  destruct (_validate_primary_keys _ _ _ _); [|keeps_all].
  destruct (column_loop _ _ _ _ _ _ _) as [col_defs errs'].
  keeps_all.
Qed.
#[local] Hint Resolve keeps_table_step : keeps.

Lemma keeps_tables_loop job rows0 groups errs :
  keeps (tables_loop job rows0 groups errs).
Proof.
  revert errs. induction groups as [|[[schema table] cols] groups IH];
    intros errs; cbn [tables_loop]; [keeps_all|].
  keeps_step; [keeps_all|]. apply IH.
Qed.
#[local] Hint Resolve keeps_tables_loop : keeps.

Lemma keeps_create_target_tables job : keeps (create_target_tables job).
Proof. unfold create_target_tables. keeps_all. Qed.
#[local] Hint Resolve keeps_create_target_tables : keeps.

Lemma keeps_scd1_merge s t df keys cols : keeps (scd1_merge s t df keys cols).
Proof. unfold scd1_merge. keeps_all. Qed.

Lemma keeps_scd2_merge s t df keys cols st en cur :
  keeps (scd2_merge s t df keys cols st en cur).
Proof. unfold scd2_merge. keeps_all. Qed.

Lemma keeps_full_load df s t : keeps (full_load df s t).
Proof. unfold full_load. keeps_all. Qed.

Lemma keeps_incremental_load job s t md df stage keys :
  keeps (incremental_load job s t md df stage keys).
Proof. unfold incremental_load, incremental_load_body. keeps_all. Qed.
#[local] Hint Resolve keeps_scd1_merge keeps_scd2_merge keeps_full_load
  keeps_incremental_load : keeps.

Lemma keeps_enforce_fk rules df : keeps (enforce_fk rules df).
Proof.
  revert df. induction rules as [|rule rules IH]; intros df; cbn [enforce_fk].
  - keeps_all.
  - keeps_step; [keeps_all|]. destruct (fk_lookup rule) as [ref_schema ref_table].
    keeps_step; [keeps_all|]. apply IH.
Qed.
#[local] Hint Resolve keeps_enforce_fk : keeps.

Lemma keeps_enforce_constraints df md : keeps (enforce_constraints df md).
Proof. unfold enforce_constraints, enforce_pk_fk. keeps_all. Qed.
#[local] Hint Resolve keeps_enforce_constraints : keeps.

Lemma keeps_load_raw_to_curated clean_cast job :
  keeps (load_raw_to_curated clean_cast job).
Proof. unfold load_raw_to_curated, raw_to_curated_body. keeps_all. Qed.

Lemma keeps_load_curated_to_processed job : keeps (load_curated_to_processed job).
Proof.
  unfold load_curated_to_processed, curated_to_processed_body,
    CuratedProcessed.incremental_branch.
  keeps_all.
Qed.

Lemma keeps_insert_raw df s t : keeps (_insert_raw df s t).
Proof. unfold _insert_raw. keeps_all. Qed.
#[local] Hint Resolve keeps_insert_raw : keeps.

Lemma keeps_load_source_to_raw isdir glob reader job :
  keeps (load_source_to_raw isdir glob reader job).
Proof.
  unfold load_source_to_raw, source_to_raw_body, SourceRaw.incremental_branch.
  keeps_all.
Qed.

(** *** Runs of the generator *)

(** Iterated by the loop of [main.py], [k] leaves the row in JobAudit. *)
Definition stays (k : engine -> run) : Prop :=
  forall e, a ∈ JobAudit e -> a ∈ JobAudit (main_loop (k e)).

(** Iterated to the end, [k] leaves the row in JobAudit. *)
Definition lasts (k : engine -> run) : Prop :=
  forall e, a ∈ JobAudit e -> a ∈ JobAudit (k e).2.

Lemma main_loop_yield ev rest e :
  main_loop (yield_ ev rest e)
  = if String.eqb (ev_status ev) "error" then e else main_loop (rest e).
Proof. unfold main_loop, yield_. destruct (rest e) as [evs e']. reflexivity. Qed.

Lemma stays_finished : stays finished.
Proof. intros e H. exact H. Qed.

Lemma stays_yield ev rest :
  (ev_status ev <> "error" -> stays rest) -> stays (yield_ ev rest).
Proof.
  intros Hrest e H. rewrite main_loop_yield.
  destruct (String.eqb_spec (ev_status ev) "error") as [E|E]; [exact H|].
  apply Hrest; assumption.
Qed.

Lemma stays_call {A} (m : M A) (rest : outcome A -> engine -> run) :
  keeps m -> (forall o, stays (rest o)) -> stays (call m rest).
Proof.
  intros Hm Hrest e H. unfold call. specialize (Hm e H).
  destruct (m e) as [o e1]. apply Hrest. exact Hm.
Qed.

Lemma stays_fail job stage shown logged : stays (fail job stage shown logged).
Proof. unfold fail. apply stays_yield. intros E. exfalso. apply E. reflexivity. Qed.

Lemma stays_finalize job : stays (finalize job).
Proof.
  unfold finalize. apply stays_call; [apply keeps_log_job_end; discriminate|].
  intros _. apply stays_yield. intros _. apply stays_finished.
Qed.

Lemma stays_layer job stage guard handler :
  stage <> "init" -> keeps handler -> stays (layer job stage guard handler).
Proof.
  intros Hstage Hh. unfold layer. destruct guard as [[]|exc]; [|apply stays_fail].
  apply stays_call; [exact Hh|]. intros [result|exc]; [|apply stays_fail].
  destruct (String.eqb (status result) "error"); [apply stays_fail|].
  apply stays_yield. intros _.
  apply stays_call; [apply keeps_log_job_end; exact Hstage|].
  intros _. apply stays_finalize.
Qed.

Lemma lasts_finished : lasts finished.
Proof. intros e H. exact H. Qed.

Lemma lasts_yield ev rest : lasts rest -> lasts (yield_ ev rest).
Proof.
  intros Hrest e H. unfold yield_. specialize (Hrest e H).
  destruct (rest e) as [evs e']. exact Hrest.
Qed.

Lemma lasts_call {A} (m : M A) (rest : outcome A -> engine -> run) :
  keeps m -> (forall o, lasts (rest o)) -> lasts (call m rest).
Proof.
  intros Hm Hrest e H. unfold call. specialize (Hm e H).
  destruct (m e) as [o e1]. apply Hrest. exact Hm.
Qed.

Lemma lasts_fail job stage shown logged :
  stage <> "init" -> lasts (fail job stage shown logged).
Proof.
  intros Hstage. unfold fail. apply lasts_yield.
  apply lasts_call; [apply keeps_log_job_end; exact Hstage|].
  intros _. apply lasts_finished.
Qed.

Lemma lasts_finalize job : lasts (finalize job).
Proof.
  unfold finalize. apply lasts_call; [apply keeps_log_job_end; discriminate|].
  intros _. apply lasts_yield, lasts_finished.
Qed.

Lemma lasts_layer job stage guard handler :
  stage <> "init" -> keeps handler -> lasts (layer job stage guard handler).
Proof.
  intros Hstage Hh. unfold layer.
  destruct guard as [[]|exc]; [|apply lasts_fail; exact Hstage].
  apply lasts_call; [exact Hh|].
  intros [result|exc]; [|apply lasts_fail; exact Hstage].
  destruct (String.eqb (status result) "error"); [apply lasts_fail; exact Hstage|].
  apply lasts_yield.
  apply lasts_call; [apply keeps_log_job_end; exact Hstage|].
  intros _. apply lasts_finalize.
Qed.

Section Handlers.
Variable isdir : string -> bool.
Variable glob : string -> string -> list string.
Variable reader : list string -> string -> outcome DataFrame.
Variable clean_cast : DataFrame -> list (gmap string pyval) -> outcome DataFrame.
Variable format_errors : list string -> string.
Variable bind_errors : list string -> outcome (option string).

Lemma stays_branch job row :
  stays (branch isdir glob reader clean_cast job row).
Proof.
  unfold branch. cbv zeta.
  destruct (py_eq _ (PStr "raw"));
    [apply stays_layer; [discriminate|apply keeps_load_source_to_raw]|].
  destruct (py_eq _ (PStr "curated"));
    [apply stays_layer; [discriminate|apply keeps_load_raw_to_curated]|].
  destruct (py_eq _ (PStr "processed"));
    [apply stays_layer; [discriminate|apply keeps_load_curated_to_processed]|].
  apply stays_fail.
Qed.

Lemma stays_ddl job row :
  stays (ddl isdir glob reader clean_cast format_errors bind_errors job row).
Proof.
  unfold ddl. apply stays_call; [apply keeps_create_target_tables|].
  intros [ddl_result|exc]; [|apply stays_fail].
  destruct (String.eqb (ddl_status ddl_result) "error").
  - apply stays_yield. intros E. exfalso. apply E. reflexivity.
  - apply stays_yield. intros _.
    apply stays_call; [apply keeps_log_job_end; discriminate|].
    intros _. apply stays_branch.
Qed.

Lemma lasts_branch job row :
  py_eq (get row "TargetSchema") (PStr "raw")
  || py_eq (get row "TargetSchema") (PStr "curated")
  || py_eq (get row "TargetSchema") (PStr "processed") = true ->
  lasts (branch isdir glob reader clean_cast job row).
Proof.
  intros Hknown. unfold branch. cbv zeta.
  destruct (py_eq _ (PStr "raw"));
    [apply lasts_layer; [discriminate|apply keeps_load_source_to_raw]|].
  destruct (py_eq _ (PStr "curated"));
    [apply lasts_layer; [discriminate|apply keeps_load_raw_to_curated]|].
  destruct (py_eq _ (PStr "processed"));
    [apply lasts_layer; [discriminate|apply keeps_load_curated_to_processed]|].
  discriminate.
Qed.

Lemma lasts_ddl job row :
  py_eq (get row "TargetSchema") (PStr "raw")
  || py_eq (get row "TargetSchema") (PStr "curated")
  || py_eq (get row "TargetSchema") (PStr "processed") = true ->
  lasts (ddl isdir glob reader clean_cast format_errors bind_errors job row).
Proof.
  intros Hknown. unfold ddl. apply lasts_call; [apply keeps_create_target_tables|].
  intros [ddl_result|exc]; [|apply lasts_fail; discriminate].
  destruct (String.eqb (ddl_status ddl_result) "error").
  - apply lasts_yield. destruct (bind_errors _) as [msg|exc].
    + apply lasts_call; [apply keeps_log_job_end; discriminate|].
      intros _. apply lasts_finished.
    + apply lasts_fail. discriminate.
  - apply lasts_yield.
    apply lasts_call; [apply keeps_log_job_end; discriminate|].
    intros _. apply lasts_branch. exact Hknown.
Qed.

End Handlers.

End Keeps.

Lemma yield_snd ev rest e : (yield_ ev rest e).2 = (rest e).2.
Proof. unfold yield_. destruct (rest e) as [evs e']. reflexivity. Qed.

(** The row [run_job] opens for the job as a whole. *)
Definition init_row (job : string) (e : engine) : audit_row :=
  {| a_job := job; a_stage := "init"; a_start := clock e; a_end := None;
     a_rows := None; a_status := "Running"; a_message := None |}.

Lemma run_job_start isdir glob reader clean_cast format_errors bind_errors job e :
  run_job isdir glob reader clean_cast format_errors bind_errors job e
  = let e1 := set_audit (JobAudit e ++ [init_row job e]) e in
    yield_ (event_of "init" ("Starting job '" +:+ job +:+ "'") "running")
      (fun e =>
         match List.filter (for_job job) (Config e) with
         | [] => fail job "init" ("No config found for job " +:+ job)
                      "No config found" e
         | row :: _ =>
             ddl isdir glob reader clean_cast format_errors bind_errors job row e
         end) e1.
Proof. reflexivity. Qed.

(** X27: Under the loop of [main.py], which returns at the first error event,
    the audit row that [run_job] opens for stage [init] is never closed:
    whatever the job, the database, the files and the outcome of the stages,
    the row is still [Running] when the loop is left.  On the paths where
    [run_job] would close it, the closing [log_job_end] comes after the
    [yield] of the error event and is never reached; on a run without
    errors, the last [log_job_end] names the stage [finalize]. *)
Theorem main_loop_leaves_init_row_running
    isdir glob reader clean_cast format_errors bind_errors job e :
  let after :=
    main_loop (run_job isdir glob reader clean_cast format_errors bind_errors job e) in
  init_row job e ∈ JobAudit after
  /\ is_open job "init" (init_row job e) = true.
Proof.
  cbv zeta. split.
  - rewrite run_job_start. cbv zeta.
    apply (stays_yield (init_row job e) _ _).
    + intros _ e1 H1.
      destruct (List.filter (for_job job) (Config e1)) as [|row rest].
      * apply (stays_fail (init_row job e)). exact H1.
      * apply (stays_ddl (init_row job e)); [reflexivity|exact H1].
    + cbn [JobAudit set_audit]. apply elem_of_app. right. left.
  - unfold is_open, init_row. cbn [a_job a_stage a_end].
    rewrite !String.eqb_refl. reflexivity.
Qed.

(** X28: Iterated to the end, [run_job] closes its [init] row when it finds no
    Config row; on the [raw], [curated] and [processed] branches it leaves
    the row [Running], whether the stage went through or failed. *)
Theorem run_job_init_row_at_the_end
    isdir glob reader clean_cast format_errors bind_errors job e :
  let final :=
    (run_job isdir glob reader clean_cast format_errors bind_errors job e).2 in
  (List.filter (for_job job) (Config e) = [] ->
     Forall (fun x => is_open job "init" x = false) (JobAudit final))
  /\ (forall row rest,
        List.filter (for_job job) (Config e) = row :: rest ->
        py_eq (get row "TargetSchema") (PStr "raw")
        || py_eq (get row "TargetSchema") (PStr "curated")
        || py_eq (get row "TargetSchema") (PStr "processed") = true ->
        init_row job e ∈ JobAudit final).
Proof.
  cbv zeta. rewrite run_job_start. cbv zeta. split.
  - intros Hcfg. unfold yield_. cbn [Config set_audit]. rewrite Hcfg.
    unfold fail, yield_, call, finished.
    destruct (log_job_end job "init" (Some 0) "failed" (Some "No config found") _)
      as [o e2] eqn:Hlog.
    cbn [snd].
    pose proof (log_job_end_no_open job "init" (Some 0) "failed"
                  (Some "No config found")
                  (set_audit (JobAudit e ++ [init_row job e]) e)) as H.
    rewrite Hlog in H. exact H.
  - intros row rest Hcfg Hknown. rewrite yield_snd. cbn [Config set_audit].
    rewrite Hcfg.
    apply (lasts_ddl (init_row job e)); [reflexivity|exact Hknown|].
    cbn [JobAudit set_audit]. apply elem_of_app. right. left.
Qed.

End OrchestrationFacts.
